(** * Wedjat: gaze detector, scanning menus and word guesses

    A shallow embedding of the parts of [detector.js], [wedjat.js] and the
    refactored [menu.js] that drive the program: the template-matching
    detector with its poll timer, the scan loop of menus and buttons with
    its confirmation race, and the word-guess query of the guess menu. *)

From Stdlib Require Import ZArith Ascii.
From stdpp Require Import gmap strings list.

Open Scope Z_scope.
Open Scope nat_scope.

(** ** Results of calls that may throw *)

Inductive result (A : Type) : Type :=
| Ok (a : A)
| Throw (msg : string).
Arguments Ok {A} a.
Arguments Throw {A} msg.

Definition rbind {A B} (r : result A) (k : A -> result B) : result B :=
  match r with
  | Ok a => k a
  | Throw msg => Throw msg
  end.

#[global] Instance result_ret : MRet result := fun A a => Ok a.
#[global] Instance result_bind : MBind result := fun A B k r => rbind r k.

(** ** JavaScript numbers as far as the detector needs them

    Pixel channels are integers and every sum of them stays far below 2^53,
    so the integer part of a number is a [Z]; reading an array past its end
    gives [undefined], which arithmetic turns into [NaN]. *)

Inductive num : Type :=
| Num (z : Z)
| NaN.

Definition num_add (a b : num) : num :=
  match a, b with
  | Num x, Num y => Num (x + y)
  | _, _ => NaN
  end.

Definition num_sub (a b : num) : num :=
  match a, b with
  | Num x, Num y => Num (x - y)
  | _, _ => NaN
  end.

Definition num_abs (a : num) : num :=
  match a with
  | Num x => Num (Z.abs x)
  | NaN => NaN
  end.

(** [a < b]: false as soon as one side is [NaN]. *)
Definition num_lt (a b : num) : bool :=
  match a, b with
  | Num x, Num y => (x <? y)%Z
  | _, _ => false
  end.

(** [x[i]] used as a number. *)
Definition index (x : list Z) (i : nat) : num :=
  match x !! i with
  | Some v => Num v
  | None => NaN
  end.

Module Detector.

(** *** Data *)

(** [my.state] only ever holds ["rest"] or ["gaze"]. *)
Inductive GazeState : Type := rest | gaze.

#[global] Instance GazeState_eq_dec : EqDecision GazeState.
Proof. solve_decision. Defined.

(** The two events of [my.emitter]. *)
Inductive Emitted : Type := gestureBegin | gestureEnd.

#[global] Instance Emitted_eq_dec : EqDecision Emitted.
Proof. solve_decision. Defined.

(** An [ImageData] object: RGBA bytes, row by row. *)
Record ImageData : Type := mkImageData {
  width : nat;
  height : nat;
  data : list Z
}.

(** What the platform guarantees of every [ImageData]. *)
Definition wellFormed (img : ImageData) : Prop :=
  length (data img) = width img * height img * 4.

(** *** [makeGenericDetector]: the initial state *)

Definition initialState : GazeState := rest.

(** *** [checkDimensions] *)

Definition checkDimensions (img1 img2 : ImageData) : result (nat * nat) :=
  let matchWidth := bool_decide (width img1 = width img2) in
  let matchHeight := bool_decide (height img1 = height img2) in
  if matchWidth && matchHeight
  then Ok (width img1, height img1)
  else Throw "Image dimensions do not match.".

(** *** [l1Distance] *)

(** The [for] loop, with [n] iterations left at index [i]. *)
Fixpoint l1Loop (x1 x2 : list Z) (n i : nat) (distance : num) : num :=
  match n with
  | O => distance
  | S n' =>
      if bool_decide (i mod 4 = 3)
      then l1Loop x1 x2 n' (i + 1) distance
      else l1Loop x1 x2 n' (i + 1)
             (num_add distance (num_abs (num_sub (index x1 i) (index x2 i))))
  end.

Definition l1Distance (img1 img2 : ImageData) : result num :=
  '(width, height) ← checkDimensions img1 img2;
  let x1 := data img1 in
  let x2 := data img2 in
  let ixMax := width * height * 4 in
  Ok (l1Loop x1 x2 ixMax 0 (Num 0)).

(** *** [detect]

    One poll tick on the current frame and the two templates; the events
    handed to the emitter are returned in order, with the new [my.state].
    A throw leaves [my.state] as it was and emits nothing. *)

Definition detect (state : GazeState) (streamPixels restPixels gazePixels : ImageData)
  : result (list Emitted * GazeState) :=
  dRest ← l1Distance streamPixels restPixels;
  dGaze ← l1Distance streamPixels gazePixels;
  let newState := if num_lt dGaze dRest then gaze else rest in
  let begun :=
    if bool_decide (state = rest) && bool_decide (newState = gaze)
    then [gestureBegin] else [] in
  let ended :=
    if bool_decide (state = gaze) && bool_decide (newState = rest)
    then [gestureEnd] else [] in
  Ok (begun ++ ended, newState).

(** A tick reads the frame and both templates as they are at that moment. *)
Record tick : Type := mkTick {
  frame : ImageData;
  restTemplate : ImageData;
  gazeTemplate : ImageData
}.

Definition detectTick (state : GazeState) (t : tick) : result (list Emitted * GazeState) :=
  detect state (frame t) (restTemplate t) (gazeTemplate t).

(** The interval timer calls [detect] once per tick; a tick that throws is
    reported by the platform and the next tick runs on the unchanged state. *)
Fixpoint run (state : GazeState) (ticks : list tick) : list Emitted * GazeState :=
  match ticks with
  | [] => ([], state)
  | t :: ticks' =>
      match detectTick state t with
      | Ok (emitted, state') =>
          let '(later, final) := run state' ticks' in (emitted ++ later, final)
      | Throw _ => run state ticks'
      end
  end.

(** The class a tick assigns to its frame, when it assigns one. *)
Definition classify (t : tick) : option GazeState :=
  match detectTick rest t with
  | Ok (_, c) => Some c
  | Throw _ => None
  end.

Definition classes (ticks : list tick) : list GazeState :=
  omap classify ticks.

(** Number of places where [a] is directly followed by [b]. *)
Fixpoint transitions (a b : GazeState) (l : list GazeState) : nat :=
  match l with
  | x :: (y :: _) as l' =>
      (if bool_decide (x = a) && bool_decide (y = b) then 1 else 0) + transitions a b l'
  | _ => 0
  end.

Definition occurrences (e : Emitted) (l : list Emitted) : nat :=
  length (filter (fun x => x = e) l).

(** *** The distance in the words of the specification *)

Record pixel : Type := mkPixel { red : Z; green : Z; blue : Z; alpha : Z }.

Fixpoint pixels (bytes : list Z) : list pixel :=
  match bytes with
  | r :: g :: b :: a :: bytes' => mkPixel r g b a :: pixels bytes'
  | _ => []
  end.

Definition channelDifference (p q : pixel) : Z :=
  (Z.abs (red p - red q) + Z.abs (green p - green q) + Z.abs (blue p - blue q))%Z.

Fixpoint sumZ (l : list Z) : Z :=
  match l with
  | [] => 0%Z
  | x :: l' => (x + sumZ l')%Z
  end.

Definition spec_distance (img1 img2 : ImageData) : Z :=
  sumZ (zip_with channelDifference (pixels (data img1)) (pixels (data img2))).

Definition spec_classify (frame restT gazeT : ImageData) : GazeState :=
  if (spec_distance frame gazeT <? spec_distance frame restT)%Z then gaze else rest.

(** *** What a class change emits, in the words of the specification *)

Definition spec_emission (previous current : GazeState) : list Emitted :=
  match previous, current with
  | rest, gaze => [gestureBegin]
  | gaze, rest => [gestureEnd]
  | _, _ => []
  end.

Fixpoint spec_emissions (previous : GazeState) (l : list GazeState) : list Emitted :=
  match l with
  | [] => []
  | c :: l' => spec_emission previous c ++ spec_emissions c l'
  end.

(** *** The poll timer of [makeGazeDetector]

    [window.setInterval] hands out a handle that no earlier timer had;
    [window.clearInterval] of [null] or of a handle that is not live does
    nothing. Only the detector's own interval timers are kept in the table. *)

Definition REFRESH_RATE_LISTEN : nat := 5.
Definition REFRESH_RATE_SCAN : nat := 20.

Record pollState : Type := mkPollState {
  status : option string;          (* my.status *)
  interval : option nat;           (* my.interval: null or a handle *)
  liveIntervals : gmap nat nat;    (* handle -> period in ms *)
  nextHandle : nat
}.

Definition setStatus (newStatus : string) (s : pollState) : pollState :=
  mkPollState (Some newStatus) (interval s) (liveIntervals s) (nextHandle s).

Definition clearInterval (handle : option nat) (s : pollState) : pollState :=
  match handle with
  | Some h => mkPollState (status s) (interval s) (delete h (liveIntervals s)) (nextHandle s)
  | None => s
  end.

Definition setInterval (period : nat) (s : pollState) : nat * pollState :=
  (nextHandle s,
   mkPollState (status s) (interval s)
     (<[nextHandle s := period]> (liveIntervals s)) (S (nextHandle s))).

Definition assignInterval (handle : nat) (s : pollState) : pollState :=
  mkPollState (status s) (Some handle) (liveIntervals s) (nextHandle s).

Definition idleMode (s : pollState) : pollState :=
  let s := setStatus "idle" s in
  clearInterval (interval s) s.

Definition listenMode (s : pollState) : pollState :=
  let s := setStatus "listening" s in
  let s := clearInterval (interval s) s in
  let '(h, s) := setInterval (1000 / REFRESH_RATE_LISTEN) s in
  assignInterval h s.

Definition scanMode (s : pollState) : pollState :=
  let s := setStatus "scanning" s in
  let s := clearInterval (interval s) s in
  let '(h, s) := setInterval (1000 / REFRESH_RATE_SCAN) s in
  assignInterval h s.

(** The detector as [makeGazeDetector] returns it: the generic constructor
    has set the status to idle, [my.interval] is [null], no timer runs. *)
Definition initialPoll (firstHandle : nat) : pollState :=
  mkPollState (Some "idle") None ∅ firstHandle.

Inductive modeSwitch : Type := Idle | Listen | Scan.

Definition switch (m : modeSwitch) (s : pollState) : pollState :=
  match m with
  | Idle => idleMode s
  | Listen => listenMode s
  | Scan => scanMode s
  end.

Definition switches (ms : list modeSwitch) (s : pollState) : pollState :=
  foldl (fun s m => switch m s) s ms.

(** The class [detect] computes from its two distances. *)
Definition closer (dRest dGaze : num) : GazeState :=
  if num_lt dGaze dRest then gaze else rest.

(** Small images for examples. *)
Definition image1x1 (r g b : Z) : ImageData := mkImageData 1 1 [r; g; b; 255%Z].
Definition image2x1 : ImageData :=
  mkImageData 2 1 [0; 0; 0; 255; 0; 0; 0; 255]%Z.

(** The live poll timers are none, or the single one [my.interval] names;
    a handle stored in [my.interval] was handed out before. *)
Definition pollInvariant (s : pollState) : Prop :=
  (liveIntervals s = ∅ \/
   exists h p, interval s = Some h /\ liveIntervals s = {[h := p]}) /\
  (forall h, interval s = Some h -> h < nextHandle s).


(** *** Notions used to state further properties of the detector *)

(** Every channel is a byte, as in a [Uint8ClampedArray]. *)
Definition byteImage (img : ImageData) : Prop :=
  Forall (fun v => (0 <= v <= 255)%Z) (data img).

Definition sameSize (img1 img2 : ImageData) : Prop :=
  width img1 = width img2 /\ height img1 = height img2.

(** The two buffers agree at every index the loop of [l1Distance] adds. *)
Definition sameColours (img1 img2 : ImageData) : Prop :=
  forall i, i < width img1 * height img1 * 4 -> i mod 4 <> 3 ->
            data img1 !! i = data img2 !! i.

Definition opposite (s : GazeState) : GazeState :=
  match s with rest => gaze | gaze => rest end.

(** The event [detect] emits when [my.state] stops being [s]. *)
Definition leaving (s : GazeState) : Emitted :=
  match s with rest => gestureBegin | gaze => gestureEnd end.

(** [n] events that alternate, the first one leaving [s]. *)
Fixpoint alternation (s : GazeState) (n : nat) : list Emitted :=
  match n with
  | O => []
  | S n' => leaving s :: alternation (opposite s) n'
  end.

(** The status a mode sets and the period of the timer it starts. *)
Definition modeName (m : modeSwitch) : string :=
  match m with Idle => "idle" | Listen => "listening" | Scan => "scanning" end.

Definition modePeriod (m : modeSwitch) : option nat :=
  match m with
  | Idle => None
  | Listen => Some (1000 / REFRESH_RATE_LISTEN)
  | Scan => Some (1000 / REFRESH_RATE_SCAN)
  end.

End Detector.

(** ** Text helpers *)

(** [s.split(sep)] for a separator of one character: the pieces between the
    separators, always at least one. *)
Fixpoint split (sep : Ascii.ascii) (s : string) : list string :=
  match s with
  | String.EmptyString => [String.EmptyString]
  | String.String c s' =>
      if Ascii.eqb c sep then String.EmptyString :: split sep s'
      else match split sep s' with
           | piece :: pieces => String.String c piece :: pieces
           | [] => [String.String c String.EmptyString]
           end
  end.

(** Modelled from the spec: [util.js] is not among the sources. Its
    [repeat(x, n)] is taken to build the array of [n] copies of [x], as the
    comment "If no text, no guesses" at its call and the claim of a list of
    [N_GUESSES] empty strings say. *)
Definition util_repeat {A} (x : A) (n : nat) : list A := replicate n x.

(** Modelled from the spec: [util.js] is not among the sources. Its
    [pad(arr, x, n)] is taken to append copies of [x] until the array has
    [n] entries ("Pad with proper number of guesses"), leaving an array that
    already has [n] or more as it is. *)
Definition util_pad {A} (arr : list A) (x : A) (n : nat) : list A :=
  arr ++ replicate (n - length arr) x.

Module Guess.

(** One entry of [data.searchResults]. *)
Record searchResult : Type := mkSearchResult { word : string; count : nat }.

(** The settings object handed to [jQuery.ajax]. *)
Record ajaxSettings : Type := mkAjax {
  url : string;
  minCorpusCount : nat;
  api_key : string;
  caseSensitive : bool;
  limit : nat;
  type : string;
  dataType : string
}.

(** What one call of [guessWord] does before it returns: it calls [cb]
    itself, or it issues one query and leaves [cb] to the success handler. *)
Inductive outcome : Type :=
| Callback (guesses : list string)
| Query (settings : ajaxSettings).

Definition MIN_COUNT : nat := 1000.

(** [inputText.split(" ").slice(-1)[0]]; [None] stands for [undefined]. *)
Definition lastToken (inputText : string) : option string :=
  last (split " "%char inputText).

(** An [undefined] text concatenates as the word "undefined". *)
Definition asText (text : option string) : string := default "undefined" text.

(** *** [makeGuessMenu] of [wedjat.js], the older monolithic program *)
Module Monolithic.

Definition N_GUESSES : nat := 7.

Definition wordnik (text : string) : ajaxSettings :=
  let queryURL := "http:api.wordnik.com:80/v4/words.json/search/" +:+ text in
  mkAjax queryURL MIN_COUNT "a8a677e1378da5d7a03532c7b57083a570bdd1254c16f6af3"
         true N_GUESSES "GET" "json".

(** The argument [success] passes to [cb]. *)
Definition success (searchResults : list searchResult) : list string :=
  let guesses := map word (drop 1 searchResults) in
  let padded := util_pad guesses "" N_GUESSES in
  padded.

(** [failure] stops in the debugger and never calls [cb]. *)
Definition failure : option (list string) := None.

Definition guessWord (inputText : string) : outcome :=
  let text := lastToken inputText in
  if bool_decide (text = Some "")
  then Callback (util_repeat "" N_GUESSES)
  else Query (wordnik (asText text)).

End Monolithic.

(** *** [makeGuessMenu] of [menu.js], the refactored modular program *)
Module Modular.

Definition N_GUESSES : nat := 8.

Definition wordnik (text : string) : ajaxSettings :=
  let queryURL := "http:api.wordnik.com:80/v4/words.json/search/" +:+ text in
  mkAjax queryURL MIN_COUNT "a8a677e1378da5d7a03532c7b57083a570bdd1254c16f6af3"
         false N_GUESSES "GET" "json".

Definition success (searchResults : list searchResult) : list string :=
  let guesses := map word (drop 1 searchResults) in
  let padded := util_pad guesses "" N_GUESSES in
  padded.

(** [failure] calls [util.notImplemented] and never calls [cb]. *)
Definition failure : option (list string) := None.

Definition guessWord (inputText : string) : outcome :=
  let text := lastToken inputText in
  if bool_decide (text = Some "")
  then Callback (util_repeat "" N_GUESSES)
  else Query (wordnik (asText text +:+ "*")).

End Modular.

(** The text ends in the character [sep]. *)
Definition endsWith (sep : ascii) (s : string) : Prop :=
  exists s', s = s' +:+ String.String sep String.EmptyString.


(** The character [c] occurs in [s]. *)
Fixpoint hasChar (c : ascii) (s : string) : bool :=
  match s with
  | String.EmptyString => false
  | String.String x s' => Ascii.eqb x c || hasChar c s'
  end.

End Guess.

(** ** The scanning program of [wedjat.js] *)

Module Wedjat.

(** *** Menus and buttons as the setup leaves them *)

Definition menuId : Type := nat.
Definition timerId : Type := nat.

(** A button is named by its menu and its index in [my.buttons]. *)
Definition buttonRef : Type := (menuId * nat)%type.

(** The button constructors of [my.initButton], with the part of the
    document element each reads. *)
Inductive buttonType : Type :=
| menuSelectorButton (nextMenuName : string) (slide : bool)
| startButton
| requestButton
| letterButton
| spaceButton
| terminalPunctuationButton
| nonTerminalPunctuationButton
| bufferActionButton
| returnButton (depth : Z)
| guessButton
| emailButton
| notImplementedButton.

(** [LEAF_LOOPS]: the number of loops through a leaf menu before it jumps
    to its parent. The leaf menu carries it, so that the scan can be stated
    for any limit; [makeLeafMenu] builds every leaf with [LEAF_LOOPS]. *)
Definition LEAF_LOOPS : nat := 2.

Inductive menuKind : Type :=
| branchMenu
| leafMenu (loops : nat).

Definition makeLeafMenu : menuKind := leafMenu LEAF_LOOPS.

Record menu : Type := mkMenu {
  kind : menuKind;
  buttons : list buttonType;                 (* my.buttons *)
  parent : option menuId;                    (* that.parent, set by setChildren *)
  children : option (gmap string menuId)     (* my.children, null until set *)
}.

Definition config : Type := gmap menuId menu.

(** *** Function objects the program hands to timers and emitters *)

(** The callbacks a menu passes to [button.scan]. *)
Inductive callback : Type :=
| thatScan (m : menuId)                      (* that.scan *)
| branchPassed (m : menuId) (buttonIx : nat) (* cbpassed of a branch menu *)
| leafPressed (m : menuId)                   (* cbpressed of a leaf menu *)
| leafNext (m : menuId) (buttonIx loopIx : nat). (* cbnext of a leaf menu *)

(** The variables one call of [that.scan] of a button binds; its inner
    functions [onPress], [onTimeout], [afterPress] and [afterAnnouncement]
    close over them. *)
Record scanEnv : Type := mkScanEnv {
  that : buttonRef;
  cbpassed : callback;
  cbpressed : callback;
  timeout : timerId
}.

(** Functions given to [setTimeout]. *)
Inductive timerFn : Type :=
| onTimeout (e : scanEnv)
| afterPress (e : scanEnv)
| afterAnnouncement (e : scanEnv)
| stopOscillator
| afterBeep (b : buttonRef) (cb : callback)
| delayed (cb : callback).                   (* setTimeout(cbpressed, ...) *)

(** Functions held by a collaborator until its work is done: the end of an
    utterance, the buffer's [executeAction], the mail transport, [util.read]. *)
Inductive awaitedFn : Type :=
| afterSpeech (cb : callback)
| afterRead (cb : callback)
| afterSend (b : buttonRef) (cb : callback)
| finished (cb : callback).

#[global] Instance callback_eq_dec : EqDecision callback.
Proof. solve_decision. Defined.
#[global] Instance scanEnv_eq_dec : EqDecision scanEnv.
Proof. solve_decision. Defined.

(** What the program does that can be seen or heard, and which function
    the event loop ran. *)
Inductive effect : Type :=
| Toggle (b : buttonRef)
| Announce (b : buttonRef)
| SlideUp (m : menuId)
| SlideDown (m : menuId)
| SetValue (b : buttonRef) (value : string)
| Beep (b : buttonRef)
| Speak (text : string)
| Write (b : buttonRef)                      (* my.buffer.write *)
| Action (b : buttonRef)                     (* that.action was called *)
| Heard (e : scanEnv)                        (* a gaze ran onPress of e *)
| Fired (f : timerFn)                        (* a timeout ran f *)
| Completed (f : awaitedFn)
| Started (b : buttonRef)                    (* an extended gaze ran that.start *)
| Uncaught (msg : string).

(** *** The state of the page *)

Record state : Type := mkState {
  gazeListeners : list scanEnv;              (* the registered onPress functions *)
  extendedGazeListeners : list buttonRef;    (* the registered that.start functions *)
  timeouts : gmap timerId (nat * timerFn);   (* pending setTimeout: delay, function *)
  nextTimeout : timerId;
  awaited : list awaitedFn;
  sliderMs : nat;                            (* my.slider.getms() *)
  journal : list effect
}.

Definition M (A : Type) : Type := state -> result A * state.

#[global] Instance M_ret : MRet M := fun A a s => (Ok a, s).
#[global] Instance M_bind : MBind M := fun A B k m s =>
  match m s with
  | (Ok a, s') => k a s'
  | (Throw msg, s') => (Throw msg, s')
  end.

Definition throw {A} (msg : string) : M A := fun s => (Throw msg, s).

Definition TypeError : string := "TypeError: undefined is not an object".

Definition log (x : effect) : M unit := fun s =>
  (Ok tt, mkState (gazeListeners s) (extendedGazeListeners s) (timeouts s)
                  (nextTimeout s) (awaited s) (sliderMs s) (journal s ++ [x])).

(** Modelled from the spec: the detector of [io.js] is not among the
    sources. Its gaze listeners are kept as an emitter keeps them: adding
    appends the function, removing drops it. A listener is a function
    object made by one call of [scan] and added once. *)
Definition addGazeListener (e : scanEnv) : M unit := fun s =>
  (Ok tt, mkState (gazeListeners s ++ [e]) (extendedGazeListeners s) (timeouts s)
                  (nextTimeout s) (awaited s) (sliderMs s) (journal s)).

Definition removeGazeListener (e : scanEnv) : M unit := fun s =>
  (Ok tt, mkState (filter (fun e' => e' <> e) (gazeListeners s))
                  (extendedGazeListeners s) (timeouts s)
                  (nextTimeout s) (awaited s) (sliderMs s) (journal s)).

Definition addExtendedGazeListener (b : buttonRef) : M unit := fun s =>
  (Ok tt, mkState (gazeListeners s) (extendedGazeListeners s ++ [b]) (timeouts s)
                  (nextTimeout s) (awaited s) (sliderMs s) (journal s)).

Definition removeExtendedGazeListener (b : buttonRef) : M unit := fun s =>
  (Ok tt, mkState (gazeListeners s) (filter (fun b' => b' <> b) (extendedGazeListeners s))
                  (timeouts s) (nextTimeout s) (awaited s) (sliderMs s) (journal s)).

(** [setTimeout] returns a handle no earlier timer had. *)
Definition setTimeout (f : timerFn) (delay : nat) : M timerId := fun s =>
  (Ok (nextTimeout s),
   mkState (gazeListeners s) (extendedGazeListeners s)
           (<[nextTimeout s := (delay, f)]> (timeouts s))
           (S (nextTimeout s)) (awaited s) (sliderMs s) (journal s)).

Definition clearTimeout (t : timerId) : M unit := fun s =>
  (Ok tt, mkState (gazeListeners s) (extendedGazeListeners s) (delete t (timeouts s))
                  (nextTimeout s) (awaited s) (sliderMs s) (journal s)).

(** The handle the next [setTimeout] will return. *)
Definition upcomingTimeout : M timerId := fun s => (Ok (nextTimeout s), s).

Definition getms : M nat := fun s => (Ok (sliderMs s), s).

(** A collaborator takes a function and calls it when its work is done. *)
Definition await (f : awaitedFn) : M unit := fun s =>
  (Ok tt, mkState (gazeListeners s) (extendedGazeListeners s) (timeouts s)
                  (nextTimeout s) (awaited s ++ [f]) (sliderMs s) (journal s)).

Definition toggle (b : buttonRef) : M unit := log (Toggle b).
Definition announce (b : buttonRef) : M unit := log (Announce b).
Definition slideUp (m : menuId) : M unit := log (SlideUp m).
Definition slideDown (m : menuId) : M unit := log (SlideDown m).

(** *** [makeButton]: [that.scan] and its inner functions *)

Definition PRESS_WAIT : nat := 350.

Definition buttonScan (b : buttonRef) (cbpassed cbpressed : callback) : M unit :=
  (* the handle of the [setTimeout] below, which [onPress] reads from the
     variable [timeout] once it runs *)
  t ← upcomingTimeout;
  let e := mkScanEnv b cbpassed cbpressed t in
  toggle b;;
  announce b;;
  addGazeListener e;;
  ms ← getms;
  _ ← setTimeout (onTimeout e) ms;
  mret tt.

Definition onPress (e : scanEnv) : M unit :=
  removeGazeListener e;;
  clearTimeout (timeout e);;
  _ ← setTimeout (afterPress e) PRESS_WAIT;
  mret tt.

Section Program.

Variable cfg : config.

(** *** [makeMenu] *)

Definition nButtons (mo : menu) : nat := length (buttons mo).

(** [(ix + 1) % my.nButtons]; it is only called for a menu one of whose
    buttons was scanned, so the divisor is not 0. *)
Definition nextButton (mo : menu) (ix : nat) : nat := (ix + 1) mod nButtons mo.

Definition isLastButton (mo : menu) (buttonIx : nat) : bool :=
  bool_decide (Z.of_nat buttonIx = (Z.of_nat (nButtons mo) - 1)%Z).

(** A menu object reached through a reference that may be [undefined]. *)
Definition menuOf (m : option menuId) : M (menuId * menu) := fun s =>
  match m with
  | Some i =>
      match cfg !! i with
      | Some mo => (Ok (i, mo), s)
      | None => (Throw TypeError, s)
      end
  | None => (Throw TypeError, s)
  end.

(** [my.buttons[buttonIx]], on which [scan] is then called. *)
Definition buttonAt (mo : menu) (buttonIx : nat) : M buttonType := fun s =>
  match buttons mo !! buttonIx with
  | Some ty => (Ok ty, s)
  | None => (Throw TypeError, s)
  end.

(** *** [makeBranchMenu] *)

Definition branchScanAt (m : menuId) (mo : menu) (buttonIx : nat) : M unit :=
  let cbpassed := branchPassed m buttonIx in
  let cbpressed := thatScan m in
  _ ← buttonAt mo buttonIx;
  buttonScan (m, buttonIx) cbpassed cbpressed.

(** *** [makeLeafMenu] *)

Definition isLastLoop (loops loopIx : nat) : bool :=
  bool_decide (Z.of_nat loopIx = (Z.of_nat loops - 1)%Z).

Definition nextLoop (mo : menu) (buttonIx loopIx : nat) : nat :=
  if isLastButton mo buttonIx then loopIx + 1 else loopIx.

Definition leafScanAt (m : menuId) (mo : menu) (loops buttonIx loopIx : nat) : M unit :=
  let cbpressed := leafPressed m in
  let cbnext := leafNext m buttonIx loopIx in
  let cbpassed :=
    if isLastButton mo buttonIx && isLastLoop loops loopIx then cbpressed else cbnext in
  _ ← buttonAt mo buttonIx;
  buttonScan (m, buttonIx) cbpassed cbpressed.

(** [my.scanAt] of the menu [m]. *)
Definition scanAt (m : menuId) (buttonIx loopIx : nat) : M unit :=
  '(_, mo) ← menuOf (Some m);
  match kind mo with
  | branchMenu => branchScanAt m mo buttonIx
  | leafMenu loops => leafScanAt m mo loops buttonIx loopIx
  end.

(** [that.scan] of a menu. *)
Definition scan (m : option menuId) : M unit :=
  '(i, _) ← menuOf m;
  slideDown i;;
  scanAt i 0 0.

(** Calling one of the callbacks. *)
Definition call (cb : callback) : M unit :=
  match cb with
  | thatScan m => scan (Some m)
  | branchPassed m buttonIx =>
      '(_, mo) ← menuOf (Some m);
      scanAt m (nextButton mo buttonIx) 0
  | leafPressed m =>
      '(_, mo) ← menuOf (Some m);
      slideUp m;;
      scan (parent mo)
  | leafNext m buttonIx loopIx =>
      '(_, mo) ← menuOf (Some m);
      scanAt m (nextButton mo buttonIx) (nextLoop mo buttonIx loopIx)
  end.

(** *** The actions of the button constructors *)

Definition BEEP_DURATION : nat := 1000.
Definition AFTER_BEEP_WAIT : nat := 500.
Definition PAUSE : nat := 500.

(** [my.getReturnMenu]: [depth] levels up; a depth that never meets 0 ends
    in a throw, by a missing parent or by the depth of the call stack. *)
Fixpoint climb (menu : option menuId) (depth : nat) : result (option menuId) :=
  match depth with
  | O => Ok menu
  | S depth' =>
      match menu ≫= (fun i => cfg !! i) with
      | Some mo => climb (parent mo) depth'
      | None => Throw TypeError
      end
  end.

Definition getReturnMenu (menu : option menuId) (depth : Z) : M (option menuId) := fun s =>
  if (depth <? 0)%Z then (Throw TypeError, s)
  else (climb menu (Z.to_nat depth), s).

Definition write (b : buttonRef) : M unit := log (Write b).

Definition action (b : buttonRef) (ty : buttonType) (cbpressed : callback) : M unit :=
  log (Action b);;
  match ty with
  | menuSelectorButton nextMenuName slide =>
      '(_, mo) ← menuOf (Some b.1);
      match children mo with
      | None => throw TypeError
      | Some children =>
          let nextMenu := children !! nextMenuName in
          (if slide then slideUp b.1 else mret tt);;
          scan nextMenu
      end
  | startButton =>
      addExtendedGazeListener b;;
      log (SetValue b "Start");;
      toggle b
  | requestButton =>
      log (Beep b);;
      _ ← setTimeout stopOscillator BEEP_DURATION;
      _ ← setTimeout (afterBeep b cbpressed) (BEEP_DURATION + AFTER_BEEP_WAIT);
      mret tt
  | letterButton | spaceButton | terminalPunctuationButton
  | nonTerminalPunctuationButton | guessButton =>
      write b;;
      call cbpressed
  | bufferActionButton =>
      await (finished cbpressed)
  | returnButton depth =>
      returnMenu ← getReturnMenu (Some b.1) depth;
      majorMenu ← getReturnMenu (Some b.1) (depth - 1);
      '(major, _) ← menuOf majorMenu;
      slideUp major;;
      scan returnMenu
  | emailButton =>
      await (afterSend b cbpressed)
  | notImplementedButton =>
      log (Speak "Not implemented");;
      await (afterRead cbpressed)
  end.

(** [that.action(cbpressed)] on the button [b]. *)
Definition actionOf (b : buttonRef) (cbpressed : callback) : M unit :=
  '(_, mo) ← menuOf (Some b.1);
  ty ← buttonAt mo b.2;
  action b ty cbpressed.

(** [that.start] of a start button. *)
Definition start (b : buttonRef) : M unit :=
  removeExtendedGazeListener b;;
  log (SetValue b "Stop");;
  scan (Some b.1);;
  toggle b.

(** *** Running the function of a timer or of a collaborator *)

Definition runTimer (f : timerFn) : M unit :=
  match f with
  | onTimeout e =>
      toggle (that e);;
      removeGazeListener e;;
      call (cbpassed e)
  | afterPress e =>
      announce (that e);;
      ms ← getms;
      _ ← setTimeout (afterAnnouncement e) ms;
      mret tt
  | afterAnnouncement e =>
      toggle (that e);;
      actionOf (that e) (cbpressed e)
  | stopOscillator => mret tt
  | afterBeep b cb =>
      log (Speak "request");;
      await (afterSpeech cb)
  | delayed cb => call cb
  end.

Definition runAwaited (f : awaitedFn) : M unit :=
  match f with
  | afterSpeech cb =>
      ms ← getms;
      _ ← setTimeout (delayed cb) ms;
      mret tt
  | afterRead cb =>
      _ ← setTimeout (delayed cb) PAUSE;
      mret tt
  | afterSend b cb =>
      log (Speak "message");;
      await (finished cb)
  | finished cb => call cb
  end.

(** *** The event loop *)

Inductive event : Type :=
| Gaze                                       (* the detector reports a short gaze *)
| ExtendedGaze                               (* the detector reports an extended gaze *)
| Expire (t : timerId)                       (* the delay of the timeout t has passed *)
| Complete (k : nat)                         (* the k-th awaited function is called *)
| Slide (ms : nat).                          (* the assistant moves the slider *)

Fixpoint forEach {A} (f : A -> M unit) (l : list A) : M unit :=
  match l with
  | [] => mret tt
  | x :: l' => f x;; forEach f l'
  end.

(** An emitter calls the listeners it held when the event came. *)
Definition emitGaze : M unit := fun s =>
  forEach (fun e => log (Heard e);; onPress e) (gazeListeners s) s.

Definition emitExtendedGaze : M unit := fun s =>
  forEach (fun b => log (Started b);; start b) (extendedGazeListeners s) s.

Definition takeAwaited (k : nat) : M unit := fun s =>
  (Ok tt, mkState (gazeListeners s) (extendedGazeListeners s) (timeouts s)
                  (nextTimeout s) (take k (awaited s) ++ drop (S k) (awaited s))
                  (sliderMs s) (journal s)).

Definition setSlider (ms : nat) : M unit := fun s =>
  (Ok tt, mkState (gazeListeners s) (extendedGazeListeners s) (timeouts s)
                  (nextTimeout s) (awaited s) ms (journal s)).

(** One task of the event loop; an uncaught throw ends the task only. *)
Definition task (m : M unit) (s : state) : state :=
  match m s with
  | (Ok _, s') => s'
  | (Throw msg, s') => (log (Uncaught msg) s').2
  end.

Definition step (ev : event) (s : state) : state :=
  match ev with
  | Gaze => task emitGaze s
  | ExtendedGaze => task emitExtendedGaze s
  | Expire t =>
      match timeouts s !! t with
      | Some (_, f) => task (clearTimeout t;; log (Fired f);; runTimer f) s
      | None => s
      end
  | Complete k =>
      match awaited s !! k with
      | Some f => task (takeAwaited k;; log (Completed f);; runAwaited f) s
      | None => s
      end
  | Slide ms => task (setSlider ms) s
  end.

Definition steps (evs : list event) (s : state) : state :=
  foldl (fun s ev => step ev s) s evs.

End Program.

(** *** States and invariants used to state the properties *)

(** The variables one call of [buttonScan] in [s] binds, and the state it
    leaves. *)
Definition armedEnv (b : buttonRef) (cbpassed cbpressed : callback) (s : state) : scanEnv :=
  mkScanEnv b cbpassed cbpressed (nextTimeout s).

Definition armedState (b : buttonRef) (cbpassed cbpressed : callback) (s : state) : state :=
  let e := armedEnv b cbpassed cbpressed s in
  mkState (gazeListeners s ++ [e]) (extendedGazeListeners s)
          (<[nextTimeout s := (sliderMs s, onTimeout e)]> (timeouts s))
          (S (nextTimeout s)) (awaited s) (sliderMs s)
          ((journal s ++ [Toggle b]) ++ [Announce b]).

(** The [cbpassed] a leaf menu chooses at a button and loop. *)
Definition leafCbpassed (m : menuId) (mo : menu) (loops buttonIx loopIx : nat) : callback :=
  if isLastButton mo buttonIx && isLastLoop loops loopIx
  then leafPressed m else leafNext m buttonIx loopIx.

(** The variables of the [k]-th call of [buttonScan] in an unattended scan
    of the leaf menu [m] that starts when the next timeout handle is [n0]. *)
Definition passEnv (m : menuId) (mo : menu) (L : nat) (n0 k : nat) : scanEnv :=
  mkScanEnv (m, k mod nButtons mo)
            (leafCbpassed m mo L (k mod nButtons mo) (k / nButtons mo))
            (leafPressed m) (n0 + k).

(** After [k] timeouts of a scan started in [s]: button [k mod N] is the
    only one armed, only its deadline is pending, and [m.slideUp()] has not
    been called. *)
Definition leafArmed (m : menuId) (mo : menu) (L : nat) (s : state) (k : nat) (st : state)
  : Prop :=
  exists j,
    st = mkState [passEnv m mo L (nextTimeout s) k] (extendedGazeListeners s)
                 {[nextTimeout s + k
                   := (sliderMs s, onTimeout (passEnv m mo L (nextTimeout s) k))]}
                 (S (nextTimeout s + k)) (awaited s) (sliderMs s) (journal s ++ j)
    /\ (SlideUp m ∉ j).

(** A scan of the menu [m] that is started in [s] and then sees [k]
    deadlines pass, one after the other, and no gaze. *)
Definition unattended (cfg : config) (m : menuId) (s : state) (k : nat) : state :=
  steps cfg (map Expire (seq (nextTimeout s) k)) (task (scan cfg (Some m)) s).

(** The scan call a timer function belongs to, if any. *)
Definition timerEnv (f : timerFn) : option scanEnv :=
  match f with
  | onTimeout e | afterPress e | afterAnnouncement e => Some e
  | _ => None
  end.

(** Journal entries that record an outcome of the race of [e]: a gaze that
    reached its [onPress], or its deadline running [onTimeout]. *)
Definition isOutcome (e : scanEnv) (x : effect) : bool :=
  match x with
  | Heard e' => bool_decide (e' = e)
  | Fired (onTimeout e') => bool_decide (e' = e)
  | _ => false
  end.

(** Journal entries that record the confirmed path of [e] going on to call
    the action. *)
Definition isConfirmed (e : scanEnv) (x : effect) : bool :=
  match x with
  | Fired (afterAnnouncement e') => bool_decide (e' = e)
  | _ => false
  end.

Fixpoint tally (p : effect -> bool) (j : list effect) : nat :=
  match j with
  | [] => 0
  | x :: j' => (if p x then 1 else 0) + tally p j'
  end.

Definition outcomes (e : scanEnv) (s : state) : nat := tally (isOutcome e) (journal s).
Definition confirmations (e : scanEnv) (s : state) : nat := tally (isConfirmed e) (journal s).

(** What a piece of the program leaves alone when it does not run on behalf
    of the scan call [e]. *)
Record untouched (e : scanEnv) (s s' : state) : Prop := mkUntouched {
  un_next : nextTimeout s <= nextTimeout s';
  un_listening : filter (fun e' => e' = e) (gazeListeners s')
                 = filter (fun e' => e' = e) (gazeListeners s);
  un_new : forall e', e' ∈ gazeListeners s' ->
                      e' ∈ gazeListeners s \/ timeout e < timeout e';
  un_deadline : timeouts s' !! timeout e = timeouts s !! timeout e;
  un_timers : forall id d f, timeouts s' !! id = Some (d, f) -> timerEnv f = Some e ->
                             timeouts s !! id = Some (d, f);
  un_outcomes : outcomes e s' = outcomes e s;
  un_confirmations : confirmations e s' = confirmations e s
}.

Definition respects {A} (e : scanEnv) (c : M A) : Prop :=
  forall s, timeout e < nextTimeout s -> untouched e s (c s).2.

(** The three phases of the race of one scan call [e]. *)

(** Armed: its [onPress] is registered once and its deadline is pending. *)
Definition Armed (e : scanEnv) (s : state) : Prop :=
  timeout e < nextTimeout s /\
  filter (fun e' => e' = e) (gazeListeners s) = [e] /\
  (forall e', e' ∈ gazeListeners s -> timeout e' = timeout e -> e' = e) /\
  (exists d, timeouts s !! timeout e = Some (d, onTimeout e)) /\
  (forall id d f, timeouts s !! id = Some (d, f) -> timerEnv f = Some e -> id = timeout e).

(** Confirmed: a gaze ran [onPress]; the listener is gone and the deadline
    is cleared for good. *)
Definition Pressed (e : scanEnv) (s : state) : Prop :=
  timeout e < nextTimeout s /\
  (forall e', e' ∈ gazeListeners s -> timeout e' <> timeout e) /\
  timeouts s !! timeout e = None /\
  (forall id d, timeouts s !! id <> Some (d, onTimeout e)).

(** Passed: the deadline ran [onTimeout]; nothing of [e] is registered or
    pending any more. *)
Definition Passed (e : scanEnv) (s : state) : Prop :=
  timeout e < nextTimeout s /\
  (forall e', e' ∈ gazeListeners s -> timeout e' <> timeout e) /\
  timeouts s !! timeout e = None /\
  (forall id d f, timeouts s !! id = Some (d, f) -> timerEnv f <> Some e).

(** The phases together with the numbers of outcomes and confirmations
    the journal holds. *)
Definition ArmedC (e : scanEnv) (c a : nat) (s : state) : Prop :=
  Armed e s /\ outcomes e s = c /\ confirmations e s = a.
Definition PressedC (e : scanEnv) (c : nat) (s : state) : Prop :=
  Pressed e s /\ outcomes e s = c.
Definition PassedC (e : scanEnv) (c a : nat) (s : state) : Prop :=
  Passed e s /\ outcomes e s = c /\ confirmations e s = a.

(** [c] keeps [P]: from a state in [P] it ends in [P], thrown or not. *)
Definition keeps {A} (P : state -> Prop) (c : M A) : Prop :=
  forall s, P s -> P (c s).2.

(** What the emitter does with one gaze listener. *)
Definition hear (e : scanEnv) : M unit := log (Heard e);; onPress e.

(** A state in which every handle in use was handed out before. *)
Definition fresh (s : state) : Prop :=
  (forall e', e' ∈ gazeListeners s -> timeout e' < nextTimeout s) /\
  (forall id d f, timeouts s !! id = Some (d, f) ->
     id < nextTimeout s /\ forall e', timerEnv f = Some e' -> timeout e' < nextTimeout s).

(** [c], run on behalf of the scan call [e] whose handle was handed out,
    keeps the state fresh and hands out only later handles. *)
Definition soundFor {A} (e : scanEnv) (c : M A) : Prop :=
  forall s, fresh s -> timeout e < nextTimeout s ->
            fresh (c s).2 /\ nextTimeout s <= nextTimeout (c s).2.

(** The same for a piece of the program that belongs to no scan call. *)
Definition sound {A} (c : M A) : Prop :=
  forall s, fresh s -> fresh (c s).2 /\ nextTimeout s <= nextTimeout (c s).2.


(** The buttons whose action was called, in order. *)
Definition actions (j : list effect) : list buttonRef :=
  omap (fun x => match x with Action b => Some b | _ => None end) j.

(** [c] calls no action. *)
Definition silent {A} (c : M A) : Prop :=
  forall s, actions (journal (c s).2) = actions (journal s).

(** [c] calls the action of [b] once, or calls no action. *)
Definition callsAtMost {A} (b : buttonRef) (c : M A) : Prop :=
  forall s, actions (journal (c s).2) = actions (journal s)
            \/ actions (journal (c s).2) = actions (journal s) ++ [b].

(** Where the scan goes on when a button of the menu has been confirmed and
    its action is done: the menu itself for a branch, the parent for a leaf. *)
Definition resumes (m : menuId) (mo : menu) : option menuId :=
  match kind mo with
  | branchMenu => Some m
  | leafMenu _ => parent mo
  end.

(** The callback a menu gives its buttons as [cbpressed]. *)
Definition menuCbpressed (m : menuId) (mo : menu) : callback :=
  match kind mo with
  | branchMenu => thatScan m
  | leafMenu _ => leafPressed m
  end.

(** What the menu itself does before that scan: a leaf slides up. *)
Definition leaves (m : menuId) (mo : menu) : list effect :=
  match kind mo with
  | branchMenu => []
  | leafMenu _ => [SlideUp m]
  end.

(** *** Pages for examples *)

Definition threeLetterMenu : menu :=
  mkMenu branchMenu [letterButton; letterButton; letterButton] None None.

(** One branch menu of three letter buttons. *)
Definition threeLetters : config := {[ 0 := threeLetterMenu ]}.

Definition mainMenu : menu :=
  mkMenu branchMenu [menuSelectorButton "compose1" false] None (Some {[ "compose1" := 1 ]}).

Definition composeMenu : menu :=
  mkMenu makeLeafMenu [letterButton; letterButton; letterButton] (Some 0) None.

(** A main menu with one leaf menu of three letter buttons under it. *)
Definition leafPage : config := {[ 0 := mainMenu; 1 := composeMenu ]}.

(** Nothing armed, nothing pending, the slider at one second. *)
Definition quiet : state := mkState [] [] ∅ 1 [] 1000 [].


(** *** Notions used to state further properties of the scan *)

(** The three events that confirm the button armed in a state whose next
    timeout handle is [n]: a gaze, the end of the settle delay, the end of
    the announcement delay. *)
Definition confirm (n : timerId) : list event :=
  [Gaze; Expire (S n); Expire (S (S n))].

(** The variables of the call of [button.scan] that [my.scanAt] of the menu
    [m] makes for its button [ix]. *)
Definition scanEnvAt (m : menuId) (mo : menu) (ix loop : nat) (s : state) : scanEnv :=
  armedEnv (m, ix)
    (match kind mo with
     | branchMenu => branchPassed m ix
     | leafMenu loops => leafCbpassed m mo loops ix loop
     end)
    (menuCbpressed m mo) s.

(** What the confirmed path of [e] has put in the journal when it calls
    the action. *)
Definition confirmedJournal (e : scanEnv) : list effect :=
  [Toggle (that e); Announce (that e); Heard e; Fired (afterPress e);
   Announce (that e); Fired (afterAnnouncement e); Toggle (that e)].

(** The state in which the action of the one armed button [that e] is
    called, when the scan call [e] was made in [s]. *)
Definition confirmedState (e : scanEnv) (s : state) : state :=
  mkState [] (extendedGazeListeners s) ∅ (S (S (S (nextTimeout s))))
          (awaited s) (sliderMs s) (journal s ++ confirmedJournal e).

(** The menu [depth] levels up the parent pointers from [m]. *)
Fixpoint ancestor (cfg : config) (m : menuId) (depth : nat) : option menuId :=
  match depth with
  | O => Some m
  | S depth' =>
      match cfg !! m ≫= parent with
      | Some p => ancestor cfg p depth'
      | None => None
      end
  end.

Definition isSlideUp (x : effect) : bool :=
  match x with SlideUp _ => true | _ => false end.

(** The variables of the [k]-th call of [buttonScan] in an unattended scan
    of the branch menu [m] that starts when the next timeout handle is [n0]. *)
Definition branchEnv (m : menuId) (mo : menu) (n0 k : nat) : scanEnv :=
  mkScanEnv (m, k mod nButtons mo) (branchPassed m (k mod nButtons mo)) (thatScan m)
            (n0 + k).

(** After [k] timeouts of a scan of the branch menu started in [s]: button
    [k mod N] is the only one armed, only its deadline is pending, and no
    menu has slid up. *)
Definition branchArmed (m : menuId) (mo : menu) (s : state) (k : nat) (st : state) : Prop :=
  exists j,
    st = mkState [branchEnv m mo (nextTimeout s) k] (extendedGazeListeners s)
                 {[nextTimeout s + k
                   := (sliderMs s, onTimeout (branchEnv m mo (nextTimeout s) k))]}
                 (S (nextTimeout s + k)) (awaited s) (sliderMs s) (journal s ++ j)
    /\ forallb (fun x => negb (isSlideUp x)) j = true.

(** The buttons whose action hands [cbpressed] to a timer or to a
    collaborator instead of calling it. *)
Definition defers (ty : buttonType) : bool :=
  match ty with
  | requestButton | notImplementedButton | emailButton | bufferActionButton => true
  | _ => false
  end.

(** The events that carry such an action to its end when its first timeout
    handle is [n]: for a request the oscillator stop, the wait after the
    beep, the end of the utterance and the scan delay; for a button that is
    not implemented the end of the utterance and the pause; for an email
    the transport and the reading; for a buffer action the buffer. *)
Definition resumption (ty : buttonType) (n : timerId) : list event :=
  match ty with
  | requestButton => [Expire n; Expire (S n); Complete 0; Expire (S (S n))]
  | notImplementedButton => [Complete 0; Expire n]
  | emailButton => [Complete 0; Complete 0]
  | bufferActionButton => [Complete 0]
  | _ => []
  end.

(** What the journal holds of the action when [cbpressed] is called. *)
Definition deferredJournal (b : buttonRef) (ty : buttonType) (cb : callback) : list effect :=
  match ty with
  | requestButton =>
      [Action b; Beep b; Fired stopOscillator; Fired (afterBeep b cb); Speak "request";
       Completed (afterSpeech cb); Fired (delayed cb)]
  | notImplementedButton =>
      [Action b; Speak "Not implemented"; Completed (afterRead cb); Fired (delayed cb)]
  | emailButton =>
      [Action b; Completed (afterSend b cb); Speak "message"; Completed (finished cb)]
  | bufferActionButton => [Action b; Completed (finished cb)]
  | _ => []
  end.

(** The number of timeout handles the action uses. *)
Definition deferredTimers (ty : buttonType) : nat :=
  match ty with
  | requestButton => 3
  | notImplementedButton => 1
  | _ => 0
  end.

(** Who holds the control of the program: nobody, a start button waiting
    for an extended gaze, the scan call of the one armed button, a timer
    that carries a confirmed button onward, or a collaborator. *)
Inductive control : Type :=
| Halted
| Waiting (b : buttonRef)
| Scanning (e : scanEnv)
| Continuing (id : timerId) (f : timerFn)
| Awaiting (f : awaitedFn).

Definition armedOf (c : control) : list scanEnv :=
  match c with Scanning e => [e] | _ => [] end.

Definition waitingOf (c : control) : list buttonRef :=
  match c with Waiting b => [b] | _ => [] end.

Definition awaitedOf (c : control) : list awaitedFn :=
  match c with Awaiting f => [f] | _ => [] end.

Definition timerOf (c : control) : option (timerId * timerFn) :=
  match c with
  | Scanning e => Some (timeout e, onTimeout e)
  | Continuing id f => Some (id, f)
  | _ => None
  end.

(** Timer functions that carry a confirmed button onward. *)
Definition continues (f : timerFn) : bool :=
  match f with
  | afterPress _ | afterAnnouncement _ | afterBeep _ _ | delayed _ => true
  | onTimeout _ | stopOscillator => false
  end.

Definition proper (c : control) : Prop :=
  match c with Continuing _ f => continues f = true | _ => True end.

(** The state holds exactly what [c] names, besides oscillator stops. *)
Definition inControl (c : control) (s : state) : Prop :=
  proper c /\
  gazeListeners s = armedOf c /\
  extendedGazeListeners s = waitingOf c /\
  awaited s = awaitedOf c /\
  (forall id d f, timeouts s !! id = Some (d, f) ->
                  f = stopOscillator \/ timerOf c = Some (id, f)) /\
  (forall id f, timerOf c = Some (id, f) -> exists d, timeouts s !! id = Some (d, f)).

(** At most one party holds the control. *)
Definition single (s : state) : Prop := exists c, inControl c s.

(** The same listeners, timers and awaited functions. *)
Definition sameControl (s s' : state) : Prop :=
  gazeListeners s' = gazeListeners s /\
  extendedGazeListeners s' = extendedGazeListeners s /\
  awaited s' = awaited s /\
  timeouts s' = timeouts s.

(** [c] registers, arms and clears nothing. *)
Definition quietly {A} (c : M A) : Prop := forall s, sameControl s (c s).2.

(** Run when nobody holds the control, [c] leaves it to at most one party. *)
Definition settles {A} (c : M A) : Prop :=
  forall s, inControl Halted s -> single (c s).2.

(** *** A page with every kind of control, for examples *)

Definition controlMain : menu :=
  mkMenu branchMenu
         [startButton; menuSelectorButton "compose1" true;
          menuSelectorButton "nowhere" false; requestButton]
         None (Some {[ "compose1" := 1 ]}).

Definition controlLeaf : menu :=
  mkMenu makeLeafMenu [letterButton; returnButton 1; returnButton 0] (Some 0) None.

Definition controlPage : config := {[ 0 := controlMain; 1 := controlLeaf ]}.

(** Only the start button waits, as after the setup. *)
Definition waiting : state := mkState [] [(0, 0)] ∅ 1 [] 1000 [].

End Wedjat.

(** ** The email menu of [menu.js] *)

Module EmailMenu.


(** An email button of [menu-button.js]: the value of its element and
    [my.address], which is [null] until a recipient is set. *)
Record emailButton : Type := mkEmailButton {
  buttonValue : string;
  address : option string
}.









End EmailMenu.

(** * Properties of the detector *)

Section DetectorDistance.
Import Detector.

Lemma checkDimensions_match (img1 img2 : ImageData) :
  width img1 = width img2 -> height img1 = height img2 ->
  checkDimensions img1 img2 = Ok (width img1, height img1).
Proof.
  intros Hw Hh. unfold checkDimensions.
  rewrite !bool_decide_eq_true_2 by assumption. reflexivity.
Qed.

Lemma checkDimensions_mismatch (img1 img2 : ImageData) :
  width img1 <> width img2 \/ height img1 <> height img2 ->
  checkDimensions img1 img2 = Throw "Image dimensions do not match.".
Proof.
  intros [H | H]; unfold checkDimensions.
  - rewrite (bool_decide_eq_false_2 _ H). reflexivity.
  - rewrite (bool_decide_eq_false_2 _ H). rewrite andb_false_r. reflexivity.
Qed.

Lemma l1Distance_mismatch (img1 img2 : ImageData) :
  width img1 <> width img2 \/ height img1 <> height img2 ->
  l1Distance img1 img2 = Throw "Image dimensions do not match.".
Proof.
  intros H. unfold l1Distance. rewrite (checkDimensions_mismatch _ _ H). reflexivity.
Qed.

(** [l1Distance] either returns a number or throws the one message of
    [checkDimensions]. *)
Lemma l1Distance_cases (img1 img2 : ImageData) :
  (exists d, l1Distance img1 img2 = Ok d) \/
  l1Distance img1 img2 = Throw "Image dimensions do not match.".
Proof.
  unfold l1Distance, checkDimensions.
  destruct (bool_decide _ && bool_decide _); simpl; eauto.
Qed.

Lemma index_app_r (p t : list Z) (j : nat) :
  index (p ++ t) (length p + j) = index t j.
Proof.
  unfold index. rewrite lookup_app_r by lia.
  replace (length p + j - length p) with j by lia. reflexivity.
Qed.

Lemma mod4_offset (k j : nat) : j < 4 -> (4 * k + j) mod 4 = j.
Proof.
  intros Hj. rewrite Nat.add_comm, Nat.mul_comm, Nat.Div0.mod_add.
  apply Nat.mod_small. exact Hj.
Qed.

Lemma l1Loop_skip (x1 x2 : list Z) (n i : nat) (d : num) :
  i mod 4 = 3 -> l1Loop x1 x2 (S n) i d = l1Loop x1 x2 n (S i) d.
Proof.
  intros H. cbn [l1Loop]. rewrite bool_decide_eq_true_2 by exact H.
  rewrite Nat.add_1_r. reflexivity.
Qed.

Lemma l1Loop_add (x1 x2 : list Z) (n i : nat) (d : num) :
  i mod 4 <> 3 ->
  l1Loop x1 x2 (S n) i d
  = l1Loop x1 x2 n (S i) (num_add d (num_abs (num_sub (index x1 i) (index x2 i)))).
Proof.
  intros H. cbn [l1Loop]. rewrite bool_decide_eq_false_2 by exact H.
  rewrite Nat.add_1_r. reflexivity.
Qed.

(** Four turns of the loop consume one pixel of each image. *)
Lemma l1Loop_pixel (p1 p2 t1 t2 : list Z) (r1 g1 b1 a1 r2 g2 b2 a2 d : Z) (k n : nat) :
  length p1 = 4 * k -> length p2 = 4 * k ->
  l1Loop (p1 ++ r1 :: g1 :: b1 :: a1 :: t1) (p2 ++ r2 :: g2 :: b2 :: a2 :: t2)
         (4 + n) (4 * k) (Num d)
  = l1Loop (p1 ++ r1 :: g1 :: b1 :: a1 :: t1) (p2 ++ r2 :: g2 :: b2 :: a2 :: t2)
         n (4 * (S k))
         (Num (d + channelDifference (mkPixel r1 g1 b1 a1) (mkPixel r2 g2 b2 a2))).
Proof.
  intros H1 H2.
  set (x1 := p1 ++ r1 :: g1 :: b1 :: a1 :: t1).
  set (x2 := p2 ++ r2 :: g2 :: b2 :: a2 :: t2).
  assert (Hix : forall j, index x1 (4 * k + j) = index (r1 :: g1 :: b1 :: a1 :: t1) j).
  { intros j. rewrite <- H1. apply index_app_r. }
  assert (Hiy : forall j, index x2 (4 * k + j) = index (r2 :: g2 :: b2 :: a2 :: t2) j).
  { intros j. rewrite <- H2. apply index_app_r. }
  change (4 + n) with (S (S (S (S n)))).
  replace (4 * k) with (4 * k + 0) at 1 by lia.
  rewrite l1Loop_add by (rewrite mod4_offset; lia).
  rewrite Hix, Hiy.
  replace (S (4 * k + 0)) with (4 * k + 1) by lia.
  rewrite l1Loop_add by (rewrite mod4_offset; lia).
  rewrite Hix, Hiy.
  replace (S (4 * k + 1)) with (4 * k + 2) by lia.
  rewrite l1Loop_add by (rewrite mod4_offset; lia).
  rewrite Hix, Hiy.
  replace (S (4 * k + 2)) with (4 * k + 3) by lia.
  rewrite l1Loop_skip by (rewrite mod4_offset; lia).
  replace (S (4 * k + 3)) with (4 * S k) by lia.
  unfold index, channelDifference. simpl.
  do 2 f_equal. lia.
Qed.

Lemma l1Loop_sum (m : nat) :
  forall (t1 t2 p1 p2 : list Z) (d : Z) (k : nat),
    length p1 = 4 * k -> length p2 = 4 * k ->
    length t1 = 4 * m -> length t2 = 4 * m ->
    l1Loop (p1 ++ t1) (p2 ++ t2) (4 * m) (4 * k) (Num d)
    = Num (d + sumZ (zip_with channelDifference (pixels t1) (pixels t2))).
Proof.
  induction m as [| m IH]; intros t1 t2 p1 p2 d k Hp1 Hp2 Ht1 Ht2.
  - destruct t1; [| discriminate]. destruct t2; [| discriminate].
    simpl. f_equal. lia.
  - destruct t1 as [| r1 [| g1 [| b1 [| a1 t1]]]]; try (simpl in Ht1; lia).
    destruct t2 as [| r2 [| g2 [| b2 [| a2 t2]]]]; try (simpl in Ht2; lia).
    replace (4 * S m) with (4 + 4 * m) by lia.
    rewrite (l1Loop_pixel p1 p2 t1 t2) by assumption.
    replace (p1 ++ r1 :: g1 :: b1 :: a1 :: t1)
      with ((p1 ++ [r1; g1; b1; a1]) ++ t1) by (rewrite <- app_assoc; reflexivity).
    replace (p2 ++ r2 :: g2 :: b2 :: a2 :: t2)
      with ((p2 ++ [r2; g2; b2; a2]) ++ t2) by (rewrite <- app_assoc; reflexivity).
    rewrite IH.
    + cbn [pixels zip_with sumZ]. f_equal. lia.
    + rewrite length_app, Hp1. simpl. lia.
    + rewrite length_app, Hp2. simpl. lia.
    + simpl in Ht1. lia.
    + simpl in Ht2. lia.
Qed.

(** On well-formed images of one size the loop computes the distance of the
    specification. *)
Lemma l1Distance_spec (img1 img2 : ImageData) :
  wellFormed img1 -> wellFormed img2 ->
  width img1 = width img2 -> height img1 = height img2 ->
  l1Distance img1 img2 = Ok (Num (spec_distance img1 img2)).
Proof.
  intros W1 W2 Hw Hh. unfold l1Distance.
  rewrite checkDimensions_match by assumption. simpl.
  unfold wellFormed in *. f_equal.
  pose proof (l1Loop_sum (width img1 * height img1) (data img1) (data img2) [] [] 0 0) as H.
  simpl app in H. rewrite Nat.mul_0_r in H at 3.
  replace (width img1 * height img1 * 4) with (4 * (width img1 * height img1)) by lia.
  rewrite H; [reflexivity | reflexivity | reflexivity | lia | lia].
Qed.

(** The distance on small images; a buffer shorter than its size reads
    [undefined] and the sum is [NaN]. *)
Example l1Distance_rgb :
  l1Distance (mkImageData 1 1 [10; 20; 30; 0]%Z) (mkImageData 1 1 [1; 2; 3; 255]%Z)
  = Ok (Num 54).
Proof. reflexivity. Qed.

Example l1Distance_short_buffer :
  l1Distance (mkImageData 1 1 [10]%Z) (mkImageData 1 1 [1; 2; 3; 255]%Z) = Ok NaN.
Proof. reflexivity. Qed.

Example detect_tie_rests :
  detect gaze (mkImageData 1 1 [0; 0; 0; 255]%Z)
         (mkImageData 1 1 [1; 1; 1; 255]%Z) (mkImageData 1 1 [1; 1; 1; 0]%Z)
  = Ok ([gestureEnd], rest).
Proof. reflexivity. Qed.

End DetectorDistance.

Section DetectorTicks.
Import Detector.

Lemma emitted_spec (state newState : GazeState) :
  (if bool_decide (state = rest) && bool_decide (newState = gaze)
   then [gestureBegin] else [])
  ++ (if bool_decide (state = gaze) && bool_decide (newState = rest)
      then [gestureEnd] else [])
  = spec_emission state newState.
Proof. destruct state, newState; reflexivity. Qed.

Lemma detect_unfold (state : GazeState) (f r g : ImageData) :
  detect state f r g =
  match l1Distance f r, l1Distance f g with
  | Ok dRest, Ok dGaze =>
      Ok (spec_emission state (closer dRest dGaze), closer dRest dGaze)
  | Throw msg, _ => Throw msg
  | Ok _, Throw msg => Throw msg
  end.
Proof.
  unfold detect.
  destruct (l1Distance f r) as [dRest | msg]; [| reflexivity].
  destruct (l1Distance f g) as [dGaze | msg]; [| reflexivity].
  cbn. rewrite emitted_spec. reflexivity.
Qed.

Lemma detectTick_classify (state : GazeState) (t : tick) :
  detectTick state t =
  match classify t with
  | Some c => Ok (spec_emission state c, c)
  | None => detectTick rest t
  end.
Proof.
  unfold classify, detectTick. rewrite !detect_unfold.
  destruct (l1Distance (frame t) (restTemplate t)); [| reflexivity].
  destruct (l1Distance (frame t) (gazeTemplate t)); reflexivity.
Qed.

Lemma classify_None_throws (t : tick) :
  classify t = None -> forall state, exists msg, detectTick state t = Throw msg.
Proof.
  unfold classify, detectTick. intros H state. rewrite detect_unfold in *.
  destruct (l1Distance (frame t) (restTemplate t)); [| eauto].
  destruct (l1Distance (frame t) (gazeTemplate t)); [discriminate | eauto].
Qed.

Lemma classes_cons (t : tick) (ticks : list tick) :
  classes (t :: ticks)
  = match classify t with
    | Some c => c :: classes ticks
    | None => classes ticks
    end.
Proof. reflexivity. Qed.

Lemma last_cons_default (c state : GazeState) (l : list GazeState) :
  default state (last (c :: l)) = default c (last l).
Proof.
  rewrite last_cons. destruct (last l); reflexivity.
Qed.

Lemma run_classes (ticks : list tick) :
  forall state,
    run state ticks
    = (spec_emissions state (classes ticks), default state (last (classes ticks))).
Proof.
  induction ticks as [| t ticks IH]; intros state; [reflexivity |].
  cbn [run]. rewrite classes_cons, detectTick_classify.
  destruct (classify t) as [c |] eqn:Hc.
  - rewrite IH. cbn [spec_emissions]. rewrite last_cons_default. reflexivity.
  - destruct (classify_None_throws t Hc rest) as [msg Hmsg].
    rewrite Hmsg. apply IH.
Qed.

Lemma occurrences_app (e : Emitted) (l1 l2 : list Emitted) :
  occurrences e (l1 ++ l2) = occurrences e l1 + occurrences e l2.
Proof. unfold occurrences. rewrite filter_app, length_app. reflexivity. Qed.

Lemma begin_count (l : list GazeState) :
  forall previous,
    occurrences gestureBegin (spec_emissions previous l)
    = transitions rest gaze (previous :: l).
Proof.
  induction l as [| c l IH]; intros previous; [reflexivity |].
  cbn [spec_emissions]. rewrite occurrences_app, IH.
  destruct previous, c; reflexivity.
Qed.

Lemma end_count (l : list GazeState) :
  forall previous,
    occurrences gestureEnd (spec_emissions previous l)
    = transitions gaze rest (previous :: l).
Proof.
  induction l as [| c l IH]; intros previous; [reflexivity |].
  cbn [spec_emissions]. rewrite occurrences_app, IH.
  destruct previous, c; reflexivity.
Qed.

(** C2: the detector starts at rest; a tick emits gestureBegin exactly when
    the class goes from rest to gaze, gestureEnd exactly when it goes from
    gaze to rest, and nothing when the class stays; over any sequence of
    ticks the number of each event is the number of such class changes. *)
Theorem detect_emits_once_per_transition (ticks : list tick) :
  initialState = rest /\
  (forall state t,
      detectTick state t =
      match classify t with
      | Some c => Ok (spec_emission state c, c)
      | None => detectTick rest t
      end) /\
  (forall c, spec_emission c c = []) /\
  spec_emission rest gaze = [gestureBegin] /\
  spec_emission gaze rest = [gestureEnd] /\
  fst (run initialState ticks) = spec_emissions initialState (classes ticks) /\
  occurrences gestureBegin (fst (run initialState ticks))
  = transitions rest gaze (initialState :: classes ticks) /\
  occurrences gestureEnd (fst (run initialState ticks))
  = transitions gaze rest (initialState :: classes ticks).
Proof.
  split; [reflexivity |].
  split; [apply detectTick_classify |].
  split; [intros []; reflexivity |].
  split; [reflexivity |].
  split; [reflexivity |].
  rewrite run_classes. cbn [fst].
  split; [reflexivity |].
  split; [apply begin_count | apply end_count].
Qed.

(** C6: images whose widths or heights differ make the distance throw, and
    a tick whose frame differs in size from either template throws instead
    of classifying. *)
Theorem dimension_mismatch_throws (img1 img2 : ImageData) :
  width img1 <> width img2 \/ height img1 <> height img2 ->
  checkDimensions img1 img2 = Throw "Image dimensions do not match." /\
  l1Distance img1 img2 = Throw "Image dimensions do not match." /\
  (forall state other,
      detect state img1 img2 other = Throw "Image dimensions do not match." /\
      detect state img1 other img2 = Throw "Image dimensions do not match.").
Proof.
  intros H.
  split; [apply checkDimensions_mismatch; exact H |].
  split; [apply l1Distance_mismatch; exact H |].
  intros state other. rewrite !detect_unfold.
  rewrite (l1Distance_mismatch _ _ H).
  split; [reflexivity |].
  destruct (l1Distance_cases img1 other) as [[d Hd] | Hd]; rewrite Hd; reflexivity.
Qed.

Lemma dimension_mismatch_throws_witness :
  (width (image1x1 0 0 0) <> width image2x1 \/
   height (image1x1 0 0 0) <> height image2x1) /\
  l1Distance (image1x1 0 0 0) image2x1 = Throw "Image dimensions do not match.".
Proof.
  assert (H : width (image1x1 0 0 0) <> width image2x1 \/
              height (image1x1 0 0 0) <> height image2x1).
  { left. simpl. lia. }
  split; [exact H |].
  exact (proj1 (proj2 (dimension_mismatch_throws (image1x1 0 0 0) image2x1 H))).
Defined.

(** C7: on a frame and two templates of one size, each distance is the sum
    over all pixels of the absolute red, green and blue differences (alpha
    left out), and the tick moves to gaze exactly when the gaze template is
    strictly closer, to rest otherwise, equal distances included. *)
Theorem detect_classifies_by_l1 (state : GazeState) (f restT gazeT : ImageData) :
  wellFormed f -> wellFormed restT -> wellFormed gazeT ->
  width f = width restT -> height f = height restT ->
  width f = width gazeT -> height f = height gazeT ->
  l1Distance f restT = Ok (Num (spec_distance f restT)) /\
  l1Distance f gazeT = Ok (Num (spec_distance f gazeT)) /\
  detect state f restT gazeT
  = Ok (spec_emission state (spec_classify f restT gazeT), spec_classify f restT gazeT) /\
  (spec_classify f restT gazeT = gaze <->
   (spec_distance f gazeT < spec_distance f restT)%Z) /\
  (spec_classify f restT gazeT = rest <->
   (spec_distance f restT <= spec_distance f gazeT)%Z).
Proof.
  intros Wf Wr Wg Hwr Hhr Hwg Hhg.
  pose proof (l1Distance_spec f restT Wf Wr Hwr Hhr) as Hr.
  pose proof (l1Distance_spec f gazeT Wf Wg Hwg Hhg) as Hg.
  split; [exact Hr |]. split; [exact Hg |].
  split.
  - rewrite detect_unfold, Hr, Hg. reflexivity.
  - unfold spec_classify.
    destruct (Z.ltb_spec (spec_distance f gazeT) (spec_distance f restT));
      split; split; intros; try discriminate; try reflexivity; lia.
Qed.

Lemma detect_classifies_by_l1_witness :
  detect rest (image1x1 10 20 30) (image1x1 0 0 0) (image1x1 10 20 25)
  = Ok ([gestureBegin], gaze).
Proof.
  refine (proj1 (proj2 (proj2
    (detect_classifies_by_l1 rest (image1x1 10 20 30) (image1x1 0 0 0) (image1x1 10 20 25)
       _ _ _ _ _ _ _)))); reflexivity.
Defined.

(** C9: when both templates hold the same pixels and have the size of every
    frame, each tick finds the same distance to both, stays at rest, and the
    detector started at rest emits nothing over the whole sequence. *)
Theorem identical_templates_never_emit (frames : list ImageData) (restT gazeT : ImageData) :
  data restT = data gazeT ->
  Forall (fun f => width f = width restT /\ height f = height restT /\
                   width f = width gazeT /\ height f = height gazeT) frames ->
  Forall (fun f => exists d, l1Distance f restT = Ok d /\ l1Distance f gazeT = Ok d /\
                             detect initialState f restT gazeT = Ok ([], rest)) frames /\
  run initialState (map (fun f => mkTick f restT gazeT) frames) = ([], rest).
Proof.
  intros Hdata Hall.
  assert (Htick : Forall (fun f => exists d, l1Distance f restT = Ok d /\
                     l1Distance f gazeT = Ok d /\
                     detect initialState f restT gazeT = Ok ([], rest)) frames).
  { eapply Forall_impl; [exact Hall |].
    intros f (Hwr & Hhr & Hwg & Hhg). cbv beta.
    assert (Hr : l1Distance f restT
                 = Ok (l1Loop (data f) (data restT) (width f * height f * 4) 0 (Num 0))).
    { unfold l1Distance. rewrite checkDimensions_match by assumption. reflexivity. }
    assert (Hg : l1Distance f gazeT
                 = Ok (l1Loop (data f) (data restT) (width f * height f * 4) 0 (Num 0))).
    { unfold l1Distance. rewrite checkDimensions_match by assumption.
      rewrite Hdata. reflexivity. }
    eexists. split; [exact Hr |]. split; [exact Hg |].
    rewrite detect_unfold, Hr, Hg. unfold closer.
    destruct (l1Loop _ _ _ _ _) as [z |]; cbn [num_lt].
    - rewrite Z.ltb_irrefl. reflexivity.
    - reflexivity. }
  split; [exact Htick |].
  unfold initialState in *.
  induction Htick as [| f frames (d & _ & _ & Hd) _ IH]; [reflexivity |].
  cbn [map run]. unfold detectTick. cbn [frame restTemplate gazeTemplate].
  rewrite Hd. inversion Hall; subst. rewrite IH by assumption. reflexivity.
Qed.

Lemma identical_templates_never_emit_witness :
  run initialState
    (map (fun f => mkTick f (image1x1 1 2 3) (image1x1 1 2 3))
         [image1x1 9 9 9; image1x1 1 2 3])
  = ([], rest).
Proof.
  refine (proj2 (identical_templates_never_emit
    [image1x1 9 9 9; image1x1 1 2 3] (image1x1 1 2 3) (image1x1 1 2 3) _ _)).
  - reflexivity.
  - repeat constructor.
Defined.

End DetectorTicks.

Section DetectorPollTimer.
Import Detector.

Lemma initialPoll_invariant (first : nat) : pollInvariant (initialPoll first).
Proof. split; [left; reflexivity | intros h H; discriminate]. Qed.

(** Clearing [my.interval] stops every poll timer. *)
Lemma clearInterval_empties (s : pollState) :
  pollInvariant s -> liveIntervals (clearInterval (interval s) s) = ∅.
Proof.
  intros [[He | (h & p & Hi & Hl)] _].
  - destruct (interval s) as [h |]; cbn; [| exact He].
    rewrite He. apply delete_empty.
  - rewrite Hi. cbn. rewrite Hl. apply delete_singleton_eq.
Qed.

Lemma idleMode_live (s : pollState) :
  pollInvariant s -> liveIntervals (idleMode s) = ∅ /\ pollInvariant (idleMode s).
Proof.
  intros Hinv.
  assert (H : liveIntervals (idleMode s) = ∅).
  { unfold idleMode. apply (clearInterval_empties (setStatus "idle" s)). exact Hinv. }
  split; [exact H |].
  split; [left; exact H |].
  intros h Hh. destruct Hinv as [_ Hlt].
  assert (Hn : nextHandle (idleMode s) = nextHandle s).
  { unfold idleMode. cbn. destruct (interval s); reflexivity. }
  assert (Hi : interval (idleMode s) = interval s).
  { unfold idleMode. cbn. destruct (interval s) eqn:E; cbn; congruence. }
  rewrite Hn. apply Hlt. rewrite <- Hi. exact Hh.
Qed.

(** What [listenMode] and [scanMode] share: stop, then start one timer. *)
Lemma restart_live (st : string) (period : nat) (s : pollState) :
  pollInvariant s ->
  let s1 := clearInterval (interval (setStatus st s)) (setStatus st s) in
  let s2 := assignInterval (fst (setInterval period s1)) (snd (setInterval period s1)) in
  interval s2 = Some (nextHandle s) /\
  liveIntervals s2 = {[nextHandle s := period]} /\
  pollInvariant s2.
Proof.
  intros Hinv s1 s2.
  assert (He : liveIntervals s1 = ∅)
    by (apply (clearInterval_empties (setStatus st s)); exact Hinv).
  assert (Hn : nextHandle s1 = nextHandle s).
  { unfold s1. cbn. destruct (interval s); reflexivity. }
  assert (Hi : interval s2 = Some (nextHandle s)).
  { unfold s2. cbn. rewrite Hn. reflexivity. }
  assert (Hl : liveIntervals s2 = {[nextHandle s := period]}).
  { unfold s2. cbn. rewrite He, Hn. apply insert_empty. }
  split; [exact Hi |]. split; [exact Hl |].
  split.
  - right. exists (nextHandle s), period. split; assumption.
  - intros h Hh. rewrite Hi in Hh. injection Hh as <-.
    unfold s2. cbn. rewrite Hn. lia.
Qed.

Lemma listenMode_live (s : pollState) :
  pollInvariant s ->
  interval (listenMode s) = Some (nextHandle s) /\
  liveIntervals (listenMode s) = {[nextHandle s := 200]} /\
  pollInvariant (listenMode s).
Proof. intros Hinv. exact (restart_live "listening" 200 s Hinv). Qed.

Lemma scanMode_live (s : pollState) :
  pollInvariant s ->
  interval (scanMode s) = Some (nextHandle s) /\
  liveIntervals (scanMode s) = {[nextHandle s := 50]} /\
  pollInvariant (scanMode s).
Proof. intros Hinv. exact (restart_live "scanning" 50 s Hinv). Qed.

Lemma switch_invariant (m : modeSwitch) (s : pollState) :
  pollInvariant s -> pollInvariant (switch m s).
Proof.
  intros Hinv. destruct m; cbn [switch].
  - apply idleMode_live, Hinv.
  - apply listenMode_live, Hinv.
  - apply scanMode_live, Hinv.
Qed.

Lemma switches_invariant (ms : list modeSwitch) :
  forall s, pollInvariant s -> pollInvariant (switches ms s).
Proof.
  induction ms as [| m ms IH]; intros s Hinv; [exact Hinv |].
  apply IH, switch_invariant, Hinv.
Qed.

Lemma invariant_at_most_one (s : pollState) :
  pollInvariant s -> size (liveIntervals s) <= 1.
Proof.
  intros [[He | (h & p & _ & Hl)] _].
  - rewrite He, map_size_empty. lia.
  - rewrite Hl, map_size_singleton. lia.
Qed.

(** C5: after any sequence of mode switches at most one poll timer is live;
    every switch first clears the timer [my.interval] names, which leaves
    none running, then idle starts none and listen and scan start exactly
    one, of period 200 ms and 50 ms. *)
Theorem at_most_one_poll_timer (first : nat) (ms : list modeSwitch) :
  let s := switches ms (initialPoll first) in
  size (liveIntervals s) <= 1 /\
  liveIntervals (clearInterval (interval s) s) = ∅ /\
  liveIntervals (idleMode s) = ∅ /\
  liveIntervals (listenMode s) = {[nextHandle s := 1000 / REFRESH_RATE_LISTEN]} /\
  liveIntervals (scanMode s) = {[nextHandle s := 1000 / REFRESH_RATE_SCAN]}.
Proof.
  intros s.
  assert (Hinv : pollInvariant s)
    by (apply switches_invariant, initialPoll_invariant).
  split; [apply invariant_at_most_one, Hinv |].
  split; [apply clearInterval_empties, Hinv |].
  split; [apply idleMode_live, Hinv |].
  split; [apply listenMode_live, Hinv | apply scanMode_live, Hinv].
Qed.

End DetectorPollTimer.

(** * Properties of the guess menus *)

Section GuessMenus.
Import Guess.

Example split_words : split " " "a b" = ["a"; "b"].
Proof. reflexivity. Qed.

Example split_trailing_space : split " " "a " = ["a"; ""].
Proof. reflexivity. Qed.

Example split_empty : split " " "" = [""].
Proof. reflexivity. Qed.

Example monolithic_success_pads :
  Monolithic.success
    [mkSearchResult "wor" 5; mkSearchResult "work" 3; mkSearchResult "world" 2]
  = ["work"; "world"; ""; ""; ""; ""; ""].
Proof. reflexivity. Qed.

Lemma split_not_nil (sep : ascii) (s : string) : split sep s <> [].
Proof.
  destruct s as [| c s]; cbn [split]; [discriminate |].
  destruct (Ascii.eqb c sep); [discriminate |].
  destruct (split sep s); discriminate.
Qed.

Lemma split_singleton (sep : ascii) (s : string) :
  forall p, split sep s = [p] -> p = s.
Proof.
  induction s as [| c s IH]; intros p H; cbn [split] in H.
  - congruence.
  - destruct (Ascii.eqb c sep).
    + pose proof (split_not_nil sep s). destruct (split sep s); congruence.
    + destruct (split sep s) as [| piece pieces] eqn:E;
        [exfalso; eapply split_not_nil; exact E |].
      injection H as <- ->. f_equal. apply IH. reflexivity.
Qed.

Lemma endsWith_cons (sep c : ascii) (s : string) :
  endsWith sep (String.String c s) <-> (c = sep /\ s = String.EmptyString) \/ endsWith sep s.
Proof.
  unfold endsWith. split.
  - intros [[| c' s'] H]; cbn in H.
    + injection H as -> ->. left. split; reflexivity.
    + injection H as -> ->. right. exists s'. reflexivity.
  - intros [[-> ->] | [s' ->]].
    + exists String.EmptyString. reflexivity.
    + exists (String.String c s'). reflexivity.
Qed.



Lemma append_assoc (a b c : string) : (a +:+ b) +:+ c = a +:+ (b +:+ c).
Proof.
  induction a as [| x a IH]; [reflexivity |].
  change (String.String x ((a +:+ b) +:+ c) = String.String x (a +:+ (b +:+ c))).
  rewrite IH. reflexivity.
Qed.



(** C8: the two guess menus are not equivalent. On every buffer text their
    [guessWord] differ: where they query, the modular one asks for the word
    followed by a star, case-insensitively, with a limit of 8, the
    monolithic one for the bare word, case-sensitively, with a limit of 7;
    where they call back at once, they offer 8 and 7 empty guesses. *)
Theorem guess_menus_differ (inputText : string) :
  Monolithic.guessWord inputText <> Modular.guessWord inputText /\
  match Monolithic.guessWord inputText, Modular.guessWord inputText with
  | Query old, Query new =>
      lastToken inputText <> Some "" /\
      url new = url old +:+ "*" /\
      caseSensitive old = true /\ caseSensitive new = false /\
      limit old = 7 /\ limit new = 8
  | Callback old, Callback new =>
      lastToken inputText = Some "" /\ length old = 7 /\ length new = 8
  | _, _ => False
  end.
Proof.
  unfold Monolithic.guessWord, Modular.guessWord.
  destruct (bool_decide (lastToken inputText = Some "")) eqn:E.
  - apply bool_decide_eq_true_1 in E.
    split; [discriminate |]. split; [exact E |]. split; reflexivity.
  - apply bool_decide_eq_false_1 in E.
    split; [intros H; injection H; discriminate |].
    split; [exact E |].
    split; [| repeat split].
    unfold Monolithic.wordnik, Modular.wordnik. cbn [url].
    symmetry. apply append_assoc.
Qed.

End GuessMenus.

(** * Properties of the scanning program *)

Import Wedjat.

Section ScanBlocks.
Variable cfg : config.

(** Sequencing in [M], by the result of the first part. *)
Lemma bind_Ok {A B} (m : M A) (k : A -> M B) (s s' : state) (a : A) :
  m s = (Ok a, s') -> (m ≫= k) s = k a s'.
Proof. intros H. unfold mbind, M_bind. rewrite H. reflexivity. Qed.


Lemma buttonScan_run (b : buttonRef) (cbpassed cbpressed : callback) (s : state) :
  buttonScan b cbpassed cbpressed s = (Ok tt, armedState b cbpassed cbpressed s).
Proof. reflexivity. Qed.

Lemma menuOf_Some (m : menuId) (mo : menu) (s : state) :
  cfg !! m = Some mo -> menuOf cfg (Some m) s = (Ok (m, mo), s).
Proof. intros H. unfold menuOf. rewrite H. reflexivity. Qed.

Lemma buttonAt_Some (mo : menu) (ix : nat) (ty : buttonType) (s : state) :
  buttons mo !! ix = Some ty -> buttonAt mo ix s = (Ok ty, s).
Proof. intros H. unfold buttonAt. rewrite H. reflexivity. Qed.

Lemma scanAt_leaf (m : menuId) (mo : menu) (loops ix loop : nat) (s : state) :
  cfg !! m = Some mo -> kind mo = leafMenu loops -> ix < nButtons mo ->
  scanAt cfg m ix loop s
  = (Ok tt, armedState (m, ix) (leafCbpassed m mo loops ix loop) (leafPressed m) s).
Proof.
  intros Hm Hk Hix. unfold scanAt.
  rewrite (bind_Ok _ _ _ _ _ (menuOf_Some m mo s Hm)). rewrite Hk.
  unfold leafScanAt.
  destruct (lookup_lt_is_Some_2 (buttons mo) ix Hix) as [ty Hty].
  rewrite (bind_Ok _ _ _ _ _ (buttonAt_Some mo ix ty s Hty)).
  apply buttonScan_run.
Qed.

Lemma scanAt_branch (m : menuId) (mo : menu) (ix loop : nat) (s : state) :
  cfg !! m = Some mo -> kind mo = branchMenu -> ix < nButtons mo ->
  scanAt cfg m ix loop s
  = (Ok tt, armedState (m, ix) (branchPassed m ix) (thatScan m) s).
Proof.
  intros Hm Hk Hix. unfold scanAt.
  rewrite (bind_Ok _ _ _ _ _ (menuOf_Some m mo s Hm)). rewrite Hk.
  unfold branchScanAt.
  destruct (lookup_lt_is_Some_2 (buttons mo) ix Hix) as [ty Hty].
  rewrite (bind_Ok _ _ _ _ _ (buttonAt_Some mo ix ty s Hty)).
  apply buttonScan_run.
Qed.

End ScanBlocks.

Section LeafScan.
Variable cfg : config.
Variables (m : menuId) (mo : menu) (L : nat).
Hypothesis Hm : cfg !! m = Some mo.
Hypothesis Hk : kind mo = leafMenu L.
Hypothesis HN : 0 < nButtons mo.
Hypothesis HL : 0 < L.

Local Abbreviation N := (nButtons mo).

Lemma nextButton_mod (k : nat) : nextButton mo (k mod N) = S k mod N.
Proof.
  unfold nextButton. rewrite Nat.Div0.add_mod_idemp_l.
  f_equal. lia.
Qed.

Lemma isLastButton_mod (k : nat) :
  isLastButton mo (k mod N) = bool_decide (k mod N = N - 1).
Proof.
  unfold isLastButton. apply bool_decide_ext. lia.
Qed.

Lemma nextLoop_div (k : nat) : nextLoop mo (k mod N) (k / N) = S k / N.
Proof.
  unfold nextLoop. rewrite isLastButton_mod.
  pose proof (Nat.div_mod_eq k N) as Hdm.
  pose proof (Nat.mod_upper_bound k N ltac:(lia)) as Hlt.
  case_bool_decide as Hlast.
  - apply (Nat.div_unique (S k) N (k / N + 1) 0); lia.
  - apply (Nat.div_unique (S k) N (k / N) (k mod N + 1)); lia.
Qed.

Lemma not_last_pass (k : nat) :
  S k < L * N ->
  isLastButton mo (k mod N) && isLastLoop L (k / N) = false.
Proof.
  intros Hlt. rewrite isLastButton_mod. unfold isLastLoop.
  pose proof (Nat.div_mod_eq k N) as Hdm.
  apply andb_false_iff.
  destruct (decide (k mod N = N - 1)) as [Hb | Hb];
    [right | left; apply bool_decide_eq_false_2; exact Hb].
  apply bool_decide_eq_false_2. intros Hl.
  assert (k / N = L - 1) by lia. nia.
Qed.

Lemma last_pass :
  (L * N - 1) mod N = N - 1 /\ (L * N - 1) / N = L - 1.
Proof.
  assert (H : L * N - 1 = N * (L - 1) + (N - 1)) by nia.
  split.
  - symmetry. apply (Nat.mod_unique _ N (L - 1) (N - 1)); lia.
  - symmetry. apply (Nat.div_unique _ N (L - 1) (N - 1)); lia.
Qed.

Lemma is_last_pass :
  isLastButton mo ((L * N - 1) mod N) && isLastLoop L ((L * N - 1) / N) = true.
Proof.
  destruct last_pass as [-> ->]. unfold isLastButton, isLastLoop.
  rewrite !bool_decide_eq_true_2 by lia. reflexivity.
Qed.


Lemma passEnv_next (n0 k : nat) :
  S k < L * N -> cbpassed (passEnv m mo L n0 k) = leafNext m (k mod N) (k / N).
Proof.
  intros Hlt. unfold passEnv, leafCbpassed. cbn [cbpassed].
  rewrite (not_last_pass k Hlt). reflexivity.
Qed.

Lemma passEnv_last (n0 : nat) : cbpassed (passEnv m mo L n0 (L * N - 1)) = leafPressed m.
Proof.
  unfold passEnv, leafCbpassed. cbn [cbpassed]. rewrite is_last_pass. reflexivity.
Qed.

Lemma task_Ok (c : M unit) (s s' : state) : c s = (Ok tt, s') -> task c s = s'.
Proof. intros H. unfold task. rewrite H. reflexivity. Qed.

Lemma scan_run (i : menuId) (io : menu) (s : state) :
  cfg !! i = Some io ->
  scan cfg (Some i) s = scanAt cfg i 0 0 (log (SlideDown i) s).2.
Proof.
  intros Hi. unfold scan.
  rewrite (bind_Ok _ _ _ _ _ (menuOf_Some cfg i io s Hi)). reflexivity.
Qed.

Lemma leaf_start (s : state) :
  gazeListeners s = [] -> timeouts s = ∅ ->
  leafArmed m mo L s 0 (task (scan cfg (Some m)) s).
Proof.
  intros Hg Ht. exists [SlideDown m; Toggle (m, 0); Announce (m, 0)].
  split.
  - apply task_Ok. rewrite (scan_run m mo s Hm).
    rewrite (scanAt_leaf cfg m mo L 0 0 _ Hm Hk HN).
    unfold armedState, armedEnv, passEnv. cbn.
    rewrite Hg, Ht, Nat.Div0.mod_0_l, Nat.Div0.div_0_l, Nat.add_0_r, insert_empty.
    rewrite <- !app_assoc. reflexivity.
  - intros H. repeat (apply elem_of_cons in H as [H | H]; [discriminate |]).
    inversion H.
Qed.

Lemma filter_out_only (e : scanEnv) : filter (fun e' => e' <> e) [e] = [].
Proof. rewrite filter_cons, decide_False by (intros H; apply H; reflexivity). reflexivity. Qed.

Lemma leaf_pass (s : state) (k : nat) (st : state) :
  leafArmed m mo L s k st -> S k < L * N ->
  leafArmed m mo L s (S k) (step cfg (Expire (nextTimeout s + k)) st).
Proof.
  intros (j & -> & Hj) Hlt.
  exists (j ++ [Fired (onTimeout (passEnv m mo L (nextTimeout s) k)); Toggle (m, k mod N);
                Toggle (m, S k mod N); Announce (m, S k mod N)]).
  split.
  - unfold step. cbn [timeouts]. rewrite lookup_singleton_eq.
    apply task_Ok.
    cbn [runTimer]. rewrite (passEnv_next _ k Hlt).
    unfold mbind at 1 2 3 4, M_bind. cbn [clearTimeout log toggle removeGazeListener
      gazeListeners extendedGazeListeners timeouts nextTimeout awaited sliderMs journal that].
    unfold call.
    erewrite (bind_Ok (menuOf cfg (Some m))) by (apply menuOf_Some; exact Hm).
    cbn beta iota.
    rewrite nextButton_mod, nextLoop_div.
    rewrite (scanAt_leaf cfg m mo L _ _ _ Hm Hk) by (apply Nat.mod_upper_bound; lia).
    rewrite filter_out_only, delete_singleton_eq.
    unfold armedState, armedEnv.
    cbn [gazeListeners extendedGazeListeners timeouts nextTimeout awaited sliderMs journal].
    rewrite insert_empty, <- !Nat.add_succ_r.
    unfold passEnv at 1. cbn [that app].
    rewrite <- !app_assoc. reflexivity.
  - intros H. apply elem_of_app in H as [H | H]; [exact (Hj H) |].
    repeat (apply elem_of_cons in H as [H | H]; [discriminate |]).
    inversion H.
Qed.

(** The last timeout of the last loop: the leaf disarms, slides up, and its
    parent's [scan] runs. *)
Lemma leaf_last (s : state) (st : state) :
  leafArmed m mo L s (L * N - 1) st ->
  step cfg (Expire (nextTimeout s + (L * N - 1))) st
  = task (scan cfg (parent mo))
      (mkState [] (extendedGazeListeners s) ∅ (S (nextTimeout s + (L * N - 1)))
               (awaited s) (sliderMs s)
               (journal st ++ [Fired (onTimeout (passEnv m mo L (nextTimeout s) (L * N - 1)));
                               Toggle (m, N - 1); SlideUp m])).
Proof.
  intros (j & -> & Hj).
  unfold step. cbn [timeouts]. rewrite lookup_singleton_eq.
  unfold task at 1.
  cbn [runTimer]. rewrite passEnv_last.
  unfold mbind at 1 2 3 4, M_bind. cbn [clearTimeout log toggle removeGazeListener
    gazeListeners extendedGazeListeners timeouts nextTimeout awaited sliderMs journal that].
  unfold call.
  erewrite (bind_Ok (menuOf cfg (Some m))) by (apply menuOf_Some; exact Hm).
  cbn beta iota.
  unfold mbind at 1, M_bind. cbn [slideUp log gazeListeners extendedGazeListeners
    timeouts nextTimeout awaited sliderMs journal].
  rewrite filter_out_only, delete_singleton_eq.
  replace (that (passEnv m mo L (nextTimeout s) (L * N - 1))) with (m, N - 1)
    by (unfold passEnv; cbn [that]; destruct last_pass as [-> _]; reflexivity).
  rewrite <- !app_assoc. reflexivity.
Qed.

End LeafScan.

Section UnattendedLeaf.

Lemma steps_snoc (cfg : config) (evs : list event) (ev : event) (s : state) :
  steps cfg (evs ++ [ev]) s = step cfg ev (steps cfg evs s).
Proof. unfold steps. rewrite foldl_app. reflexivity. Qed.

Lemma unattended_S (cfg : config) (m : menuId) (s : state) (k : nat) :
  unattended cfg m s (S k)
  = step cfg (Expire (nextTimeout s + k)) (unattended cfg m s k).
Proof.
  unfold unattended. rewrite seq_S, map_app. cbn [map]. apply steps_snoc.
Qed.

Lemma unattended_leafArmed (cfg : config) (m : menuId) (mo : menu) (L : nat) (s : state) :
  cfg !! m = Some mo -> kind mo = leafMenu L -> 0 < nButtons mo -> 0 < L ->
  gazeListeners s = [] -> timeouts s = ∅ ->
  forall k, k < L * nButtons mo -> leafArmed m mo L s k (unattended cfg m s k).
Proof.
  intros Hm Hk HN HL Hg Ht k. induction k as [| k IH]; intros Hlt.
  - apply (leaf_start cfg m mo L Hm Hk HN); assumption.
  - rewrite unattended_S.
    apply (leaf_pass cfg m mo L Hm Hk HN HL); [apply IH; lia | exact Hlt].
Qed.

Lemma scan_arms_first (cfg : config) (p : menuId) (po : menu) (s : state) :
  cfg !! p = Some po -> 0 < nButtons po ->
  exists cb1 cb2,
    scan cfg (Some p) s
    = (Ok tt, armedState (p, 0) cb1 cb2 (log (SlideDown p) s).2).
Proof.
  intros Hp HN. rewrite (scan_run cfg p po s Hp).
  destruct (kind po) as [| loops] eqn:Hk.
  - eexists _, _. apply (scanAt_branch cfg p po 0 0 _ Hp Hk HN).
  - eexists _, _. apply (scanAt_leaf cfg p po loops 0 0 _ Hp Hk HN).
Qed.

Lemma unattended_last (cfg : config) (m : menuId) (mo : menu) (L : nat) (s : state) :
  cfg !! m = Some mo -> kind mo = leafMenu L -> 0 < nButtons mo -> 0 < L ->
  gazeListeners s = [] -> timeouts s = ∅ ->
  exists j,
    (SlideUp m ∉ j) /\
    unattended cfg m s (L * nButtons mo)
    = task (scan cfg (parent mo))
        (mkState [] (extendedGazeListeners s) ∅ (nextTimeout s + L * nButtons mo)
                 (awaited s) (sliderMs s) (journal s ++ j ++ [SlideUp m])).
Proof.
  intros Hm Hk HN HL Hg Ht.
  assert (Hpos : 0 < L * nButtons mo) by nia.
  destruct (unattended_leafArmed cfg m mo L s Hm Hk HN HL Hg Ht
              (L * nButtons mo - 1) ltac:(lia)) as (j & Hst & Hj).
  exists (j ++ [Fired (onTimeout (passEnv m mo L (nextTimeout s) (L * nButtons mo - 1)));
                Toggle (m, nButtons mo - 1)]).
  split.
  - intros H. apply elem_of_app in H as [H | H]; [exact (Hj H) |].
    repeat (apply elem_of_cons in H as [H | H]; [discriminate |]).
    inversion H.
  - replace (unattended cfg m s (L * nButtons mo))
      with (unattended cfg m s (S (L * nButtons mo - 1))) by (f_equal; lia).
    rewrite unattended_S.
    rewrite (leaf_last cfg m mo L Hm HN HL s _ (ex_intro _ j (conj Hst Hj))).
    rewrite Hst. cbn [journal].
    replace (S (nextTimeout s + (L * nButtons mo - 1)))
      with (nextTimeout s + L * nButtons mo) by lia.
    rewrite <- !app_assoc. reflexivity.
Qed.

(** C4: a leaf menu of N buttons and loop limit L whose scan starts at
    index 0 and meets no gaze keeps scanning itself through the first
    L*N - 1 timeouts, button k mod N being armed after k of them, and at
    timeout number L*N it slides up and calls its parent's scan, which arms
    the parent's first button. *)
Theorem leaf_returns_after_all_passes
    (cfg : config) (m : menuId) (mo : menu) (L : nat) (s : state) :
  cfg !! m = Some mo -> kind mo = leafMenu L -> 0 < nButtons mo -> 0 < L ->
  gazeListeners s = [] -> timeouts s = ∅ ->
  (forall k, k < L * nButtons mo ->
     map that (gazeListeners (unattended cfg m s k)) = [(m, k mod nButtons mo)] /\
     dom (timeouts (unattended cfg m s k)) = {[nextTimeout s + k]} /\
     exists j, journal (unattended cfg m s k) = journal s ++ j /\ (SlideUp m ∉ j)) /\
  (exists j,
     (SlideUp m ∉ j) /\
     unattended cfg m s (L * nButtons mo)
     = task (scan cfg (parent mo))
         (mkState [] (extendedGazeListeners s) ∅ (nextTimeout s + L * nButtons mo)
                  (awaited s) (sliderMs s) (journal s ++ j ++ [SlideUp m]))) /\
  (forall p po, parent mo = Some p -> cfg !! p = Some po -> 0 < nButtons po ->
     map that (gazeListeners (unattended cfg m s (L * nButtons mo))) = [(p, 0)]).
Proof.
  intros Hm Hk HN HL Hg Ht.
  pose proof (unattended_leafArmed cfg m mo L s Hm Hk HN HL Hg Ht) as Harmed.
  pose proof (unattended_last cfg m mo L s Hm Hk HN HL Hg Ht) as Hlast.
  split; [| split; [exact Hlast |]].
  - intros k Hlt. destruct (Harmed k Hlt) as (j & Hst & Hj).
    rewrite Hst. cbn [gazeListeners timeouts journal map passEnv that].
    split; [reflexivity |]. split; [apply dom_singleton_L |].
    exists j. split; [reflexivity | exact Hj].
  - intros p po Hp Hpo HNp. destruct Hlast as (j & _ & ->). rewrite Hp.
    destruct (scan_arms_first cfg p po
                (mkState [] (extendedGazeListeners s) ∅ (nextTimeout s + L * nButtons mo)
                   (awaited s) (sliderMs s) (journal s ++ j ++ [SlideUp m])) Hpo HNp)
      as (cb1 & cb2 & Hscan).
    rewrite (task_Ok _ _ _ Hscan). reflexivity.
Qed.

End UnattendedLeaf.

Lemma leaf_returns_after_all_passes_witness :
  map that (gazeListeners (unattended leafPage 1 quiet 5)) = [(1, 2)] /\
  map that (gazeListeners (unattended leafPage 1 quiet 6)) = [(0, 0)].
Proof.
  pose proof (leaf_returns_after_all_passes leafPage 1 composeMenu LEAF_LOOPS quiet
                eq_refl eq_refl ltac:(cbn; lia) ltac:(unfold LEAF_LOOPS; lia)
                eq_refl eq_refl) as (Hscan & _ & Hparent).
  split.
  - exact (proj1 (Hscan 5 ltac:(cbn; lia))).
  - exact (Hparent 0 mainMenu eq_refl eq_refl ltac:(cbn; lia)).
Defined.

Section Frame.
Variable cfg : config.
Variable e : scanEnv.

Lemma untouched_refl (s : state) : untouched e s s.
Proof. constructor; auto. Qed.

Lemma untouched_trans (s1 s2 s3 : state) :
  untouched e s1 s2 -> untouched e s2 s3 -> untouched e s1 s3.
Proof.
  intros [Hnx Hls Hnew Hdl Htm Hoc Hcf] [Hnx' Hls' Hnew' Hdl' Htm' Hoc' Hcf'].
  constructor.
  - lia.
  - congruence.
  - intros e' H. destruct (Hnew' e' H) as [H' | H']; auto.
  - congruence.
  - eauto.
  - congruence.
  - congruence.
Qed.

Lemma respects_ret {A} (a : A) : respects e (mret a : M A).
Proof. intros s _. apply untouched_refl. Qed.

Lemma respects_bind {A B} (c : M A) (k : A -> M B) :
  respects e c -> (forall a, respects e (k a)) -> respects e (c ≫= k).
Proof.
  intros Hc Hk s Hs. specialize (Hc s Hs).
  unfold mbind, M_bind. destruct (c s) as [[a | msg] s1] eqn:E; cbn in *.
  - eapply untouched_trans; [exact Hc |]. apply Hk.
    pose proof (un_next _ _ _ Hc). lia.
  - exact Hc.
Qed.

Lemma respects_throw {A} (msg : string) : respects e (throw msg : M A).
Proof. intros s _. apply untouched_refl. Qed.

Lemma tally_app (p : effect -> bool) (j1 j2 : list effect) :
  tally p (j1 ++ j2) = tally p j1 + tally p j2.
Proof. induction j1 as [| x j1 IH]; cbn; [reflexivity | rewrite IH; lia]. Qed.

Lemma respects_log (x : effect) :
  isOutcome e x = false -> isConfirmed e x = false -> respects e (log x).
Proof.
  intros H1 H2 s _. constructor; cbn; auto.
  - unfold outcomes. cbn. rewrite tally_app. cbn. rewrite H1. lia.
  - unfold confirmations. cbn. rewrite tally_app. cbn. rewrite H2. lia.
Qed.

Lemma respects_addGazeListener (e' : scanEnv) :
  timeout e < timeout e' -> respects e (addGazeListener e').
Proof.
  intros Hlt s _. constructor; cbn; auto.
  - rewrite filter_app, filter_cons, decide_False, filter_nil, app_nil_r; [reflexivity |].
    intros ->. lia.
  - intros e'' H. apply elem_of_app in H as [H | H]; [left; exact H |].
    apply list_elem_of_singleton in H as ->. right. exact Hlt.
Qed.

Lemma respects_removeGazeListener (e' : scanEnv) :
  e' <> e -> respects e (removeGazeListener e').
Proof.
  intros Hne s _. constructor; cbn; auto.
  - rewrite list_filter_filter. apply list_filter_iff. intros x. split.
    + intros [H _]. exact H.
    + intros ->. split; [reflexivity |]. intros H. apply Hne. symmetry. exact H.
  - intros e'' H. apply list_elem_of_filter in H as [_ H]. left. exact H.
Qed.

Lemma respects_addExtended (b : buttonRef) : respects e (addExtendedGazeListener b).
Proof. intros s _. constructor; cbn; auto. Qed.

Lemma respects_removeExtended (b : buttonRef) : respects e (removeExtendedGazeListener b).
Proof. intros s _. constructor; cbn; auto. Qed.

Lemma respects_setTimeout (f : timerFn) (d : nat) :
  timerEnv f <> Some e -> respects e (setTimeout f d).
Proof.
  intros Hf s Hs. constructor; cbn; auto.
  - apply lookup_insert_ne. lia.
  - intros id d' f' H Hf'. destruct (decide (nextTimeout s = id)) as [<- | Hne].
    + rewrite lookup_insert_eq in H. injection H as <- <-. contradiction.
    + rewrite lookup_insert_ne in H by exact Hne. exact H.
Qed.

Lemma respects_clearTimeout (t : timerId) :
  t <> timeout e -> respects e (clearTimeout t).
Proof.
  intros Hne s _. constructor; cbn; auto.
  - apply lookup_delete_ne. exact Hne.
  - intros id d f H _. apply lookup_delete_Some in H as [_ H]. exact H.
Qed.

Lemma respects_await (f : awaitedFn) : respects e (await f).
Proof. intros s _. constructor; cbn; auto. Qed.

Lemma respects_takeAwaited (k : nat) : respects e (takeAwaited k).
Proof. intros s _. constructor; cbn; auto. Qed.

Lemma respects_setSlider (ms : nat) : respects e (setSlider ms).
Proof. intros s _. constructor; cbn; auto. Qed.

(** Reading the state changes nothing. *)
Lemma respects_read {A} (c : M A) :
  (forall s, (c s).2 = s) -> respects e c.
Proof. intros H s _. rewrite H. apply untouched_refl. Qed.

Lemma respects_getms : respects e getms.
Proof. apply respects_read. reflexivity. Qed.

Lemma respects_menuOf (m : option menuId) : respects e (menuOf cfg m).
Proof.
  apply respects_read. intros s. unfold menuOf.
  destruct m as [i |]; [destruct (cfg !! i) |]; reflexivity.
Qed.

Lemma respects_buttonAt (mo : menu) (ix : nat) : respects e (buttonAt mo ix).
Proof.
  apply respects_read. intros s. unfold buttonAt.
  destruct (buttons mo !! ix); reflexivity.
Qed.

Lemma respects_getReturnMenu (m : option menuId) (depth : Z) :
  respects e (getReturnMenu cfg m depth).
Proof.
  apply respects_read. intros s. unfold getReturnMenu.
  destruct (depth <? 0)%Z; reflexivity.
Qed.

End Frame.

Section FrameProgram.
Variable cfg : config.
Variable e : scanEnv.

Ltac frame :=
  repeat match goal with
    | |- respects _ (mbind _ _) => apply respects_bind; [| intros ?]
    | |- respects _ (mret _) => apply respects_ret
    | |- respects _ (throw _) => apply respects_throw
    | |- respects _ (log _) => apply respects_log; reflexivity
    | |- respects _ getms => apply respects_getms
    | |- respects _ (menuOf _ _) => apply respects_menuOf
    | |- respects _ (buttonAt _ _) => apply respects_buttonAt
    | |- respects _ (getReturnMenu _ _ _) => apply respects_getReturnMenu
    | |- respects _ (await _) => apply respects_await
    | |- respects _ (addExtendedGazeListener _) => apply respects_addExtended
    | |- respects _ (removeExtendedGazeListener _) => apply respects_removeExtended
    | |- respects _ (let '(_, _) := ?p in _) => destruct p
    end.

Lemma respects_buttonScan (b : buttonRef) (p q : callback) :
  respects e (buttonScan b p q).
Proof.
  intros s Hs. rewrite buttonScan_run. cbn [snd].
  unfold armedState, armedEnv. constructor; cbn.
  - lia.
  - rewrite filter_app, filter_cons, decide_False, filter_nil, app_nil_r; [reflexivity |].
    intros <-. cbn in Hs. lia.
  - intros e' H. apply elem_of_app in H as [H | H]; [left; exact H |].
    apply list_elem_of_singleton in H as ->. right. exact Hs.
  - apply lookup_insert_ne. lia.
  - intros id d f H Hf. destruct (decide (nextTimeout s = id)) as [<- | Hne].
    + rewrite lookup_insert_eq in H. injection H as <- <-.
      cbn in Hf. injection Hf as <-. cbn in Hs. lia.
    + rewrite lookup_insert_ne in H by exact Hne. exact H.
  - unfold outcomes. cbn. rewrite !tally_app. cbn. lia.
  - unfold confirmations. cbn. rewrite !tally_app. cbn. lia.
Qed.

Lemma respects_scanAt (m : menuId) (ix loop : nat) : respects e (scanAt cfg m ix loop).
Proof.
  unfold scanAt. apply respects_bind; [apply respects_menuOf |].
  intros [i mo]. destruct (kind mo).
  - unfold branchScanAt. apply respects_bind; [apply respects_buttonAt |].
    intros _. apply respects_buttonScan.
  - unfold leafScanAt. apply respects_bind; [apply respects_buttonAt |].
    intros _. apply respects_buttonScan.
Qed.

Lemma respects_scan (m : option menuId) : respects e (scan cfg m).
Proof.
  unfold scan. apply respects_bind; [apply respects_menuOf |].
  intros [i mo]. unfold slideDown. frame. apply respects_scanAt.
Qed.

Lemma respects_call (cb : callback) : respects e (call cfg cb).
Proof.
  destruct cb; cbn [call].
  - apply respects_scan.
  - apply respects_bind; [apply respects_menuOf |]. intros [i mo]. apply respects_scanAt.
  - apply respects_bind; [apply respects_menuOf |]. intros [i mo].
    unfold slideUp. frame. apply respects_scan.
  - apply respects_bind; [apply respects_menuOf |]. intros [i mo]. apply respects_scanAt.
Qed.

Lemma respects_action (b : buttonRef) (ty : buttonType) (cb : callback) :
  respects e (action cfg b ty cb).
Proof.
  unfold action. apply respects_bind; [apply respects_log; reflexivity |]. intros _.
  destruct ty; unfold toggle, write, slideUp.
  - apply respects_bind; [apply respects_menuOf |]. intros [i mo].
    destruct (children mo) as [ch |]; [| apply respects_throw].
    apply respects_bind; [destruct slide; frame |]. intros _. apply respects_scan.
  - frame.
  - frame; apply respects_setTimeout; discriminate.
  - frame. apply respects_call.
  - frame. apply respects_call.
  - frame. apply respects_call.
  - frame. apply respects_call.
  - frame.
  - frame. apply respects_scan.
  - frame. apply respects_call.
  - frame.
  - frame.
Qed.

Lemma respects_actionOf (b : buttonRef) (cb : callback) : respects e (actionOf cfg b cb).
Proof.
  unfold actionOf. apply respects_bind; [apply respects_menuOf |]. intros [i mo].
  apply respects_bind; [apply respects_buttonAt |]. intros ty. apply respects_action.
Qed.

Lemma respects_start (b : buttonRef) : respects e (start cfg b).
Proof.
  unfold start, toggle. frame. apply respects_scan.
Qed.

Lemma respects_runTimer (f : timerFn) :
  timerEnv f <> Some e -> respects e (runTimer cfg f).
Proof.
  intros Hf. destruct f as [e' | e' | e' | | b cb | cb]; cbn [runTimer];
    unfold toggle, announce.
  - frame; [| apply respects_call].
    apply respects_removeGazeListener. intros ->. apply Hf. reflexivity.
  - frame. apply respects_setTimeout. cbn. exact Hf.
  - frame. apply respects_actionOf.
  - frame.
  - frame.
  - apply respects_call.
Qed.

Lemma respects_runAwaited (f : awaitedFn) : respects e (runAwaited cfg f).
Proof.
  destruct f; cbn [runAwaited]; frame;
    try (apply respects_setTimeout; discriminate).
  apply respects_call.
Qed.

Lemma respects_onPress (e' : scanEnv) :
  timeout e' <> timeout e -> respects e (onPress e').
Proof.
  intros Hne. unfold onPress.
  apply respects_bind; [apply respects_removeGazeListener; congruence |]. intros _.
  apply respects_bind; [apply respects_clearTimeout; exact Hne |]. intros _.
  frame. apply respects_setTimeout. cbn. congruence.
Qed.

End FrameProgram.

Section Phases.
Variable cfg : config.
Variable e : scanEnv.

Lemma keeps_bind {A B} (P : state -> Prop) (c : M A) (k : A -> M B) :
  keeps P c -> (forall a, keeps P (k a)) -> keeps P (c ≫= k).
Proof.
  intros Hc Hk s Hs. specialize (Hc s Hs).
  unfold mbind, M_bind. destruct (c s) as [[a | msg] s1]; cbn in *.
  - apply Hk. exact Hc.
  - exact Hc.
Qed.

Lemma Armed_untouched (c a : nat) (s s' : state) :
  ArmedC e c a s -> untouched e s s' -> ArmedC e c a s'.
Proof.
  intros [(Hn & Hl & Hd & Ht & Hf) [Hc Ha]] [Unx Uls Unew Udl Utm Uoc Ucf].
  split; [| split; congruence].
  split; [lia |]. split; [congruence |]. split; [| split].
  - intros e' He' Heq. destruct (Unew e' He') as [H | H]; [auto | lia].
  - destruct Ht as [d Ht]. exists d. congruence.
  - intros id d f H Hf'. eapply Hf; eauto.
Qed.

Lemma Pressed_untouched (c : nat) (s s' : state) :
  PressedC e c s -> untouched e s s' -> PressedC e c s'.
Proof.
  intros [(Hn & Hl & Ht & Hf) Hc] [Unx Uls Unew Udl Utm Uoc Ucf].
  split; [| congruence].
  split; [lia |]. split; [| split].
  - intros e' He'. destruct (Unew e' He') as [H | H]; [auto | lia].
  - congruence.
  - intros id d H. apply (Hf id d). apply Utm; [exact H | reflexivity].
Qed.

Lemma Passed_untouched (c a : nat) (s s' : state) :
  PassedC e c a s -> untouched e s s' -> PassedC e c a s'.
Proof.
  intros [(Hn & Hl & Ht & Hf) [Hc Ha]] [Unx Uls Unew Udl Utm Uoc Ucf].
  split; [| split; congruence].
  split; [lia |]. split; [| split].
  - intros e' He'. destruct (Unew e' He') as [H | H]; [auto | lia].
  - congruence.
  - intros id d f H Hf'. exact (Hf id d f (Utm id d f H Hf') Hf').
Qed.

Lemma respects_keeps_Armed {A} (c a : nat) (m : M A) :
  respects e m -> keeps (ArmedC e c a) m.
Proof.
  intros Hm s Hs. eapply Armed_untouched; [exact Hs |].
  apply Hm. destruct Hs as [(Hn & _) _]. exact Hn.
Qed.

Lemma respects_keeps_Pressed {A} (c : nat) (m : M A) :
  respects e m -> keeps (PressedC e c) m.
Proof.
  intros Hm s Hs. eapply Pressed_untouched; [exact Hs |].
  apply Hm. destruct Hs as [(Hn & _) _]. exact Hn.
Qed.

Lemma respects_keeps_Passed {A} (c a : nat) (m : M A) :
  respects e m -> keeps (PassedC e c a) m.
Proof.
  intros Hm s Hs. eapply Passed_untouched; [exact Hs |].
  apply Hm. destruct Hs as [(Hn & _) _]. exact Hn.
Qed.

(** A task keeps what its body and the report of an uncaught throw keep. *)
Lemma task_keeps (P : state -> Prop) (m : M unit) (s : state) :
  keeps P m -> (forall msg, keeps P (log (Uncaught msg))) -> P s -> P (task m s).
Proof.
  intros Hm Hlog Hs. unfold task. specialize (Hm s Hs).
  destruct (m s) as [[[] | msg] s1]; cbn in *; [exact Hm |].
  apply (Hlog msg s1 Hm).
Qed.

Lemma respects_uncaught (msg : string) : respects e (log (Uncaught msg)).
Proof. apply respects_log; reflexivity. Qed.

End Phases.

Section Dispatch.
Variable cfg : config.
Variable e : scanEnv.

Lemma timerEnv_other_outcome (f : timerFn) :
  timerEnv f <> Some e -> isOutcome e (Fired f) = false /\ isConfirmed e (Fired f) = false.
Proof.
  intros Hf. destruct f as [e' | e' | e' | | |]; cbn; split; try reflexivity;
    apply bool_decide_eq_false_2; intros ->; apply Hf; reflexivity.
Qed.

Lemma respects_forEach {A} (f : A -> M unit) (l : list A) :
  (forall x, x ∈ l -> respects e (f x)) -> respects e (forEach f l).
Proof.
  induction l as [| x l IH]; intros H; cbn [forEach].
  - apply respects_ret.
  - apply respects_bind; [apply H; left | intros _; apply IH].
    intros y Hy. apply H. right. exact Hy.
Qed.

Lemma respects_hear (e' : scanEnv) :
  timeout e' <> timeout e -> respects e (hear e').
Proof.
  intros Hne. unfold hear. apply respects_bind; [| intros _; apply respects_onPress; exact Hne].
  apply respects_log; cbn; [| reflexivity].
  apply bool_decide_eq_false_2. congruence.
Qed.

Lemma hear_run (e' : scanEnv) (s : state) :
  hear e' s
  = (Ok tt,
     mkState (filter (fun x => x <> e') (gazeListeners s)) (extendedGazeListeners s)
             (<[nextTimeout s := (PRESS_WAIT, afterPress e')]> (delete (timeout e') (timeouts s)))
             (S (nextTimeout s)) (awaited s) (sliderMs s) (journal s ++ [Heard e'])).
Proof. reflexivity. Qed.

Lemma forEach_hear_app (l1 l2 : list scanEnv) (s : state) :
  forEach hear (l1 ++ l2) s = forEach hear l2 (forEach hear l1 s).2.
Proof.
  revert s. induction l1 as [| x l1 IH]; intros s; [reflexivity |].
  cbn [app forEach].
  rewrite (bind_Ok (hear x) _ s _ tt (hear_run x s)).
  rewrite (bind_Ok (hear x) _ s _ tt (hear_run x s)).
  apply IH.
Qed.

Lemma filter_only (l : list scanEnv) :
  filter (fun e' => e' = e) l = [e] ->
  exists l1 l2, l = l1 ++ e :: l2 /\ (e ∉ l1) /\ (e ∉ l2).
Proof.
  induction l as [| x l IH]; intros H; [discriminate |].
  rewrite filter_cons in H. destruct (decide (x = e)) as [-> | Hne].
  - injection H as H. exists [], l. split; [reflexivity |].
    split; [apply not_elem_of_nil |].
    intros Hin. assert (Hin' : e ∈ filter (fun e' => e' = e) l)
      by (apply list_elem_of_filter; split; [reflexivity | exact Hin]).
    rewrite H in Hin'. inversion Hin'.
  - destruct (IH H) as (l1 & l2 & -> & H1 & H2).
    exists (x :: l1), l2. split; [reflexivity |]. split; [| exact H2].
    intros Hin. apply elem_of_cons in Hin as [-> | Hin]; [apply Hne; reflexivity | exact (H1 Hin)].
Qed.

(** A gaze that reaches [onPress] of an armed [e] confirms it. *)
Lemma hear_Armed (c a : nat) (s : state) :
  ArmedC e c a s -> PressedC e (S c) (hear e s).2.
Proof.
  intros [(Hn & Hl & Hd & [d Ht] & Hf) [Hc Ha]]. rewrite hear_run. cbn [snd].
  split.
  - split; [cbn; lia |]. split; [| split]; cbn.
    + intros e' He' Heq. apply list_elem_of_filter in He' as [Hne He'].
      apply Hne. apply Hd; assumption.
    + rewrite lookup_insert_ne by lia. apply lookup_delete_eq.
    + intros id d' H. destruct (decide (nextTimeout s = id)) as [<- | Hne].
      * rewrite lookup_insert_eq in H. discriminate.
      * rewrite lookup_insert_ne in H by exact Hne.
        apply lookup_delete_Some in H as [Hid H].
        apply Hid. symmetry. eapply Hf; [exact H | reflexivity].
  - unfold outcomes in *. cbn. rewrite tally_app. cbn.
    rewrite bool_decide_eq_true_2 by reflexivity. lia.
Qed.

End Dispatch.

Section Steps.
Variable cfg : config.
Variable e : scanEnv.

Lemma emitGaze_hear (s : state) : emitGaze s = forEach hear (gazeListeners s) s.
Proof. reflexivity. Qed.

Lemma forEach_hear_Ok (l : list scanEnv) (s : state) : (forEach hear l s).1 = Ok tt.
Proof.
  revert s. induction l as [| x l IH]; intros s; [reflexivity |].
  cbn [forEach]. rewrite (bind_Ok (hear x) _ s _ tt (hear_run x s)). apply IH.
Qed.

Lemma task_emitGaze (s : state) : task emitGaze s = (forEach hear (gazeListeners s) s).2.
Proof.
  unfold task. rewrite emitGaze_hear.
  pose proof (forEach_hear_Ok (gazeListeners s) s) as H.
  destruct (forEach hear (gazeListeners s) s) as [[[] | msg] s']; cbn in *;
    [reflexivity | discriminate].
Qed.

(** The tasks that never run on behalf of [e]. *)
Lemma respects_extended (l : list buttonRef) :
  respects e (forEach (fun b => log (Started b);; start cfg b) l).
Proof.
  apply respects_forEach. intros b _.
  apply respects_bind; [apply respects_log; reflexivity |].
  intros _. apply respects_start.
Qed.

Lemma respects_expire (id : timerId) (f : timerFn) :
  id <> timeout e -> timerEnv f <> Some e ->
  respects e (clearTimeout id;; log (Fired f);; runTimer cfg f).
Proof.
  intros Hid Hf. destruct (timerEnv_other_outcome e f Hf) as [H1 H2].
  apply respects_bind; [apply respects_clearTimeout; exact Hid |]. intros _.
  apply respects_bind; [apply respects_log; assumption |]. intros _.
  apply respects_runTimer. exact Hf.
Qed.

Lemma respects_complete (k : nat) (f : awaitedFn) :
  respects e (takeAwaited k;; log (Completed f);; runAwaited cfg f).
Proof.
  apply respects_bind; [apply respects_takeAwaited |]. intros _.
  apply respects_bind; [apply respects_log; reflexivity |]. intros _.
  apply respects_runAwaited.
Qed.

(** Once passed, always passed: no event brings [e] back. *)
Lemma step_Passed (ev : event) (c a : nat) (s : state) :
  PassedC e c a s -> PassedC e c a (step cfg ev s).
Proof.
  intros Hs. pose proof Hs as [(Hn & Hl & Ht & Hf) _].
  assert (Hu : forall msg, keeps (PassedC e c a) (log (Uncaught msg)))
    by (intros msg; apply respects_keeps_Passed, respects_uncaught).
  destruct ev as [| | id | k | ms]; cbn [step].
  - rewrite task_emitGaze.
    apply (respects_keeps_Passed e c a (forEach hear (gazeListeners s))); [| exact Hs].
    apply respects_forEach. intros e' He'. apply respects_hear. apply Hl. exact He'.
  - apply task_keeps; [| exact Hu | exact Hs].
    intros s' Hs'. unfold emitExtendedGaze.
    apply (respects_keeps_Passed e c a _ (respects_extended _) s' Hs').
  - destruct (timeouts s !! id) as [[d f] |] eqn:E; [| exact Hs].
    apply task_keeps; [| exact Hu | exact Hs].
    apply respects_keeps_Passed, respects_expire.
    + intros ->. congruence.
    + exact (Hf id d f E).
  - destruct (awaited s !! k) as [f |]; [| exact Hs].
    apply task_keeps; [| exact Hu | exact Hs].
    apply respects_keeps_Passed, respects_complete.
  - apply task_keeps; [| exact Hu | exact Hs].
    apply respects_keeps_Passed, respects_setSlider.
Qed.

(** What a confirmed [e] still does keeps it confirmed. *)
Lemma keeps_Pressed_clearTimeout (c : nat) (id : timerId) :
  keeps (PressedC e c) (clearTimeout id).
Proof.
  intros s [(Hn & Hl & Ht & Hf) Hc]. split; [| exact Hc].
  split; [exact Hn |]. split; [exact Hl |]. split; cbn.
  - destruct (decide (id = timeout e)) as [-> | Hne];
      [apply lookup_delete_eq | rewrite lookup_delete_ne by exact Hne; exact Ht].
  - intros id' d H. apply lookup_delete_Some in H as [_ H]. exact (Hf id' d H).
Qed.

Lemma keeps_Pressed_log (c : nat) (x : effect) :
  isOutcome e x = false -> keeps (PressedC e c) (log x).
Proof.
  intros Hx s [(Hn & Hl & Ht & Hf) Hc]. split.
  - split; [exact Hn |]. split; [exact Hl |]. split; [exact Ht | exact Hf].
  - unfold outcomes in *. cbn. rewrite tally_app. cbn. rewrite Hx. lia.
Qed.

Lemma keeps_Pressed_setTimeout (c : nat) (f : timerFn) (d : nat) :
  f <> onTimeout e -> keeps (PressedC e c) (setTimeout f d).
Proof.
  intros Hne s [(Hn & Hl & Ht & Hf) Hc]. split; [| exact Hc].
  split; [cbn; lia |]. split; [exact Hl |]. split; cbn.
  - rewrite lookup_insert_ne by lia. exact Ht.
  - intros id d' H. destruct (decide (nextTimeout s = id)) as [<- | Hid].
    + rewrite lookup_insert_eq in H. injection H as _ H. exact (Hne H).
    + rewrite lookup_insert_ne in H by exact Hid. exact (Hf id d' H).
Qed.

Lemma keeps_Pressed_expire (c : nat) (id : timerId) (f : timerFn) :
  f <> onTimeout e ->
  keeps (PressedC e c) (clearTimeout id;; log (Fired f);; runTimer cfg f).
Proof.
  intros Hne.
  apply keeps_bind; [apply keeps_Pressed_clearTimeout |]. intros _.
  apply keeps_bind.
  { apply keeps_Pressed_log. destruct f as [e' | | | | |]; cbn; try reflexivity.
    apply bool_decide_eq_false_2. intros ->. apply Hne. reflexivity. }
  intros _.
  destruct (decide (timerEnv f = Some e)) as [Hf | Hf];
    [| apply respects_keeps_Pressed, respects_runTimer; exact Hf].
  destruct f as [e' | e' | e' | | |]; cbn in Hf; try discriminate;
    injection Hf as ->; [contradiction | |]; cbn [runTimer]; unfold announce, toggle.
  - apply keeps_bind; [apply keeps_Pressed_log; reflexivity |]. intros _.
    apply keeps_bind; [apply respects_keeps_Pressed, respects_getms |]. intros ms.
    apply keeps_bind; [apply keeps_Pressed_setTimeout; discriminate |]. intros _.
    apply respects_keeps_Pressed, respects_ret.
  - apply keeps_bind; [apply keeps_Pressed_log; reflexivity |]. intros _.
    apply respects_keeps_Pressed, respects_actionOf.
Qed.

Lemma step_Pressed (ev : event) (c : nat) (s : state) :
  PressedC e c s -> PressedC e c (step cfg ev s).
Proof.
  intros Hs. pose proof Hs as [(Hn & Hl & Ht & Hf) _].
  assert (Hu : forall msg, keeps (PressedC e c) (log (Uncaught msg)))
    by (intros msg; apply respects_keeps_Pressed, respects_uncaught).
  destruct ev as [| | id | k | ms]; cbn [step].
  - rewrite task_emitGaze.
    apply (respects_keeps_Pressed e c (forEach hear (gazeListeners s))); [| exact Hs].
    apply respects_forEach. intros e' He'. apply respects_hear. apply Hl. exact He'.
  - apply task_keeps; [| exact Hu | exact Hs].
    intros s' Hs'. unfold emitExtendedGaze.
    apply (respects_keeps_Pressed e c _ (respects_extended _) s' Hs').
  - destruct (timeouts s !! id) as [[d f] |] eqn:E; [| exact Hs].
    apply task_keeps; [| exact Hu | exact Hs].
    apply keeps_Pressed_expire. intros ->. exact (Hf id d E).
  - destruct (awaited s !! k) as [f |]; [| exact Hs].
    apply task_keeps; [| exact Hu | exact Hs].
    apply respects_keeps_Pressed, respects_complete.
  - apply task_keeps; [| exact Hu | exact Hs].
    apply respects_keeps_Pressed, respects_setSlider.
Qed.

End Steps.

Section Race.
Variable cfg : config.
Variable e : scanEnv.

Lemma task_bind_Ok {A} (c : M A) (k : A -> M unit) (s s1 : state) (a : A) :
  c s = (Ok a, s1) -> task (c ≫= k) s = task (k a) s1.
Proof. intros H. unfold task. rewrite (bind_Ok c k s s1 a H). reflexivity. Qed.

Lemma forEach_hear_one (e' : scanEnv) (s : state) :
  (forEach hear [e'] s).2 = (hear e' s).2.
Proof.
  cbn [forEach]. rewrite (bind_Ok (hear e') _ s _ tt (hear_run e' s)).
  rewrite hear_run. reflexivity.
Qed.

(** Gaze first: the armed [e] is confirmed. *)
Lemma step_Armed_gaze (c a : nat) (s : state) :
  ArmedC e c a s -> PressedC e (S c) (step cfg Gaze s).
Proof.
  intros Hs. pose proof Hs as [(Hn & Hl & Hd & Ht & Hf) _].
  cbn [step]. rewrite task_emitGaze.
  destruct (filter_only e _ Hl) as (l1 & l2 & Heq & H1 & H2).
  assert (Hother : forall e', e' ∈ l1 \/ e' ∈ l2 -> timeout e' <> timeout e).
  { intros e' He' Ht'. assert (e' = e) as ->.
    { apply Hd; [| exact Ht']. rewrite Heq. apply elem_of_app.
      destruct He' as [He' | He']; [left; exact He' | right; right; exact He']. }
    destruct He' as [He' | He']; [exact (H1 He') | exact (H2 He')]. }
  rewrite Heq at 1. rewrite forEach_hear_app.
  change (e :: l2) with ([e] ++ l2). rewrite forEach_hear_app.
  apply (respects_keeps_Pressed e (S c) (forEach hear l2)).
  { apply respects_forEach. intros e' He'. apply respects_hear, Hother. right. exact He'. }
  rewrite forEach_hear_one. apply (hear_Armed e c a).
  apply (respects_keeps_Armed e c a (forEach hear l1)); [| exact Hs].
  apply respects_forEach. intros e' He'. apply respects_hear, Hother. left. exact He'.
Qed.

(** Deadline first: the armed [e] is passed. *)
Lemma step_Armed_expire (c a : nat) (s : state) :
  ArmedC e c a s -> PassedC e (S c) a (step cfg (Expire (timeout e)) s).
Proof.
  intros [(Hn & Hl & Hd & [d Ht] & Hf) [Hc Ha]].
  cbn [step]. rewrite Ht. cbn [runTimer].
  erewrite task_bind_Ok by reflexivity.
  erewrite task_bind_Ok by reflexivity.
  erewrite task_bind_Ok by reflexivity.
  erewrite task_bind_Ok by reflexivity.
  apply task_keeps.
  - apply respects_keeps_Passed, respects_call.
  - intros msg. apply respects_keeps_Passed, respects_uncaught.
  - split; [| split].
    + split; [exact Hn |]. split; [| split]; cbn.
      * intros e' He' Heq. apply list_elem_of_filter in He' as [Hne He'].
        apply Hne. apply Hd; assumption.
      * apply lookup_delete_eq.
      * intros id d' f H Hfe. apply lookup_delete_Some in H as [Hid H].
        apply Hid. symmetry. exact (Hf id d' f H Hfe).
    + unfold outcomes in *. cbn. rewrite !tally_app. cbn.
      rewrite bool_decide_eq_true_2 by reflexivity. lia.
    + unfold confirmations in *. cbn. rewrite !tally_app. cbn. lia.
Qed.

(** Any other event leaves the armed [e] armed. *)
Lemma step_Armed_other (ev : event) (c a : nat) (s : state) :
  ArmedC e c a s -> ev <> Gaze -> ev <> Expire (timeout e) ->
  ArmedC e c a (step cfg ev s).
Proof.
  intros Hs Hg Hx. pose proof Hs as [(Hn & Hl & Hd & Ht & Hf) _].
  assert (Hu : forall msg, keeps (ArmedC e c a) (log (Uncaught msg)))
    by (intros msg; apply respects_keeps_Armed, respects_uncaught).
  destruct ev as [| | id | k | ms]; cbn [step]; [contradiction | | | |].
  - apply task_keeps; [| exact Hu | exact Hs].
    intros s' Hs'. unfold emitExtendedGaze.
    apply (respects_keeps_Armed e c a _ (respects_extended cfg e _) s' Hs').
  - destruct (timeouts s !! id) as [[d f] |] eqn:E; [| exact Hs].
    apply task_keeps; [| exact Hu | exact Hs].
    apply respects_keeps_Armed, respects_expire; [congruence |].
    intros Hfe. apply Hx. f_equal. exact (Hf id d f E Hfe).
  - destruct (awaited s !! k) as [f |]; [| exact Hs].
    apply task_keeps; [| exact Hu | exact Hs].
    apply respects_keeps_Armed, respects_complete.
  - apply task_keeps; [| exact Hu | exact Hs].
    apply respects_keeps_Armed, respects_setSlider.
Qed.

Lemma steps_cons (ev : event) (evs : list event) (s : state) :
  steps cfg (ev :: evs) s = steps cfg evs (step cfg ev s).
Proof. reflexivity. Qed.

Lemma steps_Passed (evs : list event) :
  forall c a s, PassedC e c a s -> PassedC e c a (steps cfg evs s).
Proof.
  induction evs as [| ev evs IH]; intros c a s Hs; [exact Hs |].
  rewrite steps_cons. apply IH, step_Passed, Hs.
Qed.

Lemma steps_Pressed (evs : list event) :
  forall c s, PressedC e c s -> PressedC e c (steps cfg evs s).
Proof.
  induction evs as [| ev evs IH]; intros c s Hs; [exact Hs |].
  rewrite steps_cons. apply IH, step_Pressed, Hs.
Qed.

(** Along any events an armed [e] stays armed until its one outcome, and
    it has had it once its deadline has come. *)
Lemma steps_Armed (evs : list event) :
  forall c a s,
    ArmedC e c a s ->
    (ArmedC e c a (steps cfg evs s) /\ Expire (timeout e) ∉ evs)
    \/ PressedC e (S c) (steps cfg evs s)
    \/ PassedC e (S c) a (steps cfg evs s).
Proof.
  induction evs as [| ev evs IH]; intros c a s Hs.
  - left. split; [exact Hs | apply not_elem_of_nil].
  - rewrite steps_cons.
    assert (Hcases : ev = Gaze \/ ev = Expire (timeout e)
                     \/ (ev <> Gaze /\ ev <> Expire (timeout e))).
    { destruct ev as [| | id | k | ms]; try (right; right; split; discriminate).
      - left. reflexivity.
      - destruct (decide (id = timeout e)) as [-> | Hne];
          [right; left; reflexivity | right; right; split; congruence]. }
    destruct Hcases as [-> | [-> | [Hg Hx]]].
    + right. left. apply steps_Pressed, step_Armed_gaze with a, Hs.
    + right. right. apply steps_Passed, step_Armed_expire, Hs.
    + destruct (IH c a _ (step_Armed_other ev c a s Hs Hg Hx)) as [[H Hnot] | H].
      * left. split; [exact H |]. intros Hin.
        apply elem_of_cons in Hin as [Hin | Hin]; [apply Hx; symmetry; exact Hin | exact (Hnot Hin)].
      * right. exact H.
Qed.

End Race.

Section Actions.
Variable cfg : config.

Lemma actions_app (j1 j2 : list effect) : actions (j1 ++ j2) = actions j1 ++ actions j2.
Proof. unfold actions. apply omap_app. Qed.

Lemma silent_ret {A} (a : A) : silent (mret a : M A).
Proof. intros s. reflexivity. Qed.

Lemma silent_throw {A} (msg : string) : silent (throw msg : M A).
Proof. intros s. reflexivity. Qed.

Lemma silent_bind {A B} (c : M A) (k : A -> M B) :
  silent c -> (forall a, silent (k a)) -> silent (c ≫= k).
Proof.
  intros Hc Hk s. specialize (Hc s).
  unfold mbind, M_bind. destruct (c s) as [[a | msg] s1]; cbn in *.
  - rewrite Hk. exact Hc.
  - exact Hc.
Qed.

Lemma silent_log (x : effect) :
  (forall b, x <> Action b) -> silent (log x).
Proof.
  intros Hx s. cbn. rewrite actions_app. cbn.
  destruct x; try (rewrite app_nil_r; reflexivity). exfalso. eapply Hx. reflexivity.
Qed.

(** What leaves the journal as it is calls no action. *)
Lemma silent_journal {A} (c : M A) :
  (forall s, journal (c s).2 = journal s) -> silent c.
Proof. intros H s. rewrite H. reflexivity. Qed.

Ltac hush_basic :=
  repeat match goal with
    | |- silent (mbind _ _) => apply silent_bind; [| intros ?]
    | |- silent (mret _) => apply silent_ret
    | |- silent (throw _) => apply silent_throw
    | |- silent (log _) => apply silent_log; discriminate
    | |- silent (toggle _) => apply silent_log; discriminate
    | |- silent (announce _) => apply silent_log; discriminate
    | |- silent (slideUp _) => apply silent_log; discriminate
    | |- silent (slideDown _) => apply silent_log; discriminate
    | |- silent (write _) => apply silent_log; discriminate
    | |- silent (let '(_, _) := ?p in _) => destruct p
    | |- silent (menuOf _ ?m) =>
        apply silent_journal; intros ?; unfold menuOf;
        repeat case_match; reflexivity
    | |- silent (buttonAt ?mo ?ix) =>
        apply silent_journal; intros ?; unfold buttonAt; case_match; reflexivity
    | |- silent (getReturnMenu _ _ _) =>
        apply silent_journal; intros ?; unfold getReturnMenu; case_match; reflexivity
    | |- silent _ => apply silent_journal; intros ?; reflexivity
    end.

Lemma silent_buttonScan (b : buttonRef) (p q : callback) : silent (buttonScan b p q).
Proof.
  intros s. rewrite buttonScan_run. cbn. rewrite !actions_app. cbn.
  rewrite !app_nil_r. reflexivity.
Qed.

Lemma silent_scanAt (m : menuId) (ix loop : nat) : silent (scanAt cfg m ix loop).
Proof.
  unfold scanAt. apply silent_bind; [hush_basic |]. intros [i mo].
  destruct (kind mo); [unfold branchScanAt | unfold leafScanAt];
    (apply silent_bind; [hush_basic | intros _; apply silent_buttonScan]).
Qed.

Lemma silent_scan (m : option menuId) : silent (scan cfg m).
Proof.
  unfold scan. apply silent_bind; [hush_basic |]. intros [i mo].
  apply silent_bind; [hush_basic |]. intros _. apply silent_scanAt.
Qed.

Lemma silent_call (cb : callback) : silent (call cfg cb).
Proof.
  destruct cb; cbn [call].
  - apply silent_scan.
  - apply silent_bind; [hush_basic |]. intros [i mo]. apply silent_scanAt.
  - apply silent_bind; [hush_basic |]. intros [i mo].
    apply silent_bind; [hush_basic |]. intros _. apply silent_scan.
  - apply silent_bind; [hush_basic |]. intros [i mo]. apply silent_scanAt.
Qed.

End Actions.

Ltac hush :=
  repeat match goal with
    | |- silent (mbind _ _) => apply silent_bind; [| intros ?]
    | |- silent (mret _) => apply silent_ret
    | |- silent (throw _) => apply silent_throw
    | |- silent (log _) => apply silent_log; discriminate
    | |- silent (toggle _) => apply silent_log; discriminate
    | |- silent (announce _) => apply silent_log; discriminate
    | |- silent (slideUp _) => apply silent_log; discriminate
    | |- silent (slideDown _) => apply silent_log; discriminate
    | |- silent (write _) => apply silent_log; discriminate
    | |- silent (let '(_, _) := ?p in _) => destruct p
    | |- silent (menuOf _ ?m) =>
        apply silent_journal; intros ?; unfold menuOf;
        repeat case_match; reflexivity
    | |- silent (buttonAt ?mo ?ix) =>
        apply silent_journal; intros ?; unfold buttonAt; case_match; reflexivity
    | |- silent (getReturnMenu _ _ _) =>
        apply silent_journal; intros ?; unfold getReturnMenu; case_match; reflexivity
    | |- silent (scan _ _) => apply silent_scan
    | |- silent (call _ _) => apply silent_call
    | |- silent (scanAt _ _ _ _) => apply silent_scanAt
    | |- silent (setTimeout _ _) => apply silent_journal; intros ?; reflexivity
    | |- silent (clearTimeout _) => apply silent_journal; intros ?; reflexivity
    | |- silent (await _) => apply silent_journal; intros ?; reflexivity
    | |- silent (takeAwaited _) => apply silent_journal; intros ?; reflexivity
    | |- silent (setSlider _) => apply silent_journal; intros ?; reflexivity
    | |- silent getms => apply silent_journal; intros ?; reflexivity
    | |- silent (addGazeListener _) => apply silent_journal; intros ?; reflexivity
    | |- silent (removeGazeListener _) => apply silent_journal; intros ?; reflexivity
    | |- silent (addExtendedGazeListener _) => apply silent_journal; intros ?; reflexivity
    | |- silent (removeExtendedGazeListener _) => apply silent_journal; intros ?; reflexivity
    | |- silent (match ?x with _ => _ end) => destruct x
    end.


Section ActionCalls.
Variable cfg : config.

Lemma action_calls (b : buttonRef) (ty : buttonType) (cb : callback) (s : state) :
  actions (journal (action cfg b ty cb s).2) = actions (journal s) ++ [b].
Proof.
  unfold action.
  assert (Hrest : forall k : M unit, silent k ->
            actions (journal ((log (Action b);; k) s).2) = actions (journal s) ++ [b]).
  { intros k Hk. unfold mbind, M_bind. cbn [log]. rewrite Hk. cbn [journal].
    rewrite actions_app. reflexivity. }
  apply Hrest. destruct ty; hush.
Qed.

Lemma actionOf_calls (b : buttonRef) (cb : callback) : callsAtMost b (actionOf cfg b cb).
Proof.
  intros s. unfold actionOf, mbind, M_bind, menuOf, buttonAt.
  destruct (cfg !! b.1) as [mo |]; [| left; reflexivity].
  destruct (buttons mo !! b.2) as [ty |]; [| left; reflexivity].
  right. apply action_calls.
Qed.

Lemma callsAtMost_bind {A B} (b : buttonRef) (c : M A) (k : A -> M B) :
  silent c -> (forall a, callsAtMost b (k a)) -> callsAtMost b (c ≫= k).
Proof.
  intros Hc Hk s. specialize (Hc s).
  unfold mbind, M_bind. destruct (c s) as [[a | msg] s1]; cbn in *.
  - rewrite <- Hc. apply Hk.
  - left. exact Hc.
Qed.

Lemma silent_start (b : buttonRef) : silent (start cfg b).
Proof. unfold start. hush. Qed.

Lemma silent_runAwaited (f : awaitedFn) : silent (runAwaited cfg f).
Proof. destruct f; cbn [runAwaited]; hush. Qed.

Lemma silent_runTimer (f : timerFn) :
  (forall e, f <> afterAnnouncement e) -> silent (runTimer cfg f).
Proof.
  intros Hf. destruct f as [e | e | e | | b cb | cb]; cbn [runTimer]; hush.
  exfalso. eapply Hf. reflexivity.
Qed.

Lemma silent_hear (e : scanEnv) : silent (hear e).
Proof. unfold hear, onPress. hush. Qed.

Lemma silent_forEach {A} (f : A -> M unit) (l : list A) :
  (forall x, silent (f x)) -> silent (forEach f l).
Proof.
  intros Hf. induction l as [| x l IH]; cbn [forEach]; [apply silent_ret |].
  apply silent_bind; [apply Hf | intros _; exact IH].
Qed.

Lemma task_actions (c : M unit) (s : state) :
  actions (journal (task c s)) = actions (journal (c s).2).
Proof.
  unfold task. destruct (c s) as [[[] | msg] s1]; cbn; [reflexivity |].
  rewrite actions_app. cbn. apply app_nil_r.
Qed.

(** An action is called only by [afterAnnouncement] of a call of [scan],
    for the button of that call. *)
Lemma step_actions (ev : event) (s : state) :
  actions (journal (step cfg ev s)) = actions (journal s)
  \/ exists id d e,
       ev = Expire id /\ timeouts s !! id = Some (d, afterAnnouncement e) /\
       actions (journal (step cfg ev s)) = actions (journal s) ++ [that e].
Proof.
  destruct ev as [| | id | k | ms]; cbn [step].
  - left. rewrite task_actions. unfold emitGaze.
    apply (silent_forEach _ _ silent_hear).
  - left. rewrite task_actions. unfold emitExtendedGaze.
    apply (silent_forEach (fun b => log (Started b);; start cfg b)).
    intros b. hush. apply silent_start.
  - destruct (timeouts s !! id) as [[d f] |] eqn:E; [| left; reflexivity].
    rewrite task_actions.
    destruct f as [e | e | e | | b cb | cb];
      try (left; apply (silent_bind (clearTimeout id)); [hush |]; intros _;
           apply silent_bind; [hush |]; intros _;
           apply silent_runTimer; discriminate).
    cbn [runTimer].
    assert (Hc : callsAtMost (that e)
                   (clearTimeout id;; log (Fired (afterAnnouncement e));;
                    toggle (that e);; actionOf cfg (that e) (cbpressed e))).
    { apply callsAtMost_bind; [hush |]. intros _.
      apply callsAtMost_bind; [hush |]. intros _.
      apply callsAtMost_bind; [hush |]. intros _.
      apply actionOf_calls. }
    destruct (Hc s) as [H | H]; [left; exact H |].
    right. exists id, d, e. split; [reflexivity |]. split; [exact E | exact H].
  - destruct (awaited s !! k) as [f |]; [| left; reflexivity].
    left. rewrite task_actions.
    apply (silent_bind (takeAwaited k)); [hush |]. intros _.
    apply silent_bind; [hush |]. intros _. apply silent_runAwaited.
  - left. rewrite task_actions. apply silent_journal. intros ?. reflexivity.
Qed.

End ActionCalls.

Section Freshness.
Variable cfg : config.

Lemma sound_soundFor {A} (e : scanEnv) (c : M A) : sound c -> soundFor e c.
Proof. intros H s Hs _. exact (H s Hs). Qed.

Lemma sound_ret {A} (a : A) : sound (mret a : M A).
Proof. intros s Hs. split; [exact Hs | reflexivity]. Qed.

Lemma sound_throw {A} (msg : string) : sound (throw msg : M A).
Proof. intros s Hs. split; [exact Hs | reflexivity]. Qed.

Lemma sound_bind {A B} (c : M A) (k : A -> M B) :
  sound c -> (forall a, sound (k a)) -> sound (c ≫= k).
Proof.
  intros Hc Hk s Hs. destruct (Hc s Hs) as [Hf Hn].
  unfold mbind, M_bind. destruct (c s) as [[a | msg] s1]; cbn in *.
  - destruct (Hk a s1 Hf) as [Hf' Hn']. split; [exact Hf' | lia].
  - split; [exact Hf | exact Hn].
Qed.

Lemma soundFor_bind {A B} (e : scanEnv) (c : M A) (k : A -> M B) :
  soundFor e c -> (forall a, soundFor e (k a)) -> soundFor e (c ≫= k).
Proof.
  intros Hc Hk s Hs He. destruct (Hc s Hs He) as [Hf Hn].
  unfold mbind, M_bind. destruct (c s) as [[a | msg] s1]; cbn in *.
  - destruct (Hk a s1 Hf ltac:(lia)) as [Hf' Hn']. split; [exact Hf' | lia].
  - split; [exact Hf | exact Hn].
Qed.

(** What keeps listeners, timeouts and the next handle keeps freshness. *)
Lemma sound_same {A} (c : M A) :
  (forall s, gazeListeners (c s).2 = gazeListeners s /\
             timeouts (c s).2 = timeouts s /\
             nextTimeout (c s).2 = nextTimeout s) ->
  sound c.
Proof.
  intros H s [Hl Ht]. destruct (H s) as (Hg & Hto & Hn).
  split; [| lia]. split.
  - intros e' He'. rewrite Hg in He'. rewrite Hn. exact (Hl e' He').
  - intros id d f Hid. rewrite Hto in Hid. rewrite Hn. exact (Ht id d f Hid).
Qed.

Lemma sound_removeGazeListener (e : scanEnv) : sound (removeGazeListener e).
Proof.
  intros s [Hl Ht]. split; [| reflexivity]. split; cbn.
  - intros e' He'. apply list_elem_of_filter in He' as [_ He']. exact (Hl e' He').
  - exact Ht.
Qed.

Lemma sound_clearTimeout (t : timerId) : sound (clearTimeout t).
Proof.
  intros s [Hl Ht]. split; [| reflexivity]. split; cbn.
  - exact Hl.
  - intros id d f Hid. apply lookup_delete_Some in Hid as [_ Hid]. exact (Ht id d f Hid).
Qed.

Lemma fresh_setTimeout (f : timerFn) (d : nat) (s : state) :
  fresh s -> (forall e', timerEnv f = Some e' -> timeout e' <= nextTimeout s) ->
  fresh (setTimeout f d s).2.
Proof.
  intros [Hl Ht] Hf. split; cbn.
  - intros e' He'. specialize (Hl e' He'). lia.
  - intros id d' f' Hid. destruct (decide (nextTimeout s = id)) as [<- | Hne].
    + rewrite lookup_insert_eq in Hid. injection Hid as <- <-.
      split; [lia |]. intros e' He'. specialize (Hf e' He'). lia.
    + rewrite lookup_insert_ne in Hid by exact Hne.
      destruct (Ht id d' f' Hid) as [H1 H2]. split; [lia |].
      intros e' He'. specialize (H2 e' He'). lia.
Qed.

Lemma sound_setTimeout (f : timerFn) (d : nat) :
  timerEnv f = None -> sound (setTimeout f d).
Proof.
  intros Hf s Hs. split; [| cbn; lia].
  apply fresh_setTimeout; [exact Hs |]. intros e' He'. congruence.
Qed.

Lemma soundFor_setTimeout (e : scanEnv) (f : timerFn) (d : nat) :
  timerEnv f = Some e -> soundFor e (setTimeout f d).
Proof.
  intros Hf s Hs He. split; [| cbn; lia].
  apply fresh_setTimeout; [exact Hs |]. intros e' He'.
  rewrite Hf in He'. injection He' as <-. lia.
Qed.

Lemma sound_buttonScan (b : buttonRef) (p q : callback) : sound (buttonScan b p q).
Proof.
  intros s [Hl Ht]. rewrite buttonScan_run. cbn [snd]. split; [| cbn; lia].
  split; cbn.
  - intros e' He'. apply elem_of_app in He' as [He' | He'].
    + specialize (Hl e' He'). lia.
    + apply list_elem_of_singleton in He' as ->. cbn. lia.
  - intros id d f Hid. destruct (decide (nextTimeout s = id)) as [<- | Hne].
    + rewrite lookup_insert_eq in Hid. injection Hid as <- <-.
      split; [lia |]. intros e' He'. cbn in He'. injection He' as <-. cbn. lia.
    + rewrite lookup_insert_ne in Hid by exact Hne.
      destruct (Ht id d f Hid) as [H1 H2]. split; [lia |].
      intros e' He'. specialize (H2 e' He'). lia.
Qed.

Ltac settle :=
  repeat match goal with
    | |- sound (mbind _ _) => apply sound_bind; [| intros ?]
    | |- sound (mret _) => apply sound_ret
    | |- sound (throw _) => apply sound_throw
    | |- sound (let '(_, _) := ?p in _) => destruct p
    | |- sound (buttonScan _ _ _) => apply sound_buttonScan
    | |- sound (removeGazeListener _) => apply sound_removeGazeListener
    | |- sound (clearTimeout _) => apply sound_clearTimeout
    | |- sound (setTimeout _ _) => apply sound_setTimeout; reflexivity
    | |- sound (menuOf _ _) =>
        apply sound_same; intros ?; unfold menuOf; repeat case_match; auto
    | |- sound (buttonAt _ _) =>
        apply sound_same; intros ?; unfold buttonAt; case_match; auto
    | |- sound (getReturnMenu _ _ _) =>
        apply sound_same; intros ?; unfold getReturnMenu; case_match; auto
    | |- sound (log _) => apply sound_same; intros ?; auto
    | |- sound (toggle _) => apply sound_same; intros ?; auto
    | |- sound (announce _) => apply sound_same; intros ?; auto
    | |- sound (slideUp _) => apply sound_same; intros ?; auto
    | |- sound (slideDown _) => apply sound_same; intros ?; auto
    | |- sound (write _) => apply sound_same; intros ?; auto
    | |- sound (await _) => apply sound_same; intros ?; auto
    | |- sound (takeAwaited _) => apply sound_same; intros ?; auto
    | |- sound (setSlider _) => apply sound_same; intros ?; auto
    | |- sound getms => apply sound_same; intros ?; auto
    | |- sound (addExtendedGazeListener _) => apply sound_same; intros ?; auto
    | |- sound (removeExtendedGazeListener _) => apply sound_same; intros ?; auto
    | |- sound (match ?x with _ => _ end) => destruct x
    end.

Lemma sound_scanAt (m : menuId) (ix loop : nat) : sound (scanAt cfg m ix loop).
Proof. unfold scanAt, branchScanAt, leafScanAt. settle. Qed.

Lemma sound_scan (m : option menuId) : sound (scan cfg m).
Proof. unfold scan. settle. apply sound_scanAt. Qed.

Lemma sound_call (cb : callback) : sound (call cfg cb).
Proof.
  destruct cb; cbn [call]; settle;
    first [apply sound_scan | apply sound_scanAt].
Qed.

Lemma sound_action (b : buttonRef) (ty : buttonType) (cb : callback) :
  sound (action cfg b ty cb).
Proof.
  unfold action. destruct ty; settle;
    first [apply sound_scan | apply sound_call].
Qed.

Lemma sound_actionOf (b : buttonRef) (cb : callback) : sound (actionOf cfg b cb).
Proof. unfold actionOf. settle. apply sound_action. Qed.

Lemma sound_start (b : buttonRef) : sound (start cfg b).
Proof. unfold start. settle. apply sound_scan. Qed.

Lemma sound_runAwaited (f : awaitedFn) : sound (runAwaited cfg f).
Proof. destruct f; cbn [runAwaited]; settle. apply sound_call. Qed.

End Freshness.

Section FreshSteps.
Variable cfg : config.

Lemma sound_log (x : effect) : sound (log x).
Proof. apply sound_same. intros ?. auto. Qed.

Lemma soundFor_onPress (e : scanEnv) : soundFor e (onPress e).
Proof.
  unfold onPress.
  apply soundFor_bind; [apply sound_soundFor, sound_removeGazeListener |]. intros _.
  apply soundFor_bind; [apply sound_soundFor, sound_clearTimeout |]. intros _.
  apply soundFor_bind; [apply soundFor_setTimeout; reflexivity |]. intros _.
  apply sound_soundFor, sound_ret.
Qed.

Lemma soundFor_hear (e : scanEnv) : soundFor e (hear e).
Proof.
  unfold hear. apply soundFor_bind; [apply sound_soundFor, sound_log |].
  intros _. apply soundFor_onPress.
Qed.

Lemma soundFor_runTimer (e : scanEnv) (f : timerFn) :
  timerEnv f = Some e -> soundFor e (runTimer cfg f).
Proof.
  intros Hf. destruct f as [e' | e' | e' | | |]; cbn in Hf; try discriminate;
    injection Hf as ->; cbn [runTimer]; unfold toggle, announce.
  - apply sound_soundFor.
    apply sound_bind; [apply sound_log |]. intros _.
    apply sound_bind; [apply sound_removeGazeListener |]. intros _.
    apply sound_call.
  - apply soundFor_bind; [apply sound_soundFor, sound_log |]. intros _.
    apply soundFor_bind; [apply sound_soundFor, sound_same; intros ?; auto |]. intros ms.
    apply soundFor_bind; [apply soundFor_setTimeout; reflexivity |]. intros _.
    apply sound_soundFor, sound_ret.
  - apply sound_soundFor.
    apply sound_bind; [apply sound_log |]. intros _. apply sound_actionOf.
Qed.

Lemma sound_runTimer (f : timerFn) : timerEnv f = None -> sound (runTimer cfg f).
Proof.
  intros Hf. destruct f as [e' | e' | e' | | b cb | cb]; cbn in Hf; try discriminate;
    cbn [runTimer].
  - apply sound_ret.
  - apply sound_bind; [apply sound_log |]. intros _.
    apply sound_same. intros ?. auto.
  - apply sound_call.
Qed.

(** The emitter's round over listeners whose handles were handed out. *)
Lemma fresh_forEach_hear (l : list scanEnv) :
  forall s, fresh s -> (forall e, e ∈ l -> timeout e < nextTimeout s) ->
            fresh (forEach hear l s).2.
Proof.
  induction l as [| e l IH]; intros s Hs Hl; [exact Hs |].
  assert (Hc : forEach hear (e :: l) s = forEach hear l (hear e s).2).
  { cbn [forEach]. rewrite (bind_Ok (hear e) _ s _ tt (hear_run e s)). reflexivity. }
  rewrite Hc.
  destruct (soundFor_hear e s Hs (Hl e ltac:(left))) as [Hf Hn].
  apply IH; [exact Hf |].
  intros e' He'. specialize (Hl e' ltac:(right; exact He')). lia.
Qed.

Lemma fresh_task (c : M unit) (s : state) :
  fresh (c s).2 -> fresh (task c s).
Proof.
  intros H. unfold task. destruct (c s) as [[[] | msg] s1]; cbn in *; [exact H |].
  apply (sound_log (Uncaught msg) s1 H).
Qed.

(** Freshness is an invariant of the event loop. *)
Lemma step_fresh (ev : event) (s : state) : fresh s -> fresh (step cfg ev s).
Proof.
  intros Hs. pose proof Hs as [Hl Ht].
  destruct ev as [| | id | k | ms]; cbn [step].
  - rewrite task_emitGaze. apply fresh_forEach_hear; [exact Hs | exact Hl].
  - apply fresh_task. unfold emitExtendedGaze.
    assert (H : forall l, sound (forEach (fun b => log (Started b);; start cfg b) l)).
    { induction l as [| b l IH]; cbn [forEach]; [apply sound_ret |].
      apply sound_bind; [| intros _; exact IH].
      apply sound_bind; [apply sound_log | intros _; apply sound_start]. }
    apply (H _ s Hs).
  - destruct (timeouts s !! id) as [[d f] |] eqn:E; [| exact Hs].
    apply fresh_task. destruct (Ht id d f E) as [_ Henv].
    destruct (timerEnv f) as [e |] eqn:Hf.
    + apply (soundFor_bind e (clearTimeout id));
        [apply sound_soundFor, sound_clearTimeout | | exact Hs | exact (Henv e eq_refl)].
      intros _. apply soundFor_bind; [apply sound_soundFor, sound_log |].
      intros _. apply soundFor_runTimer. exact Hf.
    + apply (sound_bind (clearTimeout id)); [apply sound_clearTimeout | | exact Hs].
      intros _. apply sound_bind; [apply sound_log |].
      intros _. apply sound_runTimer. exact Hf.
  - destruct (awaited s !! k) as [f |]; [| exact Hs].
    apply fresh_task.
    apply (sound_bind (takeAwaited k)); [apply sound_same; intros ?; auto | | exact Hs].
    intros _. apply sound_bind; [apply sound_log |].
    intros _. apply sound_runAwaited.
  - apply fresh_task. apply (sound_same (setSlider ms)); [intros ?; auto | exact Hs].
Qed.

Lemma steps_fresh (evs : list event) : forall s, fresh s -> fresh (steps cfg evs s).
Proof.
  induction evs as [| ev evs IH]; intros s Hs; [exact Hs |].
  rewrite steps_cons. apply IH, step_fresh, Hs.
Qed.

End FreshSteps.

Lemma filter_none {A} (P : A -> Prop) `{forall x, Decision (P x)} (l : list A) :
  (forall x, x ∈ l -> ~ P x) -> filter P l = [].
Proof.
  induction l as [| x l IH]; intros Hl; [reflexivity |].
  rewrite filter_cons, decide_False by (apply Hl; left).
  apply IH. intros y Hy. apply Hl. right. exact Hy.
Qed.

Lemma filter_all {A} (P : A -> Prop) `{forall x, Decision (P x)} (l : list A) :
  (forall x, x ∈ l -> P x) -> filter P l = l.
Proof.
  induction l as [| x l IH]; intros Hl; [reflexivity |].
  rewrite filter_cons, decide_True by (apply Hl; left).
  f_equal. apply IH. intros y Hy. apply Hl. right. exact Hy.
Qed.

Section RaceTheorem.
Variable cfg : config.

Lemma armedState_Armed (b : buttonRef) (p q : callback) (s : state) :
  fresh s ->
  ArmedC (armedEnv b p q s)
         (outcomes (armedEnv b p q s) s) (confirmations (armedEnv b p q s) s)
         (armedState b p q s).
Proof.
  intros [Hl Ht]. set (e := armedEnv b p q s).
  assert (Hnot : e ∉ gazeListeners s).
  { intros H. apply Hl in H. cbn in H. lia. }
  split; [| split].
  - split; [cbn; lia |]. split; [| split; [| split]]; cbn.
    + rewrite filter_app, filter_cons, decide_True, filter_nil by reflexivity.
      rewrite filter_none; [reflexivity |]. intros x Hx ->. exact (Hnot Hx).
    + intros e' He' Heq. apply elem_of_app in He' as [He' | He'].
      * apply Hl in He'. lia.
      * apply list_elem_of_singleton in He'. exact He'.
    + exists (sliderMs s). apply lookup_insert_eq.
    + intros id d f H Hf. destruct (decide (nextTimeout s = id)) as [<- | Hne]; [reflexivity |].
      rewrite lookup_insert_ne in H by exact Hne.
      destruct (Ht id d f H) as [_ Hlt]. specialize (Hlt e Hf). cbn in Hlt. lia.
  - unfold outcomes. cbn. rewrite !tally_app. cbn. lia.
  - unfold confirmations. cbn. rewrite !tally_app. cbn. lia.
Qed.

Lemma Pressed_not_listening (e : scanEnv) (c : nat) (s : state) :
  PressedC e c s -> (e ∉ gazeListeners s) /\ timeouts s !! timeout e = None.
Proof.
  intros [(_ & Hl & Ht & _) _]. split; [| exact Ht].
  intros H. exact (Hl e H eq_refl).
Qed.

Lemma Passed_not_listening (e : scanEnv) (c a : nat) (s : state) :
  PassedC e c a s -> (e ∉ gazeListeners s) /\ timeouts s !! timeout e = None.
Proof.
  intros [(_ & Hl & Ht & _) _]. split; [| exact Ht].
  intros H. exact (Hl e H eq_refl).
Qed.

Lemma scanAt_arms (m : menuId) (mo : menu) (ix loop : nat) (s : state) :
  cfg !! m = Some mo -> ix < nButtons mo ->
  exists p q, scanAt cfg m ix loop s = (Ok tt, armedState (m, ix) p q s).
Proof.
  intros Hm Hix. destruct (kind mo) as [| loops] eqn:Hk.
  - eexists _, _. apply (scanAt_branch cfg m mo ix loop s Hm Hk Hix).
  - eexists _, _. apply (scanAt_leaf cfg m mo loops ix loop s Hm Hk Hix).
Qed.

(** A callback that goes on to the next button arms it. *)
Lemma call_next_arms (m : menuId) (mo : menu) (ix loop : nat) (cb : callback) (s : state) :
  cfg !! m = Some mo -> 0 < nButtons mo ->
  cb = branchPassed m ix \/ cb = leafNext m ix loop ->
  exists p q, call cfg cb s = (Ok tt, armedState (m, nextButton mo ix) p q s).
Proof.
  intros Hm HN Hcb.
  assert (Hlt : nextButton mo ix < nButtons mo)
    by (apply Nat.mod_upper_bound; lia).
  destruct Hcb as [-> | ->]; cbn [call];
    rewrite (bind_Ok _ _ _ _ _ (menuOf_Some cfg m mo s Hm)); cbn beta iota;
    apply (scanAt_arms m mo _ _ s Hm Hlt).
Qed.

(** When the deadline comes first the scan moves on: the next button of
    the menu is armed in place of this one. *)
Lemma deadline_arms_next (m : menuId) (mo : menu) (ix loop : nat)
    (p q : callback) (s0 : state) :
  fresh s0 -> cfg !! m = Some mo -> 0 < nButtons mo ->
  p = branchPassed m ix \/ p = leafNext m ix loop ->
  map that (gazeListeners
              (step cfg (Expire (nextTimeout s0)) (armedState (m, ix) p q s0)))
  = map that (gazeListeners s0) ++ [(m, nextButton mo ix)].
Proof.
  intros [Hl _] Hm HN Hcb.
  cbn [step armedState timeouts]. rewrite lookup_insert_eq. cbn [runTimer].
  erewrite task_bind_Ok by reflexivity.
  erewrite task_bind_Ok by reflexivity.
  erewrite task_bind_Ok by reflexivity.
  erewrite task_bind_Ok by reflexivity.
  cbn [cbpassed armedEnv].
  match goal with |- context [task _ ?st] =>
    destruct (call_next_arms m mo ix loop p st Hm HN Hcb) as (p' & q' & Hcall) end.
  rewrite (task_Ok _ _ _ Hcall).
  cbn [armedState gazeListeners]. rewrite map_app. cbn [map that armedEnv].
  f_equal. rewrite filter_app, filter_out_only, app_nil_r.
  rewrite filter_all; [reflexivity |].
  intros x Hx ->. apply Hl in Hx. cbn in Hx. lia.
Qed.

(** C1: a call of [scan] of a button registers one gaze listener and one
    deadline. If the gaze comes first, the listener deregisters itself and
    clears the deadline, which then never runs; if the deadline comes
    first, it deregisters the listener, and from then on no gaze reaches
    it, its confirmed path never runs, and every action called later is
    called by the confirmed path of another call of [scan]; the menu's
    next button is armed in its place. Along any events at most one of the
    two outcomes happens, once, and exactly one has happened when the
    deadline has come. The state stays fresh, so the same holds of every
    later call of [scan]. *)
Theorem confirmation_race (s0 : state) (b : buttonRef) (cbpassed cbpressed : callback) :
  fresh s0 ->
  let e := armedEnv b cbpassed cbpressed s0 in
  let s1 := (buttonScan b cbpassed cbpressed s0).2 in
  (e ∈ gazeListeners s1 /\ timeouts s1 !! timeout e = Some (sliderMs s0, onTimeout e)) /\
  (forall evs,
      let s := steps cfg evs (step cfg Gaze s1) in
      (e ∉ gazeListeners s) /\ timeouts s !! timeout e = None /\
      outcomes e s = S (outcomes e s1)) /\
  (forall evs,
      let s := steps cfg evs (step cfg (Expire (timeout e)) s1) in
      (e ∉ gazeListeners s) /\ timeouts s !! timeout e = None /\
      outcomes e s = S (outcomes e s1) /\
      confirmations e s = confirmations e s1) /\
  (forall evs,
      outcomes e (steps cfg evs s1) <= S (outcomes e s1) /\
      (Expire (timeout e) ∈ evs -> outcomes e (steps cfg evs s1) = S (outcomes e s1))) /\
  (forall m mo ix loop,
      b = (m, ix) -> cfg !! m = Some mo -> 0 < nButtons mo ->
      cbpassed = branchPassed m ix \/ cbpassed = leafNext m ix loop ->
      map that (gazeListeners (step cfg (Expire (timeout e)) s1))
      = map that (gazeListeners s0) ++ [(m, nextButton mo ix)]) /\
  (forall evs ev,
      let s := steps cfg evs (step cfg (Expire (timeout e)) s1) in
      actions (journal (step cfg ev s)) = actions (journal s) \/
      exists id d e',
        e' <> e /\ ev = Expire id /\
        timeouts s !! id = Some (d, afterAnnouncement e') /\
        actions (journal (step cfg ev s)) = actions (journal s) ++ [that e']) /\
  (forall evs, fresh (steps cfg evs s1)).
Proof.
  intros Hfresh e s1.
  pose proof (armedState_Armed b cbpassed cbpressed s0 Hfresh) as Harmed.
  change (ArmedC e (outcomes e s0) (confirmations e s0) s1) in Harmed.
  assert (Hc : outcomes e s1 = outcomes e s0) by (destruct Harmed as (_ & H & _); exact H).
  assert (Ha : confirmations e s1 = confirmations e s0)
    by (destruct Harmed as (_ & _ & H); exact H).
  rewrite Hc, Ha.
  split; [| split; [| split; [| split; [| split; [| split]]]]].
  - split.
    + apply elem_of_app. right. left.
    + apply lookup_insert_eq.
  - intros evs s.
    pose proof (steps_Pressed cfg e evs _ _ (step_Armed_gaze cfg e _ _ _ Harmed)) as H.
    destruct (Pressed_not_listening _ _ _ H) as [H1 H2].
    split; [exact H1 |]. split; [exact H2 | apply H].
  - intros evs s.
    pose proof (steps_Passed cfg e evs _ _ _ (step_Armed_expire cfg e _ _ _ Harmed)) as H.
    destruct (Passed_not_listening _ _ _ _ H) as [H1 H2].
    split; [exact H1 |]. split; [exact H2 |]. apply H.
  - intros evs.
    destruct (steps_Armed cfg e evs _ _ _ Harmed) as [[H Hnot] | [H | H]].
    + destruct H as [_ [-> _]]. split; [lia | intros Hin; contradiction].
    + destruct H as [_ ->]. split; [lia | reflexivity].
    + destruct H as [_ [-> _]]. split; [lia | reflexivity].
  - intros m mo ix loop -> Hm HN Hcb.
    apply (deadline_arms_next m mo ix loop cbpassed cbpressed s0 Hfresh Hm HN Hcb).
  - intros evs ev s.
    pose proof (steps_Passed cfg e evs _ _ _ (step_Armed_expire cfg e _ _ _ Harmed))
      as [(_ & _ & _ & Hf) _].
    destruct (step_actions cfg ev s) as [H | (id & d & e' & Hev & E & H)];
      [left; exact H | right].
    exists id, d, e'. split; [| split; [exact Hev | split; [exact E | exact H]]].
    intros ->. exact (Hf id d _ E eq_refl).
  - intros evs. apply steps_fresh.
    exact (proj1 (sound_buttonScan b cbpassed cbpressed s0 Hfresh)).
Qed.

End RaceTheorem.

Lemma fresh_quiet : fresh quiet.
Proof.
  split.
  - intros e' H. inversion H.
  - intros id d f H. cbn in H. rewrite lookup_empty in H. discriminate.
Qed.

Lemma confirmation_race_witness :
  fresh quiet /\
  outcomes (armedEnv (0, 0) (branchPassed 0 0) (thatScan 0) quiet)
           (steps threeLetters [Gaze; Expire 1; Gaze]
                  (buttonScan (0, 0) (branchPassed 0 0) (thatScan 0) quiet).2)
  = 1.
Proof.
  split; [exact fresh_quiet |].
  pose proof (confirmation_race threeLetters quiet (0, 0) (branchPassed 0 0) (thatScan 0)
                fresh_quiet) as H.
  cbv zeta in H. destruct H as (_ & _ & _ & H & _ & _ & _).
  destruct (H [Gaze; Expire 1; Gaze]) as [_ Hone].
  apply Hone. right. left.
Defined.

Section Confirmed.
Variable cfg : config.


(** A gaze when [e] is the only listener. *)
Lemma step_gaze_only (e : scanEnv) (ext : list buttonRef) (to : gmap timerId (nat * timerFn))
    (n : timerId) (aw : list awaitedFn) (ms : nat) (j : list effect) :
  step cfg Gaze (mkState [e] ext to n aw ms j)
  = mkState [] ext (<[n := (PRESS_WAIT, afterPress e)]> (delete (timeout e) to)) (S n)
            aw ms (j ++ [Heard e]).
Proof.
  cbn [step]. rewrite task_emitGaze. cbn [gazeListeners].
  rewrite forEach_hear_one, hear_run. cbn [snd gazeListeners extendedGazeListeners
    timeouts nextTimeout awaited sliderMs journal].
  rewrite filter_out_only. reflexivity.
Qed.

(** The settle delay is over: [afterPress] announces and starts the
    announcement delay. *)
Lemma step_afterPress (e : scanEnv) (id : timerId) (d : nat) (gl : list scanEnv)
    (ext : list buttonRef) (to : gmap timerId (nat * timerFn))
    (n : timerId) (aw : list awaitedFn) (ms : nat) (j : list effect) :
  to !! id = Some (d, afterPress e) ->
  step cfg (Expire id) (mkState gl ext to n aw ms j)
  = mkState gl ext (<[n := (ms, afterAnnouncement e)]> (delete id to)) (S n) aw ms
            (j ++ [Fired (afterPress e); Announce (that e)]).
Proof.
  intros H. cbn [step timeouts]. rewrite H. cbn [runTimer].
  apply task_Ok. unfold mbind, M_bind, mret, M_ret. cbn.
  rewrite <- !app_assoc. reflexivity.
Qed.



End Confirmed.

Section Restart.
Variable cfg : config.


Lemma call_menuCbpressed (m : menuId) (mo : menu) (s : state) :
  cfg !! m = Some mo ->
  call cfg (menuCbpressed m mo) s
  = scan cfg (resumes m mo)
      (mkState (gazeListeners s) (extendedGazeListeners s) (timeouts s) (nextTimeout s)
               (awaited s) (sliderMs s) (journal s ++ leaves m mo)).
Proof.
  intros Hm. unfold menuCbpressed, resumes, leaves. destruct (kind mo); cbn [call].
  - rewrite app_nil_r. destruct s; reflexivity.
  - rewrite (bind_Ok _ _ _ _ _ (menuOf_Some cfg m mo s Hm)). reflexivity.
Qed.


End Restart.



(** * Further properties of the detector *)

Section DetectorMetric.
Import Detector.

Lemma num_abs_sub_comm (a b : num) : num_abs (num_sub a b) = num_abs (num_sub b a).
Proof. destruct a, b; cbn; try reflexivity. f_equal. lia. Qed.

Lemma l1Loop_comm (x1 x2 : list Z) (n : nat) :
  forall i d, l1Loop x1 x2 n i d = l1Loop x2 x1 n i d.
Proof.
  induction n as [| n IH]; intros i d; [reflexivity |].
  cbn [l1Loop]. rewrite num_abs_sub_comm, !IH. reflexivity.
Qed.

(** X1: [l1Distance] does not depend on the order of its two images: both
    orders give the same number, the same [NaN], or throw alike. *)
Theorem l1Distance_symmetric (img1 img2 : ImageData) :
  l1Distance img1 img2 = l1Distance img2 img1.
Proof.
  unfold l1Distance, checkDimensions.
  destruct (decide (width img1 = width img2)) as [Hw | Hw];
    destruct (decide (height img1 = height img2)) as [Hh | Hh].
  - rewrite !bool_decide_eq_true_2 by congruence. cbn.
    rewrite Hw, Hh. f_equal. apply l1Loop_comm.
  - rewrite (bool_decide_eq_false_2 (height img1 = height img2)) by assumption.
    rewrite (bool_decide_eq_false_2 (height img2 = height img1)) by congruence.
    rewrite !andb_false_r. reflexivity.
  - rewrite (bool_decide_eq_false_2 (width img1 = width img2)) by assumption.
    rewrite (bool_decide_eq_false_2 (width img2 = width img1)) by congruence.
    reflexivity.
  - rewrite (bool_decide_eq_false_2 (width img1 = width img2)) by assumption.
    rewrite (bool_decide_eq_false_2 (width img2 = width img1)) by congruence.
    reflexivity.
Qed.

Lemma index_in_range (x : list Z) (i : nat) :
  i < length x -> exists v, x !! i = Some v /\ index x i = Num v.
Proof.
  intros H. destruct (lookup_lt_is_Some_2 x i H) as [v Hv].
  exists v. split; [exact Hv |]. unfold index. rewrite Hv. reflexivity.
Qed.

Lemma l1Loop_zero (x1 x2 : list Z) (n : nat) :
  forall i d,
    i + n <= length x1 -> i + n <= length x2 ->
    exists d', l1Loop x1 x2 n i (Num d) = Num d' /\ (d <= d')%Z /\
      (d' = d <->
       forall j, i <= j < i + n -> j mod 4 <> 3 -> x1 !! j = x2 !! j).
Proof.
  induction n as [| n IH]; intros i d H1 H2.
  - exists d. split; [reflexivity |]. split; [lia |].
    split; [intros _ j Hj; lia | reflexivity].
  - destruct (decide (i mod 4 = 3)) as [Ha | Ha].
    + rewrite l1Loop_skip by exact Ha.
      destruct (IH (S i) d ltac:(lia) ltac:(lia)) as (d' & Hl & Hle & Hiff).
      exists d'. split; [exact Hl |]. split; [exact Hle |].
      rewrite Hiff. split.
      * intros H j Hj Hm. destruct (decide (j = i)) as [-> | Hne]; [contradiction |].
        apply H; [lia | exact Hm].
      * intros H j Hj Hm. apply H; [lia | exact Hm].
    + rewrite l1Loop_add by exact Ha.
      destruct (index_in_range x1 i ltac:(lia)) as (v1 & Hv1 & ->).
      destruct (index_in_range x2 i ltac:(lia)) as (v2 & Hv2 & ->).
      cbn [num_sub num_abs num_add].
      destruct (IH (S i) (d + Z.abs (v1 - v2))%Z ltac:(lia) ltac:(lia))
        as (d' & Hl & Hle & Hiff).
      exists d'. split; [exact Hl |]. split; [lia |].
      split.
      * intros Hd j Hj Hm.
        assert (Hz : Z.abs (v1 - v2) = 0%Z) by lia.
        destruct (decide (j = i)) as [-> | Hne].
        -- rewrite Hv1, Hv2. f_equal. lia.
        -- apply (proj1 Hiff); [lia | lia | exact Hm].
      * intros H.
        assert (Hv : v1 = v2).
        { pose proof (H i ltac:(lia) Ha) as Hi. rewrite Hv1, Hv2 in Hi. congruence. }
        assert (Hd : d' = (d + Z.abs (v1 - v2))%Z).
        { apply (proj2 Hiff). intros j Hj Hm. apply H; [lia | exact Hm]. }
        rewrite Hd, Hv. lia.
Qed.

(** X2: between well-formed images of one size the distance is 0 exactly
    when the red, green and blue bytes agree everywhere; the alpha bytes
    play no part. *)
Theorem l1Distance_zero_iff (img1 img2 : ImageData) :
  wellFormed img1 -> wellFormed img2 -> sameSize img1 img2 ->
  (l1Distance img1 img2 = Ok (Num 0) <-> sameColours img1 img2).
Proof.
  intros W1 W2 [Hw Hh]. unfold l1Distance.
  rewrite checkDimensions_match by assumption. cbn.
  unfold wellFormed in *.
  destruct (l1Loop_zero (data img1) (data img2) (width img1 * height img1 * 4) 0 0%Z
              ltac:(lia) ltac:(rewrite W2, <- Hw, <- Hh; lia)) as (d' & Hl & Hle & Hiff).
  rewrite Hl. unfold sameColours. split.
  - intros H. injection H as ->. intros i Hi Hm. apply (proj1 Hiff); [reflexivity | lia | exact Hm].
  - intros H. do 2 f_equal. apply (proj2 Hiff). intros j Hj Hm. apply H; [lia | exact Hm].
Qed.

Lemma channelDifference_bounds (r1 g1 b1 a1 r2 g2 b2 a2 : Z) :
  (0 <= r1 <= 255 -> 0 <= g1 <= 255 -> 0 <= b1 <= 255 ->
   0 <= r2 <= 255 -> 0 <= g2 <= 255 -> 0 <= b2 <= 255 ->
   0 <= channelDifference (mkPixel r1 g1 b1 a1) (mkPixel r2 g2 b2 a2) <= 765)%Z.
Proof. unfold channelDifference. cbn. lia. Qed.

Lemma spec_sum_bounds (m : nat) :
  forall t1 t2 : list Z,
    length t1 = 4 * m -> length t2 = 4 * m ->
    Forall (fun v => (0 <= v <= 255)%Z) t1 -> Forall (fun v => (0 <= v <= 255)%Z) t2 ->
    (0 <= sumZ (zip_with channelDifference (pixels t1) (pixels t2)) <= 765 * Z.of_nat m)%Z.
Proof.
  induction m as [| m IH]; intros t1 t2 H1 H2 B1 B2.
  - destruct t1; [| discriminate]. cbn. lia.
  - destruct t1 as [| r1 [| g1 [| b1 [| a1 t1]]]]; try (cbn in H1; lia).
    destruct t2 as [| r2 [| g2 [| b2 [| a2 t2]]]]; try (cbn in H2; lia).
    cbn [pixels zip_with sumZ].
    repeat match goal with H : Forall _ (_ :: _) |- _ => apply Forall_cons in H as [? H] end.
    pose proof (IH t1 t2 ltac:(cbn in H1; lia) ltac:(cbn in H2; lia) B1 B2) as Hrec.
    pose proof (channelDifference_bounds r1 g1 b1 a1 r2 g2 b2 a2) as Hc.
    lia.
Qed.

(** X3: between well-formed images of one size whose channels are bytes the
    distance is a number between 0 and 765 for each pixel (three channels
    of at most 255), never [NaN]. *)
Theorem l1Distance_bounds (img1 img2 : ImageData) :
  wellFormed img1 -> wellFormed img2 -> sameSize img1 img2 ->
  byteImage img1 -> byteImage img2 ->
  exists d, l1Distance img1 img2 = Ok (Num d) /\
            (0 <= d <= 765 * Z.of_nat (width img1 * height img1))%Z.
Proof.
  intros W1 W2 [Hw Hh] B1 B2.
  exists (spec_distance img1 img2).
  split; [apply l1Distance_spec; assumption |].
  unfold wellFormed in *.
  apply spec_sum_bounds; try assumption; [lia | rewrite W2, <- Hw, <- Hh; lia].
Qed.

Lemma channelDifference_triangle (p q r : pixel) :
  (channelDifference p r <= channelDifference p q + channelDifference q r)%Z.
Proof. unfold channelDifference. lia. Qed.

Lemma spec_sum_triangle (m : nat) :
  forall t1 t2 t3 : list Z,
    length t1 = 4 * m -> length t2 = 4 * m -> length t3 = 4 * m ->
    (sumZ (zip_with channelDifference (pixels t1) (pixels t3))
     <= sumZ (zip_with channelDifference (pixels t1) (pixels t2))
        + sumZ (zip_with channelDifference (pixels t2) (pixels t3)))%Z.
Proof.
  induction m as [| m IH]; intros t1 t2 t3 H1 H2 H3.
  - destruct t1; [| discriminate]. cbn. destruct t2; [| discriminate]. cbn. lia.
  - destruct t1 as [| r1 [| g1 [| b1 [| a1 t1]]]]; try (cbn in H1; lia).
    destruct t2 as [| r2 [| g2 [| b2 [| a2 t2]]]]; try (cbn in H2; lia).
    destruct t3 as [| r3 [| g3 [| b3 [| a3 t3]]]]; try (cbn in H3; lia).
    cbn [pixels zip_with sumZ].
    pose proof (IH t1 t2 t3 ltac:(cbn in H1; lia) ltac:(cbn in H2; lia) ltac:(cbn in H3; lia)).
    pose proof (channelDifference_triangle (mkPixel r1 g1 b1 a1) (mkPixel r2 g2 b2 a2)
                  (mkPixel r3 g3 b3 a3)).
    lia.
Qed.

(** X4: on well-formed images of one size the distance obeys the triangle
    inequality. *)
Theorem l1Distance_triangle (img1 img2 img3 : ImageData) :
  wellFormed img1 -> wellFormed img2 -> wellFormed img3 ->
  sameSize img1 img2 -> sameSize img2 img3 ->
  exists d12 d23 d13,
    l1Distance img1 img2 = Ok (Num d12) /\
    l1Distance img2 img3 = Ok (Num d23) /\
    l1Distance img1 img3 = Ok (Num d13) /\
    (d13 <= d12 + d23)%Z.
Proof.
  intros W1 W2 W3 [Hw Hh] [Hw' Hh'].
  exists (spec_distance img1 img2), (spec_distance img2 img3), (spec_distance img1 img3).
  split; [apply l1Distance_spec; assumption |].
  split; [apply l1Distance_spec; assumption |].
  split; [apply l1Distance_spec; try assumption; congruence |].
  unfold wellFormed in *.
  apply (spec_sum_triangle (width img1 * height img1)).
  - lia.
  - rewrite W2, <- Hw, <- Hh; lia.
  - rewrite W3, <- Hw', <- Hh', <- Hw, <- Hh; lia.
Qed.

Lemma l1Distance_nonneg (img1 img2 : ImageData) :
  wellFormed img1 -> wellFormed img2 -> sameSize img1 img2 ->
  exists d, l1Distance img1 img2 = Ok (Num d) /\ (0 <= d)%Z /\
            (d = 0%Z <-> sameColours img1 img2).
Proof.
  intros W1 W2 [Hw Hh]. unfold l1Distance.
  rewrite checkDimensions_match by assumption. cbn.
  unfold wellFormed in *.
  destruct (l1Loop_zero (data img1) (data img2) (width img1 * height img1 * 4) 0 0%Z
              ltac:(lia) ltac:(rewrite W2, <- Hw, <- Hh; lia)) as (d' & Hl & Hle & Hiff).
  exists d'. rewrite Hl. split; [reflexivity |]. split; [exact Hle |].
  rewrite Hiff. unfold sameColours. split.
  - intros H i Hi Hm. apply H; [lia | exact Hm].
  - intros H j Hj Hm. apply H; [lia | exact Hm].
Qed.

(** X5: a frame with the colours of the rest template is classified rest
    whatever the gaze template is; a frame with the colours of the gaze
    template is classified gaze as soon as it differs in colour from the
    rest template. *)
Theorem template_frames_classify (state : GazeState) (f restT gazeT : ImageData) :
  wellFormed f -> wellFormed restT -> wellFormed gazeT ->
  sameSize f restT -> sameSize f gazeT ->
  (sameColours f restT -> detect state f restT gazeT = Ok (spec_emission state rest, rest)) /\
  (sameColours f gazeT -> ~ sameColours f restT ->
   detect state f restT gazeT = Ok (spec_emission state gaze, gaze)).
Proof.
  intros Wf Wr Wg Sr Sg.
  destruct (l1Distance_nonneg f restT Wf Wr Sr) as (dr & Hr & Hr0 & Hriff).
  destruct (l1Distance_nonneg f gazeT Wf Wg Sg) as (dg & Hg & Hg0 & Hgiff).
  rewrite detect_unfold, Hr, Hg. unfold closer. cbn [num_lt].
  split.
  - intros H. apply Hriff in H. subst dr.
    destruct (Z.ltb_spec dg 0); [lia | reflexivity].
  - intros H Hn. apply Hgiff in H. subst dg.
    destruct (Z.ltb_spec 0 dr); [reflexivity |].
    exfalso. apply Hn, Hriff. lia.
Qed.

Lemma image1x1_wellFormed (r g b : Z) : wellFormed (image1x1 r g b).
Proof. reflexivity. Qed.

Lemma image1x1_bytes (r g b : Z) :
  (0 <= r <= 255)%Z -> (0 <= g <= 255)%Z -> (0 <= b <= 255)%Z -> byteImage (image1x1 r g b).
Proof.
  intros Hr Hg Hb. unfold byteImage, image1x1. cbn [data].
  repeat (constructor; [cbv beta; lia |]). constructor.
Qed.

Lemma sameColours_1x1 (r g b a a' : Z) :
  sameColours (mkImageData 1 1 [r; g; b; a]) (mkImageData 1 1 [r; g; b; a']).
Proof.
  intros i Hi Hm. cbn in Hi.
  destruct i as [| [| [| [| i]]]].
  - reflexivity.
  - reflexivity.
  - reflexivity.
  - exfalso. apply Hm. reflexivity.
  - lia.
Qed.

Lemma l1Distance_zero_iff_witness :
  l1Distance (image1x1 1 2 3) (mkImageData 1 1 [1; 2; 3; 0]%Z) = Ok (Num 0).
Proof.
  apply (l1Distance_zero_iff (image1x1 1 2 3) (mkImageData 1 1 [1; 2; 3; 0]%Z)).
  - reflexivity.
  - reflexivity.
  - split; reflexivity.
  - apply sameColours_1x1.
Defined.

Lemma l1Distance_bounds_witness :
  exists d, l1Distance (image1x1 10 20 30) (image1x1 0 0 0) = Ok (Num d) /\
            (0 <= d <= 765 * Z.of_nat (1 * 1))%Z.
Proof.
  apply (l1Distance_bounds (image1x1 10 20 30) (image1x1 0 0 0)).
  - reflexivity.
  - reflexivity.
  - split; reflexivity.
  - apply image1x1_bytes; lia.
  - apply image1x1_bytes; lia.
Defined.

Lemma l1Distance_triangle_witness :
  exists d12 d23 d13,
    l1Distance (image1x1 10 20 30) (image1x1 0 0 0) = Ok (Num d12) /\
    l1Distance (image1x1 0 0 0) (image1x1 10 20 25) = Ok (Num d23) /\
    l1Distance (image1x1 10 20 30) (image1x1 10 20 25) = Ok (Num d13) /\
    (d13 <= d12 + d23)%Z.
Proof.
  apply (l1Distance_triangle (image1x1 10 20 30) (image1x1 0 0 0) (image1x1 10 20 25)).
  - reflexivity.
  - reflexivity.
  - reflexivity.
  - split; reflexivity.
  - split; reflexivity.
Defined.

Lemma template_frames_classify_witness :
  detect gaze (mkImageData 1 1 [1; 2; 3; 0]%Z) (image1x1 1 2 3) (image1x1 9 9 9)
  = Ok ([gestureEnd], rest).
Proof.
  refine (proj1 (template_frames_classify gaze (mkImageData 1 1 [1; 2; 3; 0]%Z)
                   (image1x1 1 2 3) (image1x1 9 9 9) _ _ _ _ _) _).
  - reflexivity.
  - reflexivity.
  - reflexivity.
  - split; reflexivity.
  - split; reflexivity.
  - apply sameColours_1x1.
Defined.

End DetectorMetric.

Section DetectorAlternation.
Import Detector.

Lemma spec_emissions_alternate (l : list GazeState) :
  forall state, exists n,
    spec_emissions state l = alternation state n /\
    default state (last l) = Nat.iter n opposite state.
Proof.
  induction l as [| c l IH]; intros state.
  - exists 0. split; reflexivity.
  - cbn [spec_emissions]. rewrite last_cons_default.
    destruct (IH c) as (n & He & Hl).
    destruct (decide (c = state)) as [-> | Hne].
    + exists n. split; [| exact Hl].
      rewrite He. destruct state; reflexivity.
    + exists (S n). assert (Hc : c = opposite state) by (destruct c, state; cbn; congruence).
      split.
      * rewrite He, Hc. destruct state; reflexivity.
      * rewrite Hl, Hc. symmetry. apply Nat.iter_succ_r.
Qed.

(** X6: over any ticks, throwing ones included, the events the detector
    emits alternate: from rest they are begin, end, begin, ...; from gaze
    end, begin, end, ...; and [my.state] has changed sides once per event. *)
Theorem emitted_events_alternate (state : GazeState) (ticks : list tick) :
  exists n,
    fst (run state ticks) = alternation state n /\
    snd (run state ticks) = Nat.iter n opposite state.
Proof.
  rewrite run_classes. apply spec_emissions_alternate.
Qed.

End DetectorAlternation.

Section DetectorStatus.
Import Detector.

Lemma switches_snoc (ms : list modeSwitch) (m : modeSwitch) (s : pollState) :
  switches (ms ++ [m]) s = switch m (switches ms s).
Proof. unfold switches. rewrite foldl_app. reflexivity. Qed.

Lemma status_switch (m : modeSwitch) (s : pollState) :
  status (switch m s) = Some (modeName m).
Proof.
  destruct m; cbn; unfold idleMode, listenMode, scanMode; cbn;
    destruct (interval s); reflexivity.
Qed.

(** X7: after any mode switches the status shown is the one of the last
    switch (idle when there was none), and the poll timer agrees with it:
    none when idle, one of 200 ms when listening, one of 50 ms when
    scanning, named by [my.interval]. *)
Theorem status_names_the_poll_timer (first : nat) (ms : list modeSwitch) :
  let s := switches ms (initialPoll first) in
  let m := default Idle (last ms) in
  status s = Some (modeName m) /\
  match modePeriod m with
  | None => liveIntervals s = ∅
  | Some period =>
      exists h, interval s = Some h /\ liveIntervals s = {[h := period]}
  end.
Proof.
  induction ms as [| m0 ms0 IHms0] using rev_ind; [cbn; split; reflexivity |].
  clear IHms0. cbv zeta. rewrite switches_snoc, last_snoc. cbn [default].
  split; [apply status_switch |].
  pose proof (switches_invariant ms0 _ (initialPoll_invariant first)) as Hinv.
  destruct m0; cbn [modePeriod switch].
  - exact (proj1 (idleMode_live _ Hinv)).
  - destruct (listenMode_live _ Hinv) as (Hi & Hl & _). eexists. split; [exact Hi | exact Hl].
  - destruct (scanMode_live _ Hinv) as (Hi & Hl & _). eexists. split; [exact Hi | exact Hl].
Qed.

End DetectorStatus.

(** * Further properties of the guess menus *)

Section GuessWords.
Import Guess.

Lemma split_no_sep (sep : ascii) (s : string) :
  hasChar sep s = false -> split sep s = [s].
Proof.
  induction s as [| c s IH]; intros H; [reflexivity |].
  cbn [hasChar] in H. apply orb_false_iff in H as [Hc Hs].
  cbn [split]. rewrite Hc, (IH Hs). reflexivity.
Qed.

Lemma last_split_decompose (sep : ascii) (s : string) :
  exists p t,
    last (split sep s) = Some t /\ s = p +:+ t /\ hasChar sep t = false /\
    (p = String.EmptyString \/ endsWith sep p).
Proof.
  induction s as [| c s (p & t & Hlast & Hs & Ht & Hp)].
  - exists String.EmptyString, String.EmptyString. repeat split. left. reflexivity.
  - cbn [split]. destruct (Ascii.eqb_spec c sep) as [-> | Hne].
    + exists (String.String sep p), t.
      pose proof (split_not_nil sep s) as Hnil.
      destruct (split sep s) as [| piece pieces] eqn:E; [congruence |].
      rewrite last_cons_cons.
      split; [exact Hlast |]. split; [rewrite Hs at 1; reflexivity |].
      split; [exact Ht |]. right. apply endsWith_cons.
      destruct Hp as [-> | Hp]; [left; split; reflexivity | right; exact Hp].
    + destruct (split sep s) as [| piece pieces] eqn:E;
        [exfalso; eapply split_not_nil; exact E |].
      destruct pieces as [| piece' pieces].
      * apply split_singleton in E. subst piece. cbn in Hlast. injection Hlast as <-.
        exists String.EmptyString, (String.String c s).
        split; [reflexivity |]. split; [reflexivity |].
        split; [| left; reflexivity].
        cbn [hasChar]. rewrite Ht.
        destruct (Ascii.eqb_spec c sep); [contradiction | reflexivity].
      * exists (String.String c p), t.
        rewrite last_cons_cons. rewrite last_cons_cons in Hlast.
        split; [exact Hlast |]. split; [rewrite Hs at 1; reflexivity |].
        split; [exact Ht |]. right. apply endsWith_cons. right.
        destruct Hp as [-> | Hp]; [| exact Hp].
        exfalso. change (s = t) in Hs. subst s. rewrite (split_no_sep sep t Ht) in E. discriminate.
Qed.

(** X8: the text [guessWord] looks up is the part of the buffer text after
    its last space: it holds no space, what precedes it is empty or ends
    in a space, and it is never [undefined]. When it is not empty the
    monolithic menu queries it as it is and the modular menu queries it
    followed by a star. *)
Theorem guessWord_queries_last_word (inputText : string) :
  exists prefix token,
    inputText = prefix +:+ token /\
    hasChar " " token = false /\
    (prefix = "" \/ endsWith " " prefix) /\
    lastToken inputText = Some token /\
    (token <> "" ->
     Monolithic.guessWord inputText = Query (Monolithic.wordnik token) /\
     Modular.guessWord inputText = Query (Modular.wordnik (token +:+ "*"))).
Proof.
  destruct (last_split_decompose " " inputText) as (p & t & Hlast & Hs & Ht & Hp).
  exists p, t. unfold Monolithic.guessWord, Modular.guessWord, lastToken.
  rewrite Hlast. cbn [asText default].
  split; [exact Hs |]. split; [exact Ht |]. split; [exact Hp |]. split; [reflexivity |].
  intros Hne. rewrite bool_decide_eq_false_2 by congruence. split; reflexivity.
Qed.

End GuessWords.

(** * Further properties of the scanning program *)

Section Confirm.
Variable cfg : config.

(** The announcement delay is over: [afterAnnouncement] unhighlights the
    button and calls its action. *)
Lemma step_afterAnnouncement (e : scanEnv) (mo : menu) (ty : buttonType)
    (id : timerId) (d : nat) (gl : list scanEnv)
    (ext : list buttonRef) (to : gmap timerId (nat * timerFn))
    (n : timerId) (aw : list awaitedFn) (ms : nat) (j : list effect) :
  cfg !! (that e).1 = Some mo -> buttons mo !! (that e).2 = Some ty ->
  to !! id = Some (d, afterAnnouncement e) ->
  step cfg (Expire id) (mkState gl ext to n aw ms j)
  = task (action cfg (that e) ty (cbpressed e))
      (mkState gl ext (delete id to) n aw ms
               (j ++ [Fired (afterAnnouncement e); Toggle (that e)])).
Proof.
  intros Hm Hty H. cbn [step timeouts]. rewrite H. cbn [runTimer].
  erewrite task_bind_Ok by reflexivity.
  erewrite task_bind_Ok by reflexivity.
  erewrite task_bind_Ok by reflexivity.
  unfold actionOf.
  erewrite task_bind_Ok by (apply menuOf_Some; exact Hm).
  cbn beta iota.
  erewrite task_bind_Ok by (apply buttonAt_Some; exact Hty).
  cbn [log snd gazeListeners extendedGazeListeners timeouts nextTimeout awaited sliderMs
       journal].
  rewrite <- !app_assoc. reflexivity.
Qed.

Lemma confirmed_button (m : menuId) (mo : menu) (ix : nat) (ty : buttonType)
    (p q : callback) (s : state) :
  cfg !! m = Some mo -> buttons mo !! ix = Some ty ->
  gazeListeners s = [] -> timeouts s = ∅ ->
  steps cfg [Gaze; Expire (S (nextTimeout s)); Expire (S (S (nextTimeout s)))]
        (armedState (m, ix) p q s)
  = task (action cfg (m, ix) ty q) (confirmedState (armedEnv (m, ix) p q s) s).
Proof.
  intros Hm Hty Hg Ht.
  set (b := (m, ix)). set (e := armedEnv b p q s).
  unfold steps. cbn [foldl]. unfold armedState. fold e. rewrite Hg, Ht. cbn [app].
  rewrite step_gaze_only.
  rewrite (step_afterPress cfg e _ PRESS_WAIT) by apply lookup_insert_eq.
  rewrite (step_afterAnnouncement e mo ty _ (sliderMs s))
    by (try apply lookup_insert_eq; assumption).
  cbn [cbpressed that e armedEnv timeout].
  rewrite !delete_insert_eq, !delete_empty.
  unfold confirmedState, confirmedJournal. cbn [that e armedEnv nextTimeout].
  rewrite <- !app_assoc. reflexivity.
Qed.

End Confirm.

Section Buttons.
Variable cfg : config.

Lemma scanAt_env (m : menuId) (mo : menu) (ix loop : nat) (s : state) :
  cfg !! m = Some mo -> ix < nButtons mo ->
  scanAt cfg m ix loop s
  = (Ok tt, armedState (m, ix) (cbpassed (scanEnvAt m mo ix loop s))
                       (menuCbpressed m mo) s).
Proof.
  intros Hm Hix. unfold scanEnvAt, menuCbpressed.
  destruct (kind mo) as [| loops] eqn:Hk.
  - apply (scanAt_branch cfg m mo ix loop s Hm Hk Hix).
  - apply (scanAt_leaf cfg m mo loops ix loop s Hm Hk Hix).
Qed.

Lemma confirm_scanAt (m : menuId) (mo : menu) (ix loop : nat) (ty : buttonType) (s : state) :
  cfg !! m = Some mo -> buttons mo !! ix = Some ty ->
  gazeListeners s = [] -> timeouts s = ∅ ->
  steps cfg (confirm (nextTimeout s)) (task (scanAt cfg m ix loop) s)
  = task (action cfg (m, ix) ty (menuCbpressed m mo))
         (confirmedState (scanEnvAt m mo ix loop s) s).
Proof.
  intros Hm Hty Hg Ht.
  assert (Hix : ix < nButtons mo) by (apply lookup_lt_is_Some_1; eauto).
  rewrite (task_Ok _ _ _ (scanAt_env m mo ix loop s Hm Hix)).
  apply (confirmed_button cfg m mo ix ty _ _ s Hm Hty Hg Ht).
Qed.

Lemma scan_env (c : menuId) (co : menu) (s : state) :
  cfg !! c = Some co -> 0 < nButtons co ->
  scan cfg (Some c) s
  = (Ok tt, armedState (c, 0) (cbpassed (scanEnvAt c co 0 0 s)) (menuCbpressed c co)
                       (log (SlideDown c) s).2).
Proof.
  intros Hc HN. rewrite (scan_run cfg c co s Hc).
  rewrite (scanAt_env c co 0 0 _ Hc HN). reflexivity.
Qed.

Lemma scan_None (s : state) : scan cfg None s = (Throw TypeError, s).
Proof. reflexivity. Qed.

End Buttons.

Section BranchScan.
Variable cfg : config.
Variables (m : menuId) (mo : menu).
Hypothesis Hm : cfg !! m = Some mo.
Hypothesis Hk : kind mo = branchMenu.
Hypothesis HN : 0 < nButtons mo.

Lemma nextButton_step (k : nat) :
  nextButton mo (k mod nButtons mo) = S k mod nButtons mo.
Proof.
  unfold nextButton. rewrite Nat.Div0.add_mod_idemp_l. f_equal. lia.
Qed.

Lemma branch_start (s : state) :
  gazeListeners s = [] -> timeouts s = ∅ ->
  branchArmed m mo s 0 (task (scan cfg (Some m)) s).
Proof.
  intros Hg Ht. exists [SlideDown m; Toggle (m, 0); Announce (m, 0)].
  split; [| reflexivity].
  apply task_Ok. rewrite (scan_run cfg m mo s Hm).
  rewrite (scanAt_branch cfg m mo 0 0 _ Hm Hk HN).
  unfold armedState, armedEnv, branchEnv. cbn.
  rewrite Hg, Ht, Nat.Div0.mod_0_l, Nat.add_0_r, insert_empty.
  rewrite <- !app_assoc. reflexivity.
Qed.

Lemma branch_pass (s : state) (k : nat) (st : state) :
  branchArmed m mo s k st ->
  branchArmed m mo s (S k) (step cfg (Expire (nextTimeout s + k)) st).
Proof.
  intros (j & -> & Hj).
  exists (j ++ [Fired (onTimeout (branchEnv m mo (nextTimeout s) k));
                Toggle (m, k mod nButtons mo);
                Toggle (m, S k mod nButtons mo); Announce (m, S k mod nButtons mo)]).
  split.
  - unfold step. cbn [timeouts]. rewrite lookup_singleton_eq.
    apply task_Ok.
    cbn [runTimer].
    change (cbpassed (branchEnv m mo (nextTimeout s) k))
      with (branchPassed m (k mod nButtons mo)).
    unfold mbind at 1 2 3 4, M_bind. cbn [clearTimeout log toggle removeGazeListener
      gazeListeners extendedGazeListeners timeouts nextTimeout awaited sliderMs journal that].
    unfold call.
    erewrite (bind_Ok (menuOf cfg (Some m))) by (apply menuOf_Some; exact Hm).
    cbn beta iota.
    rewrite nextButton_step.
    rewrite (scanAt_branch cfg m mo _ _ _ Hm Hk) by (apply Nat.mod_upper_bound; lia).
    rewrite filter_out_only, delete_singleton_eq.
    unfold armedState, armedEnv.
    cbn [gazeListeners extendedGazeListeners timeouts nextTimeout awaited sliderMs journal].
    rewrite insert_empty, <- !Nat.add_succ_r.
    unfold branchEnv at 1. cbn [that app].
    rewrite <- !app_assoc. reflexivity.
  - rewrite forallb_app, Hj. reflexivity.
Qed.

Lemma unattended_branchArmed (s : state) :
  gazeListeners s = [] -> timeouts s = ∅ ->
  forall k, branchArmed m mo s k (unattended cfg m s k).
Proof.
  intros Hg Ht k. induction k as [| k IH].
  - apply branch_start; assumption.
  - rewrite unattended_S. apply branch_pass, IH.
Qed.

End BranchScan.

(** X9: a branch menu whose scan meets no gaze cycles for ever: after k
    timeouts, for every k, its button k mod N is the only one armed, with
    one pending deadline, [that.scan] as its completion callback, and no
    menu has slid up. *)
Theorem branch_scan_cycles
    (cfg : config) (m : menuId) (mo : menu) (s : state) (k : nat) :
  cfg !! m = Some mo -> kind mo = branchMenu -> 0 < nButtons mo ->
  gazeListeners s = [] -> timeouts s = ∅ ->
  let st := unattended cfg m s k in
  map that (gazeListeners st) = [(m, k mod nButtons mo)] /\
  map cbpressed (gazeListeners st) = [thatScan m] /\
  dom (timeouts st) = {[nextTimeout s + k]} /\
  exists j, journal st = journal s ++ j /\ forall i, SlideUp i ∉ j.
Proof.
  intros Hm Hk HN Hg Ht st.
  destruct (unattended_branchArmed cfg m mo Hm Hk HN s Hg Ht k) as (j & Hst & Hj).
  unfold st. rewrite Hst. cbn [gazeListeners timeouts journal map branchEnv that cbpressed].
  split; [reflexivity |]. split; [reflexivity |]. split; [apply dom_singleton_L |].
  exists j. split; [reflexivity |].
  intros i Hi. rewrite forallb_forall in Hj.
  apply list_elem_of_In in Hi. apply Hj in Hi. discriminate.
Qed.

Lemma branch_scan_cycles_witness :
  map that (gazeListeners (unattended threeLetters 0 quiet 7)) = [(0, 1)].
Proof.
  pose proof (branch_scan_cycles threeLetters 0 threeLetterMenu quiet 7
                eq_refl eq_refl ltac:(cbn; lia) eq_refl eq_refl) as H.
  cbv zeta in H. exact (proj1 H).
Defined.

Section Selector.
Variable cfg : config.

Lemma action_selector (b : buttonRef) (mo : menu) (name : string) (slide : bool)
    (cb : callback) (s : state) :
  cfg !! b.1 = Some mo ->
  action cfg b (menuSelectorButton name slide) cb s
  = match children mo with
    | None => (Throw TypeError, (log (Action b) s).2)
    | Some ch =>
        scan cfg (ch !! name)
             (mkState (gazeListeners s) (extendedGazeListeners s) (timeouts s)
                      (nextTimeout s) (awaited s) (sliderMs s)
                      (journal s ++ Action b :: (if slide then [SlideUp b.1] else [])))
    end.
Proof.
  intros Hm. unfold action.
  erewrite bind_Ok by reflexivity.
  erewrite bind_Ok by (apply menuOf_Some; exact Hm).
  cbn beta iota.
  destruct (children mo) as [ch |]; [| reflexivity].
  destruct slide.
  - erewrite bind_Ok by reflexivity. cbn [log snd journal gazeListeners
      extendedGazeListeners timeouts nextTimeout awaited sliderMs].
    rewrite <- app_assoc. reflexivity.
  - erewrite bind_Ok by reflexivity. cbn [log snd journal gazeListeners
      extendedGazeListeners timeouts nextTimeout awaited sliderMs].
    reflexivity.
Qed.

(** X10: confirming a menu selector button slides its own menu up when
    [data-slide] is true, slides the child menu named by the button down
    and arms the child's button 0; the completion callback of its own
    menu is not called. *)
Theorem selector_opens_child
    (m : menuId) (mo : menu) (ix loop : nat) (name : string) (slide : bool)
    (ch : gmap string menuId) (c : menuId) (co : menu) (s : state) :
  cfg !! m = Some mo -> buttons mo !! ix = Some (menuSelectorButton name slide) ->
  children mo = Some ch -> ch !! name = Some c ->
  cfg !! c = Some co -> 0 < nButtons co ->
  gazeListeners s = [] -> timeouts s = ∅ ->
  let final := steps cfg (confirm (nextTimeout s)) (task (scanAt cfg m ix loop) s) in
  map that (gazeListeners final) = [(c, 0)] /\
  map cbpressed (gazeListeners final) = [menuCbpressed c co] /\
  dom (timeouts final) = {[S (S (S (nextTimeout s)))]} /\
  journal final
  = journal s ++ confirmedJournal (scanEnvAt m mo ix loop s)
    ++ [Action (m, ix)] ++ (if slide then [SlideUp m] else [])
    ++ [SlideDown c; Toggle (c, 0); Announce (c, 0)].
Proof.
  intros Hm Hty Hch Hname Hc HN Hg Ht final.
  unfold final. rewrite (confirm_scanAt cfg m mo ix loop _ s Hm Hty Hg Ht).
  unfold task. rewrite (action_selector (m, ix) mo name slide _ _ Hm), Hch, Hname.
  rewrite (scan_env cfg c co _ Hc HN).
  unfold armedState, armedEnv, confirmedState.
  cbn [fst snd log gazeListeners extendedGazeListeners timeouts nextTimeout awaited
       sliderMs journal map that cbpressed app].
  split; [reflexivity |]. split; [reflexivity |].
  split; [rewrite insert_empty; apply dom_singleton_L |].
  rewrite <- !app_assoc. destruct slide; reflexivity.
Qed.

(** X11: confirming a menu selector button whose menu has no children, or
    none of that name, ends in an uncaught TypeError, after the menu slid
    up when it has children and [data-slide] is true; nothing is armed
    and no timer is left. *)
Theorem selector_without_child_stalls
    (m : menuId) (mo : menu) (ix loop : nat) (name : string) (slide : bool) (s : state) :
  cfg !! m = Some mo -> buttons mo !! ix = Some (menuSelectorButton name slide) ->
  children mo ≫= (fun ch => ch !! name) = None ->
  gazeListeners s = [] -> timeouts s = ∅ ->
  let final := steps cfg (confirm (nextTimeout s)) (task (scanAt cfg m ix loop) s) in
  gazeListeners final = [] /\ timeouts final = ∅ /\
  awaited final = awaited s /\ extendedGazeListeners final = extendedGazeListeners s /\
  journal final
  = journal s ++ confirmedJournal (scanEnvAt m mo ix loop s)
    ++ [Action (m, ix)]
    ++ (if slide && bool_decide (is_Some (children mo)) then [SlideUp m] else [])
    ++ [Uncaught TypeError].
Proof.
  intros Hm Hty Hnone Hg Ht final.
  unfold final. rewrite (confirm_scanAt cfg m mo ix loop _ s Hm Hty Hg Ht).
  unfold task. rewrite (action_selector (m, ix) mo name slide _ _ Hm).
  destruct (children mo) as [ch |]; cbn [mbind option_bind] in Hnone.
  - rewrite Hnone, scan_None.
    rewrite bool_decide_eq_true_2 by eauto. rewrite andb_true_r.
    unfold confirmedState.
    cbn [fst snd log gazeListeners extendedGazeListeners timeouts nextTimeout awaited
         sliderMs journal app].
    repeat split. rewrite <- !app_assoc. destruct slide; reflexivity.
  - rewrite bool_decide_eq_false_2 by (intros [? ?]; discriminate). rewrite andb_false_r.
    unfold confirmedState.
    cbn [fst snd log gazeListeners extendedGazeListeners timeouts nextTimeout awaited
         sliderMs journal app].
    repeat split. rewrite <- !app_assoc. reflexivity.
Qed.

End Selector.

Lemma selector_opens_child_witness :
  map that (gazeListeners
              (steps controlPage (confirm 1) (task (scanAt controlPage 0 1 0) quiet)))
  = [(1, 0)].
Proof.
  pose proof (selector_opens_child controlPage 0 controlMain 1 0 "compose1" true
                {[ "compose1" := 1 ]} 1 controlLeaf quiet
                eq_refl eq_refl eq_refl eq_refl eq_refl ltac:(cbn; lia) eq_refl eq_refl) as H.
  cbv zeta in H. exact (proj1 H).
Defined.

Lemma selector_without_child_stalls_witness :
  gazeListeners (steps controlPage (confirm 1) (task (scanAt controlPage 0 2 0) quiet)) = [].
Proof.
  pose proof (selector_without_child_stalls controlPage 0 controlMain 2 0 "nowhere" false
                quiet eq_refl eq_refl eq_refl eq_refl eq_refl) as H.
  cbv zeta in H. exact (proj1 H).
Defined.

Section Return.
Variable cfg : config.

Lemma climb_ancestor (depth : nat) :
  forall m r, ancestor cfg m depth = Some r -> climb cfg (Some m) depth = Ok (Some r).
Proof.
  induction depth as [| depth IH]; intros m r H.
  - cbn in H. injection H as ->. reflexivity.
  - cbn [ancestor] in H. cbn [climb mbind option_bind].
    destruct (cfg !! m) as [mo |]; cbn [mbind option_bind] in H; [| discriminate].
    destruct (parent mo) as [p |]; [| discriminate].
    apply IH, H.
Qed.


Lemma ancestor_S (depth : nat) :
  forall m r ro, ancestor cfg m depth = Some r -> cfg !! r = Some ro ->
                 ancestor cfg m (S depth) = parent ro.
Proof.
  induction depth as [| depth IH]; intros m r ro H Hr.
  - cbn in H. injection H as ->. cbn. rewrite Hr. cbn. destruct (parent ro); reflexivity.
  - cbn [ancestor] in H. cbn [ancestor].
    destruct (cfg !! m ≫= parent) as [p |]; [| discriminate].
    apply (IH p r ro H Hr).
Qed.

Lemma action_return (b : buttonRef) (depth : Z) (cb : callback) (s : state) :
  action cfg b (returnButton depth) cb s
  = (returnMenu ← getReturnMenu cfg (Some b.1) depth;
     majorMenu ← getReturnMenu cfg (Some b.1) (depth - 1);
     '(major, _) ← menuOf cfg majorMenu;
     slideUp major;;
     scan cfg returnMenu) (log (Action b) s).2.
Proof. reflexivity. Qed.

Lemma getReturnMenu_run (m : option menuId) (depth : Z) (s : state) :
  (0 <= depth)%Z -> getReturnMenu cfg m depth s = (climb cfg m (Z.to_nat depth), s).
Proof.
  intros H. unfold getReturnMenu.
  destruct (Z.ltb_spec depth 0); [lia | reflexivity].
Qed.

(** X12: confirming a return button of depth d >= 1 slides up the menu d - 1
    levels up (its own menu when d is 1) and scans the menu d levels up,
    arming its button 0. *)
Theorem return_button_climbs
    (m : menuId) (mo : menu) (ix loop : nat) (depth : Z)
    (major ret : menuId) (majoro reto : menu) (s : state) :
  cfg !! m = Some mo -> buttons mo !! ix = Some (returnButton depth) ->
  (1 <= depth)%Z ->
  ancestor cfg m (Z.to_nat (depth - 1)) = Some major -> cfg !! major = Some majoro ->
  parent majoro = Some ret -> cfg !! ret = Some reto -> 0 < nButtons reto ->
  gazeListeners s = [] -> timeouts s = ∅ ->
  let final := steps cfg (confirm (nextTimeout s)) (task (scanAt cfg m ix loop) s) in
  ancestor cfg m (Z.to_nat depth) = Some ret /\
  map that (gazeListeners final) = [(ret, 0)] /\
  map cbpressed (gazeListeners final) = [menuCbpressed ret reto] /\
  dom (timeouts final) = {[S (S (S (nextTimeout s)))]} /\
  journal final
  = journal s ++ confirmedJournal (scanEnvAt m mo ix loop s)
    ++ [Action (m, ix); SlideUp major; SlideDown ret; Toggle (ret, 0); Announce (ret, 0)].
Proof.
  intros Hm Hty Hd Hmajor Hmajoro Hparent Hret HN Hg Ht final.
  assert (Hanc : ancestor cfg m (Z.to_nat depth) = Some ret).
  { replace (Z.to_nat depth) with (S (Z.to_nat (depth - 1))) by lia.
    rewrite (ancestor_S _ m major majoro Hmajor Hmajoro). exact Hparent. }
  split; [exact Hanc |].
  unfold final. rewrite (confirm_scanAt cfg m mo ix loop _ s Hm Hty Hg Ht).
  unfold task. rewrite action_return. cbn [fst].
  erewrite bind_Ok
    by (rewrite getReturnMenu_run by lia; rewrite (climb_ancestor _ m ret Hanc); reflexivity).
  erewrite bind_Ok
    by (rewrite getReturnMenu_run by lia; rewrite (climb_ancestor _ m major Hmajor);
        reflexivity).
  erewrite bind_Ok by (apply menuOf_Some; exact Hmajoro).
  cbn beta iota.
  erewrite bind_Ok by reflexivity.
  rewrite (scan_env cfg ret reto _ Hret HN).
  unfold armedState, armedEnv, confirmedState.
  cbn [fst snd log slideUp gazeListeners extendedGazeListeners timeouts nextTimeout awaited
       sliderMs journal map that cbpressed app].
  split; [reflexivity |]. split; [reflexivity |].
  split; [rewrite insert_empty; apply dom_singleton_L |].
  rewrite <- !app_assoc. reflexivity.
Qed.



End Return.

Lemma return_button_climbs_witness :
  map that (gazeListeners
              (steps controlPage (confirm 1) (task (scanAt controlPage 1 1 0) quiet)))
  = [(0, 0)].
Proof.
  pose proof (return_button_climbs controlPage 1 controlLeaf 1 0 1 1 0 controlLeaf
                controlMain quiet
                eq_refl eq_refl ltac:(lia) eq_refl eq_refl eq_refl eq_refl ltac:(cbn; lia)
                eq_refl eq_refl) as H.
  cbv zeta in H. exact (proj1 (proj2 H)).
Defined.


Section StartStop.
Variable cfg : config.

Lemma start_run (m : menuId) (mo : menu) (ix : nat) (s : state) :
  cfg !! m = Some mo -> 0 < nButtons mo ->
  start cfg (m, ix) s
  = (Ok tt,
     mkState (gazeListeners s ++ [scanEnvAt m mo 0 0 s])
             (filter (fun b' => b' <> (m, ix)) (extendedGazeListeners s))
             (<[nextTimeout s := (sliderMs s, onTimeout (scanEnvAt m mo 0 0 s))]> (timeouts s))
             (S (nextTimeout s)) (awaited s) (sliderMs s)
             (journal s ++ [SetValue (m, ix) "Stop"; SlideDown m; Toggle (m, 0);
                            Announce (m, 0); Toggle (m, ix)])).
Proof.
  intros Hm HN. unfold start.
  erewrite bind_Ok by reflexivity.
  erewrite bind_Ok by reflexivity.
  erewrite bind_Ok by (cbn [fst]; apply (scan_env cfg m mo _ Hm HN)).
  unfold armedState, armedEnv, scanEnvAt, armedEnv, toggle, log.
  cbn [fst snd cbpassed removeExtendedGazeListener gazeListeners extendedGazeListeners
       timeouts nextTimeout awaited sliderMs journal].
  rewrite <- !app_assoc. reflexivity.
Qed.

Lemma action_start (b : buttonRef) (cb : callback) (s : state) :
  action cfg b startButton cb s
  = (Ok tt,
     mkState (gazeListeners s) (extendedGazeListeners s ++ [b]) (timeouts s)
             (nextTimeout s) (awaited s) (sliderMs s)
             (journal s ++ [Action b; SetValue b "Start"; Toggle b])).
Proof.
  unfold action, mbind, M_bind, toggle, addExtendedGazeListener, log.
  cbn [gazeListeners extendedGazeListeners timeouts nextTimeout awaited sliderMs journal].
  rewrite <- !app_assoc. reflexivity.
Qed.

Lemma task_emitExtended (s : state) :
  task (emitExtendedGaze cfg) s
  = task (forEach (fun b => log (Started b);; start cfg b) (extendedGazeListeners s)) s.
Proof. reflexivity. Qed.

Lemma step_nothing_pending (ev : event) (ext : list buttonRef) (n : timerId)
    (aw : list awaitedFn) (ms : nat) (j : list effect) :
  ev = Gaze \/ (exists t, ev = Expire t) ->
  step cfg ev (mkState [] ext ∅ n aw ms j) = mkState [] ext ∅ n aw ms j.
Proof.
  intros [-> | [t ->]]; [reflexivity |].
  cbn [step timeouts]. rewrite lookup_empty. reflexivity.
Qed.

(** X14: confirming the start button while the program runs stops the
    scan: nothing is armed or pending and the button waits for an extended
    gaze, so gazes and timeouts change nothing; the next extended gaze
    deregisters the button, scans its menu from button 0 and toggles the
    button, and a further extended gaze does nothing. *)
Theorem stop_button_halts_until_extended_gaze
    (m : menuId) (mo : menu) (ix loop : nat) (s : state) :
  cfg !! m = Some mo -> buttons mo !! ix = Some startButton ->
  gazeListeners s = [] -> timeouts s = ∅ -> extendedGazeListeners s = [] ->
  let stopped := steps cfg (confirm (nextTimeout s)) (task (scanAt cfg m ix loop) s) in
  let restarted := step cfg ExtendedGaze stopped in
  (gazeListeners stopped = [] /\ timeouts stopped = ∅ /\
   extendedGazeListeners stopped = [(m, ix)] /\
   journal stopped
   = journal s ++ confirmedJournal (scanEnvAt m mo ix loop s)
     ++ [Action (m, ix); SetValue (m, ix) "Start"; Toggle (m, ix)]) /\
  (forall evs, Forall (fun ev => ev = Gaze \/ exists t, ev = Expire t) evs ->
               steps cfg evs stopped = stopped) /\
  (map that (gazeListeners restarted) = [(m, 0)] /\
   dom (timeouts restarted) = {[nextTimeout stopped]} /\
   extendedGazeListeners restarted = [] /\
   journal restarted
   = journal stopped ++ [Started (m, ix); SetValue (m, ix) "Stop"; SlideDown m;
                         Toggle (m, 0); Announce (m, 0); Toggle (m, ix)]) /\
  step cfg ExtendedGaze restarted = restarted.
Proof.
  intros Hm Hty Hg Ht He stopped restarted.
  assert (HN : 0 < nButtons mo).
  { assert (ix < nButtons mo) by (apply lookup_lt_is_Some_1; eauto). lia. }
  assert (Hstopped : stopped
    = mkState [] [(m, ix)] ∅ (S (S (S (nextTimeout s)))) (awaited s) (sliderMs s)
              (journal s ++ confirmedJournal (scanEnvAt m mo ix loop s)
               ++ [Action (m, ix); SetValue (m, ix) "Start"; Toggle (m, ix)])).
  { unfold stopped. rewrite (confirm_scanAt cfg m mo ix loop _ s Hm Hty Hg Ht).
    unfold task. rewrite action_start. unfold confirmedState.
    cbn [snd fst gazeListeners extendedGazeListeners timeouts nextTimeout awaited
         sliderMs journal].
    rewrite He. cbn [app]. rewrite <- !app_assoc. reflexivity. }
  assert (Hrestarted : restarted
    = mkState [scanEnvAt m mo 0 0 stopped] [] 
              {[nextTimeout stopped := (sliderMs s, onTimeout (scanEnvAt m mo 0 0 stopped))]}
              (S (nextTimeout stopped)) (awaited s) (sliderMs s)
              (journal stopped ++ [Started (m, ix); SetValue (m, ix) "Stop"; SlideDown m;
                                   Toggle (m, 0); Announce (m, 0); Toggle (m, ix)])).
  { unfold restarted. rewrite Hstopped. cbn [step].
    rewrite task_emitExtended. cbn [extendedGazeListeners forEach].
    erewrite task_bind_Ok; cycle 1.
    { erewrite bind_Ok by reflexivity. apply (start_run m mo ix _ Hm HN). }
    unfold task. cbn [mret M_ret log snd gazeListeners extendedGazeListeners timeouts
                      nextTimeout awaited sliderMs journal app].
    rewrite filter_cons, decide_False by (intros H; apply H; reflexivity).
    rewrite filter_nil, insert_empty. 
    unfold scanEnvAt, armedEnv. cbn [nextTimeout].
    rewrite <- !app_assoc. reflexivity. }
  split; [rewrite Hstopped; repeat split |].
  split.
  - intros evs Hevs. rewrite Hstopped.
    induction Hevs as [| ev evs Hev _ IH]; [reflexivity |].
    rewrite steps_cons, step_nothing_pending by exact Hev. exact IH.
  - split.
    + rewrite Hrestarted. cbn [gazeListeners map timeouts extendedGazeListeners journal].
      split; [reflexivity |]. split; [apply dom_singleton_L |]. split; reflexivity.
    + rewrite Hrestarted. reflexivity.
Qed.

End StartStop.

Lemma stop_button_halts_until_extended_gaze_witness :
  map that
    (gazeListeners
       (step controlPage ExtendedGaze
             (steps controlPage (confirm 1) (task (scanAt controlPage 0 0 0) quiet))))
  = [(0, 0)].
Proof.
  pose proof (stop_button_halts_until_extended_gaze controlPage 0 controlMain 0 0 quiet
                eq_refl eq_refl eq_refl eq_refl eq_refl) as H.
  cbv zeta in H. exact (proj1 (proj1 (proj2 (proj2 H)))).
Defined.

Section Deferred.
Variable cfg : config.

Lemma step_expire (id : timerId) (d : nat) (f : timerFn) (gl : list scanEnv)
    (ext : list buttonRef) (to : gmap timerId (nat * timerFn))
    (n : timerId) (aw : list awaitedFn) (ms : nat) (j : list effect) :
  to !! id = Some (d, f) ->
  step cfg (Expire id) (mkState gl ext to n aw ms j)
  = task (runTimer cfg f) (mkState gl ext (delete id to) n aw ms (j ++ [Fired f])).
Proof.
  intros H. cbn [step timeouts]. rewrite H.
  erewrite task_bind_Ok by reflexivity.
  erewrite task_bind_Ok by reflexivity.
  reflexivity.
Qed.

Lemma step_complete (f : awaitedFn) (gl : list scanEnv)
    (ext : list buttonRef) (to : gmap timerId (nat * timerFn))
    (n : timerId) (aw : list awaitedFn) (ms : nat) (j : list effect) :
  step cfg (Complete 0) (mkState gl ext to n (f :: aw) ms j)
  = task (runAwaited cfg f) (mkState gl ext to n aw ms (j ++ [Completed f])).
Proof.
  unfold step. cbn [awaited]. change ((f :: aw) !! 0) with (Some f). cbv iota beta.
  erewrite task_bind_Ok by reflexivity.
  erewrite task_bind_Ok by reflexivity.
  reflexivity.
Qed.

Lemma deferred_resumes (b : buttonRef) (ty : buttonType) (cb : callback)
    (ext : list buttonRef) (n : timerId) (ms : nat) (j : list effect) :
  defers ty = true ->
  let s := mkState [] ext ∅ n [] ms j in
  steps cfg (resumption ty n) (task (action cfg b ty cb) s)
  = task (call cfg cb)
         (mkState [] ext ∅ (n + deferredTimers ty) [] ms (j ++ deferredJournal b ty cb)) /\
  forall k, k < length (resumption ty n) ->
            gazeListeners (steps cfg (take k (resumption ty n)) (task (action cfg b ty cb) s))
            = [].
Proof.
  intros Hty s. unfold s.
  destruct ty; try discriminate; cbn [resumption deferredJournal deferredTimers].
  - (* request *)
    assert (H0 : task (action cfg b requestButton cb) (mkState [] ext ∅ n [] ms j)
                 = mkState [] ext {[n := (BEEP_DURATION, stopOscillator);
                                    S n := (BEEP_DURATION + AFTER_BEEP_WAIT, afterBeep b cb)]}
                           (S (S n)) [] ms (j ++ [Action b; Beep b])).
    { apply task_Ok. unfold action, mbind, M_bind, setTimeout, log, mret, M_ret.
      cbn [gazeListeners extendedGazeListeners timeouts nextTimeout awaited sliderMs journal].
      rewrite <- !app_assoc.
      rewrite (insert_insert_ne _ (S n) n) by lia. rewrite insert_empty. reflexivity. }
    assert (H1 : step cfg (Expire n) (task (action cfg b requestButton cb)
                                            (mkState [] ext ∅ n [] ms j))
                 = mkState [] ext {[S n := (BEEP_DURATION + AFTER_BEEP_WAIT, afterBeep b cb)]}
                           (S (S n)) [] ms (j ++ [Action b; Beep b; Fired stopOscillator])).
    { rewrite H0. rewrite (step_expire n BEEP_DURATION stopOscillator)
        by apply lookup_insert_eq.
      apply task_Ok. cbn [runTimer]. unfold mret, M_ret.
      rewrite delete_insert_id by (apply lookup_singleton_ne; lia).
      rewrite <- !app_assoc. reflexivity. }
    assert (H2 : step cfg (Expire (S n)) (step cfg (Expire n)
                   (task (action cfg b requestButton cb) (mkState [] ext ∅ n [] ms j)))
                 = mkState [] ext ∅ (S (S n)) [afterSpeech cb] ms
                           (j ++ [Action b; Beep b; Fired stopOscillator;
                                  Fired (afterBeep b cb); Speak "request"])).
    { rewrite H1. rewrite (step_expire (S n) (BEEP_DURATION + AFTER_BEEP_WAIT) (afterBeep b cb))
        by apply lookup_singleton_eq.
      apply task_Ok. cbn [runTimer]. unfold mbind, M_bind, log, await.
      cbn [gazeListeners extendedGazeListeners timeouts nextTimeout awaited sliderMs journal].
      rewrite delete_singleton_eq, <- !app_assoc. reflexivity. }
    assert (H3 : step cfg (Complete 0) (step cfg (Expire (S n)) (step cfg (Expire n)
                   (task (action cfg b requestButton cb) (mkState [] ext ∅ n [] ms j))))
                 = mkState [] ext {[S (S n) := (ms, delayed cb)]} (S (S (S n))) [] ms
                           (j ++ [Action b; Beep b; Fired stopOscillator;
                                  Fired (afterBeep b cb); Speak "request";
                                  Completed (afterSpeech cb)])).
    { rewrite H2. rewrite step_complete.
      apply task_Ok. cbn [runAwaited]. unfold mbind, M_bind, getms, setTimeout, mret, M_ret.
      cbn [gazeListeners extendedGazeListeners timeouts nextTimeout awaited sliderMs journal].
      rewrite insert_empty, <- !app_assoc. reflexivity. }
    split.
    + unfold steps. cbn [foldl]. rewrite H3.
      rewrite (step_expire (S (S n)) ms (delayed cb)) by apply lookup_singleton_eq.
      cbn [runTimer]. rewrite delete_singleton_eq, <- !app_assoc.
      replace (n + 3) with (S (S (S n))) by lia. reflexivity.
    + intros k Hk. cbn [length] in Hk.
      destruct k as [| [| [| [| k]]]]; [| | | | lia]; unfold steps; cbn [take foldl].
      * rewrite H0. reflexivity.
      * rewrite H1. reflexivity.
      * rewrite H2. reflexivity.
      * rewrite H3. reflexivity.
  - (* buffer action *)
    assert (H0 : task (action cfg b bufferActionButton cb) (mkState [] ext ∅ n [] ms j)
                 = mkState [] ext ∅ n [finished cb] ms (j ++ [Action b])).
    { apply task_Ok. reflexivity. }
    split.
    + unfold steps. cbn [foldl]. rewrite H0, step_complete.
      cbn [runAwaited]. rewrite <- !app_assoc, Nat.add_0_r. reflexivity.
    + intros k Hk. cbn [length] in Hk.
      destruct k as [| k]; [| lia]. unfold steps; cbn [take foldl].
      rewrite H0. reflexivity.
  - (* email *)
    assert (H0 : task (action cfg b emailButton cb) (mkState [] ext ∅ n [] ms j)
                 = mkState [] ext ∅ n [afterSend b cb] ms (j ++ [Action b])).
    { apply task_Ok. reflexivity. }
    assert (H1 : step cfg (Complete 0) (task (action cfg b emailButton cb)
                                              (mkState [] ext ∅ n [] ms j))
                 = mkState [] ext ∅ n [finished cb] ms
                           (j ++ [Action b; Completed (afterSend b cb); Speak "message"])).
    { rewrite H0, step_complete. apply task_Ok. cbn [runAwaited].
      unfold mbind, M_bind, log, await.
      cbn [gazeListeners extendedGazeListeners timeouts nextTimeout awaited sliderMs journal].
      rewrite <- !app_assoc. reflexivity. }
    split.
    + unfold steps. cbn [foldl]. rewrite H1, step_complete.
      cbn [runAwaited]. rewrite <- !app_assoc, Nat.add_0_r. reflexivity.
    + intros k Hk. cbn [length] in Hk.
      destruct k as [| [| k]]; [| | lia]; unfold steps; cbn [take foldl].
      * rewrite H0. reflexivity.
      * rewrite H1. reflexivity.
  - (* not implemented *)
    assert (H0 : task (action cfg b notImplementedButton cb) (mkState [] ext ∅ n [] ms j)
                 = mkState [] ext ∅ n [afterRead cb] ms
                           (j ++ [Action b; Speak "Not implemented"])).
    { apply task_Ok. unfold action, mbind, M_bind, log, await.
      cbn [gazeListeners extendedGazeListeners timeouts nextTimeout awaited sliderMs journal].
      rewrite <- !app_assoc. reflexivity. }
    assert (H1 : step cfg (Complete 0) (task (action cfg b notImplementedButton cb)
                                              (mkState [] ext ∅ n [] ms j))
                 = mkState [] ext {[n := (PAUSE, delayed cb)]} (S n) [] ms
                           (j ++ [Action b; Speak "Not implemented";
                                  Completed (afterRead cb)])).
    { rewrite H0, step_complete. apply task_Ok. cbn [runAwaited].
      unfold mbind, M_bind, setTimeout, mret, M_ret.
      cbn [gazeListeners extendedGazeListeners timeouts nextTimeout awaited sliderMs journal].
      rewrite insert_empty, <- !app_assoc. reflexivity. }
    split.
    + unfold steps. cbn [foldl]. rewrite H1.
      rewrite (step_expire n PAUSE (delayed cb)) by apply lookup_singleton_eq.
      cbn [runTimer]. rewrite delete_singleton_eq, <- !app_assoc.
      replace (n + 1) with (S n) by lia. reflexivity.
    + intros k Hk. cbn [length] in Hk.
      destruct k as [| [| k]]; [| | lia]; unfold steps; cbn [take foldl].
      * rewrite H0. reflexivity.
      * rewrite H1. reflexivity.
Qed.

End Deferred.

Section DeferredScan.
Variable cfg : config.

Lemma steps_app (evs1 evs2 : list event) (s : state) :
  steps cfg (evs1 ++ evs2) s = steps cfg evs2 (steps cfg evs1 s).
Proof. unfold steps. apply foldl_app. Qed.

(** X15: the request, not-implemented, email and buffer-action buttons call
    the completion callback of their menu only when their beep, utterance,
    transport or buffer action is over; until then no button is armed; then
    the scan starts again at button 0 of the menu (branch) or of its
    parent (leaf). *)
Theorem deferred_action_restarts_scan
    (m : menuId) (mo : menu) (ix loop : nat) (ty : buttonType) (s : state) :
  cfg !! m = Some mo -> buttons mo !! ix = Some ty -> defers ty = true ->
  gazeListeners s = [] -> timeouts s = ∅ -> awaited s = [] ->
  let called := S (S (S (nextTimeout s))) in
  let armed := task (scanAt cfg m ix loop) s in
  let final := steps cfg (confirm (nextTimeout s) ++ resumption ty called) armed in
  final
  = task (scan cfg (resumes m mo))
      (mkState [] (extendedGazeListeners s) ∅ (called + deferredTimers ty) [] (sliderMs s)
               (journal s ++ confirmedJournal (scanEnvAt m mo ix loop s)
                ++ deferredJournal (m, ix) ty (menuCbpressed m mo) ++ leaves m mo)) /\
  (forall k, k < length (resumption ty called) ->
     gazeListeners
       (steps cfg (confirm (nextTimeout s) ++ take k (resumption ty called)) armed) = []) /\
  (forall r ro, resumes m mo = Some r -> cfg !! r = Some ro -> 0 < nButtons ro ->
     map that (gazeListeners final) = [(r, 0)]).
Proof.
  intros Hm Hty Hdef Hg Ht Ha called armed final.
  pose proof (confirm_scanAt cfg m mo ix loop ty s Hm Hty Hg Ht) as Hconf.
  unfold confirmedState in Hconf. rewrite Ha in Hconf. fold called armed in Hconf.
  destruct (deferred_resumes cfg (m, ix) ty (menuCbpressed m mo) (extendedGazeListeners s)
              called (sliderMs s)
              (journal s ++ confirmedJournal (scanEnvAt m mo ix loop s)) Hdef)
    as [Hres Hquiet].
  assert (Hfinal : final
    = task (scan cfg (resumes m mo))
        (mkState [] (extendedGazeListeners s) ∅ (called + deferredTimers ty) [] (sliderMs s)
                 (journal s ++ confirmedJournal (scanEnvAt m mo ix loop s)
                  ++ deferredJournal (m, ix) ty (menuCbpressed m mo) ++ leaves m mo))).
  { unfold final. rewrite steps_app, Hconf, Hres.
    unfold task. rewrite (call_menuCbpressed cfg m mo _ Hm).
    cbn [gazeListeners extendedGazeListeners timeouts nextTimeout awaited sliderMs journal].
    rewrite <- !app_assoc. reflexivity. }
  split; [exact Hfinal |]. split.
  - intros k Hk. rewrite steps_app, Hconf. apply Hquiet, Hk.
  - intros r ro Hr Hro HN. rewrite Hfinal, Hr.
    rewrite (task_Ok _ _ _ (scan_env cfg r ro _ Hro HN)). reflexivity.
Qed.

End DeferredScan.

Lemma deferred_action_restarts_scan_witness :
  map that
    (gazeListeners
       (steps controlPage (confirm 1 ++ resumption requestButton 4)
              (task (scanAt controlPage 0 3 0) quiet)))
  = [(0, 0)].
Proof.
  pose proof (deferred_action_restarts_scan controlPage 0 controlMain 3 0 requestButton quiet
                eq_refl eq_refl eq_refl eq_refl eq_refl eq_refl) as H.
  cbv zeta in H.
  exact (proj2 (proj2 H) 0 controlMain eq_refl eq_refl ltac:(cbn; lia)).
Defined.

Section Slider.
Variable cfg : config.

Lemma step_slide (ms' : nat) (gl : list scanEnv) (ext : list buttonRef)
    (to : gmap timerId (nat * timerFn)) (n : timerId) (aw : list awaitedFn) (ms : nat)
    (j : list effect) :
  step cfg (Slide ms') (mkState gl ext to n aw ms j) = mkState gl ext to n aw ms' j.
Proof. reflexivity. Qed.

(** X20: the slider is read when a timer is set: moving it while a button
    of a branch menu is armed leaves the pending deadline as it is, and the
    deadline of the next button and the announcement delay of a confirmed
    button take the new value; the settle delay after a gaze is always
    [PRESS_WAIT]. *)
Theorem slider_sets_later_delays
    (m : menuId) (mo : menu) (ix loop ms' : nat) (s : state) :
  cfg !! m = Some mo -> kind mo = branchMenu -> ix < nButtons mo ->
  gazeListeners s = [] -> timeouts s = ∅ ->
  let n := nextTimeout s in
  let e := scanEnvAt m mo ix loop s in
  let armed := task (scanAt cfg m ix loop) s in
  let moved := step cfg (Slide ms') armed in
  timeouts armed = {[n := (sliderMs s, onTimeout e)]} /\
  timeouts moved = {[n := (sliderMs s, onTimeout e)]} /\
  gazeListeners moved = [e] /\
  (exists e', that e' = (m, nextButton mo ix) /\
              gazeListeners (step cfg (Expire n) moved) = [e'] /\
              timeouts (step cfg (Expire n) moved) = {[S n := (ms', onTimeout e')]}) /\
  timeouts (step cfg Gaze moved) = {[S n := (PRESS_WAIT, afterPress e)]} /\
  timeouts (steps cfg [Gaze; Expire (S n)] moved)
  = {[S (S n) := (ms', afterAnnouncement e)]}.
Proof.
  intros Hm Hk Hix Hg Ht n e armed moved.
  assert (Harmed : armed
    = mkState [e] (extendedGazeListeners s) {[n := (sliderMs s, onTimeout e)]} (S n)
              (awaited s) (sliderMs s) ((journal s ++ [Toggle (m, ix)]) ++ [Announce (m, ix)])).
  { unfold armed. rewrite (task_Ok _ _ _ (scanAt_env cfg m mo ix loop s Hm Hix)).
    unfold armedState. rewrite Hg, Ht, insert_empty. reflexivity. }
  assert (Hmoved : moved
    = mkState [e] (extendedGazeListeners s) {[n := (sliderMs s, onTimeout e)]} (S n)
              (awaited s) ms' ((journal s ++ [Toggle (m, ix)]) ++ [Announce (m, ix)])).
  { unfold moved. rewrite Harmed. apply step_slide. }
  split; [rewrite Harmed; reflexivity |].
  split; [rewrite Hmoved; reflexivity |].
  split; [rewrite Hmoved; reflexivity |].
  assert (Hn : timeout e = n) by reflexivity.
  assert (Hgaze : step cfg Gaze moved
    = mkState [] (extendedGazeListeners s) {[S n := (PRESS_WAIT, afterPress e)]} (S (S n))
              (awaited s) ms'
              (((journal s ++ [Toggle (m, ix)]) ++ [Announce (m, ix)]) ++ [Heard e])).
  { rewrite Hmoved, step_gaze_only, Hn, delete_singleton_eq, insert_empty. reflexivity. }
  split; [| split].
  - exists (mkScanEnv (m, nextButton mo ix) (branchPassed m (nextButton mo ix)) (thatScan m)
                      (S n)).
    split; [reflexivity |].
    assert (Hnext : nextButton mo ix < nButtons mo)
      by (unfold nextButton; apply Nat.mod_upper_bound; lia).
    assert (Hstep : step cfg (Expire n) moved
      = armedState (m, nextButton mo ix) (branchPassed m (nextButton mo ix)) (thatScan m)
          (mkState [] (extendedGazeListeners s) ∅ (S n) (awaited s) ms'
             ((((journal s ++ [Toggle (m, ix)]) ++ [Announce (m, ix)])
               ++ [Fired (onTimeout e)]) ++ [Toggle (m, ix)]))).
    { rewrite Hmoved.
      rewrite (step_expire cfg n (sliderMs s) (onTimeout e)) by apply lookup_singleton_eq.
      rewrite delete_singleton_eq. cbn [runTimer].
      erewrite task_bind_Ok by reflexivity.
      erewrite task_bind_Ok by reflexivity.
      replace (cbpassed e) with (branchPassed m ix)
        by (unfold e, scanEnvAt; rewrite Hk; reflexivity).
      cbn [call]. erewrite task_bind_Ok by (apply menuOf_Some; exact Hm).
      cbn beta iota. apply task_Ok.
      rewrite (scanAt_branch cfg m mo _ 0 _ Hm Hk Hnext).
      cbn [toggle log removeGazeListener snd gazeListeners extendedGazeListeners timeouts
           nextTimeout awaited sliderMs journal that].
      rewrite filter_out_only. reflexivity. }
    rewrite Hstep. unfold armedState, armedEnv.
    cbn [gazeListeners timeouts nextTimeout sliderMs app].
    rewrite insert_empty. split; reflexivity.
  - rewrite Hgaze. reflexivity.
  - unfold steps. cbn [foldl]. rewrite Hgaze.
    rewrite (step_afterPress cfg e (S n) PRESS_WAIT) by apply lookup_singleton_eq.
    cbn [timeouts]. rewrite delete_singleton_eq, insert_empty. reflexivity.
Qed.

End Slider.

Lemma slider_sets_later_delays_witness :
  timeouts (steps threeLetters [Gaze; Expire 2]
              (step threeLetters (Slide 250) (task (scanAt threeLetters 0 1 0) quiet)))
  = {[3 := (250, afterAnnouncement (scanEnvAt 0 threeLetterMenu 1 0 quiet))]}.
Proof.
  pose proof (slider_sets_later_delays threeLetters 0 threeLetterMenu 1 0 250 quiet
                eq_refl eq_refl ltac:(cbn; lia) eq_refl eq_refl) as H.
  cbv zeta in H. exact (proj2 (proj2 (proj2 (proj2 (proj2 H))))).
Defined.

Section Control.
Variable cfg : config.

Lemma inControl_same (c : control) (s s' : state) :
  sameControl s s' -> inControl c s -> inControl c s'.
Proof.
  intros (Hg & He & Ha & Ht) (Hp & H1 & H2 & H3 & H4 & H5).
  unfold inControl. rewrite Hg, He, Ha, Ht. auto 10.
Qed.

Lemma single_same (s s' : state) : sameControl s s' -> single s -> single s'.
Proof. intros H [c Hc]. exists c. eapply inControl_same; eauto. Qed.

Lemma sameControl_refl (s : state) : sameControl s s.
Proof. repeat split. Qed.

Lemma sameControl_trans (s1 s2 s3 : state) :
  sameControl s1 s2 -> sameControl s2 s3 -> sameControl s1 s3.
Proof.
  intros (A1 & A2 & A3 & A4) (B1 & B2 & B3 & B4).
  repeat split; congruence.
Qed.

Lemma quietly_ret {A} (a : A) : quietly (mret a : M A).
Proof. intros s. apply sameControl_refl. Qed.

Lemma quietly_throw {A} (msg : string) : quietly (throw msg : M A).
Proof. intros s. apply sameControl_refl. Qed.

Lemma quietly_log (x : effect) : quietly (log x).
Proof. intros s. repeat split. Qed.

Lemma quietly_read {A} (c : M A) : (forall s, (c s).2 = s) -> quietly c.
Proof. intros H s. rewrite H. apply sameControl_refl. Qed.

Lemma quietly_menuOf (m : option menuId) : quietly (menuOf cfg m).
Proof. apply quietly_read. intros s. unfold menuOf. repeat case_match; reflexivity. Qed.

Lemma quietly_buttonAt (mo : menu) (ix : nat) : quietly (buttonAt mo ix).
Proof. apply quietly_read. intros s. unfold buttonAt. case_match; reflexivity. Qed.

Lemma quietly_getReturnMenu (m : option menuId) (depth : Z) :
  quietly (getReturnMenu cfg m depth).
Proof. apply quietly_read. intros s. unfold getReturnMenu. case_match; reflexivity. Qed.

Lemma quietly_bind {A B} (c : M A) (k : A -> M B) :
  quietly c -> (forall a, quietly (k a)) -> quietly (c ≫= k).
Proof.
  intros Hc Hk s. unfold mbind, M_bind. specialize (Hc s).
  destruct (c s) as [[a | msg] s1]; cbn [snd] in *; [| exact Hc].
  eapply sameControl_trans; [exact Hc | apply Hk].
Qed.

Lemma settles_quietly {A} (c : M A) : quietly c -> settles c.
Proof. intros H s Hs. exists Halted. eapply inControl_same; [apply H | exact Hs]. Qed.

Lemma settles_bind {A B} (c : M A) (k : A -> M B) :
  quietly c -> (forall a, settles (k a)) -> settles (c ≫= k).
Proof.
  intros Hc Hk s Hs. unfold mbind, M_bind. specialize (Hc s).
  destruct (c s) as [[a | msg] s1]; cbn [snd] in *.
  - apply Hk. eapply inControl_same; eauto.
  - exists Halted. eapply inControl_same; eauto.
Qed.

Lemma settles_bind_r {A B} (c : M A) (k : A -> M B) :
  settles c -> (forall a, quietly (k a)) -> settles (c ≫= k).
Proof.
  intros Hc Hk s Hs. unfold mbind, M_bind. specialize (Hc s Hs).
  destruct (c s) as [[a | msg] s1]; cbn [snd] in *; [| exact Hc].
  eapply single_same; [apply Hk | exact Hc].
Qed.

Lemma settles_buttonScan (b : buttonRef) (p q : callback) : settles (buttonScan b p q).
Proof.
  intros s (_ & Hg & He & Ha & Ht & _). rewrite buttonScan_run. cbn [snd].
  exists (Scanning (armedEnv b p q s)). unfold inControl, armedState.
  cbn [proper armedOf waitingOf awaitedOf timerOf gazeListeners extendedGazeListeners
       awaited timeouts armedEnv timeout].
  rewrite Hg, He, Ha. cbn [armedOf waitingOf awaitedOf app].
  split; [exact I |]. split; [reflexivity |]. split; [reflexivity |]. split; [reflexivity |].
  split.
  - intros id d f H. apply lookup_insert_Some in H as [[<- H] | [Hne H]].
    + injection H as <- <-. right. reflexivity.
    + left. destruct (Ht id d f H) as [-> | H']; [reflexivity | discriminate].
  - intros id f H. injection H as <- <-. eexists. apply lookup_insert_eq.
Qed.

(** Arming a timer that carries the button onward. *)
Lemma settles_setTimeout (f : timerFn) (d : nat) :
  continues f = true -> settles (setTimeout f d).
Proof.
  intros Hf s (_ & Hg & He & Ha & Ht & _).
  exists (Continuing (nextTimeout s) f). unfold inControl.
  cbn [setTimeout snd proper armedOf waitingOf awaitedOf timerOf gazeListeners
       extendedGazeListeners awaited timeouts].
  split; [exact Hf |]. split; [exact Hg |]. split; [exact He |]. split; [exact Ha |].
  split.
  - intros id d' f' H. apply lookup_insert_Some in H as [[<- H] | [Hne H]].
    + injection H as <- <-. right. reflexivity.
    + left. destruct (Ht id d' f' H) as [-> | H']; [reflexivity | discriminate].
  - intros id f' H. injection H as <- <-. eexists. apply lookup_insert_eq.
Qed.

Lemma settles_await (f : awaitedFn) : settles (await f).
Proof.
  intros s (_ & Hg & He & Ha & Ht & _).
  exists (Awaiting f). unfold inControl.
  cbn [await snd proper armedOf waitingOf awaitedOf timerOf gazeListeners
       extendedGazeListeners awaited timeouts].
  rewrite Ha. cbn [awaitedOf app].
  split; [exact I |]. split; [exact Hg |]. split; [exact He |]. split; [reflexivity |].
  split; [| intros id f' H; discriminate].
  intros id d f' H. left. destruct (Ht id d f' H) as [-> | H']; [reflexivity | discriminate].
Qed.

End Control.

Ltac calm :=
  repeat match goal with
    | |- quietly (mbind _ _) => apply quietly_bind; [| intros ?]
    | |- quietly (mret _) => apply quietly_ret
    | |- quietly (throw _) => apply quietly_throw
    | |- quietly (log _) => apply quietly_log
    | |- quietly (toggle _) => apply quietly_log
    | |- quietly (announce _) => apply quietly_log
    | |- quietly (slideUp _) => apply quietly_log
    | |- quietly (slideDown _) => apply quietly_log
    | |- quietly (write _) => apply quietly_log
    | |- quietly (menuOf _ _) => apply quietly_menuOf
    | |- quietly (buttonAt _ _) => apply quietly_buttonAt
    | |- quietly (getReturnMenu _ _ _) => apply quietly_getReturnMenu
    | |- quietly getms => apply quietly_read; intros ?; reflexivity
    | |- quietly (if ?x then _ else _) => destruct x
    end.

Section ControlProgram.
Variable cfg : config.

Lemma settles_scanAt (m : menuId) (ix loop : nat) : settles (scanAt cfg m ix loop).
Proof.
  unfold scanAt. apply settles_bind; [calm |]. intros [i mo].
  destruct (kind mo); unfold branchScanAt, leafScanAt;
    (apply settles_bind; [calm | intros ?; apply settles_buttonScan]).
Qed.

Lemma settles_scan (m : option menuId) : settles (scan cfg m).
Proof.
  unfold scan. apply settles_bind; [calm |]. intros [i mo].
  apply settles_bind; [calm |]. intros ?. apply settles_scanAt.
Qed.

Lemma settles_call (cb : callback) : settles (call cfg cb).
Proof.
  destruct cb; cbn [call].
  - apply settles_scan.
  - apply settles_bind; [calm |]. intros [i mo]. apply settles_scanAt.
  - apply settles_bind; [calm |]. intros [i mo].
    apply settles_bind; [calm |]. intros ?. apply settles_scan.
  - apply settles_bind; [calm |]. intros [i mo]. apply settles_scanAt.
Qed.

Lemma settles_startAction (b : buttonRef) :
  settles (addExtendedGazeListener b;; log (SetValue b "Start");; toggle b).
Proof.
  intros s (_ & Hg & He & Ha & Ht & _).
  exists (Waiting b). unfold inControl.
  cbn [proper armedOf waitingOf awaitedOf timerOf].
  unfold mbind, M_bind, addExtendedGazeListener, toggle, log.
  cbn [snd gazeListeners extendedGazeListeners awaited timeouts].
  rewrite He. cbn [waitingOf app].
  split; [exact I |]. split; [exact Hg |]. split; [reflexivity |]. split; [exact Ha |].
  split; [| intros id f' H; discriminate].
  intros id d f' H. left. destruct (Ht id d f' H) as [-> | H']; [reflexivity | discriminate].
Qed.

Lemma settles_request (b : buttonRef) (cb : callback) :
  settles (log (Beep b);;
           _ ← setTimeout stopOscillator BEEP_DURATION;
           _ ← setTimeout (afterBeep b cb) (BEEP_DURATION + AFTER_BEEP_WAIT);
           mret tt).
Proof.
  intros s (_ & Hg & He & Ha & Ht & _).
  exists (Continuing (S (nextTimeout s)) (afterBeep b cb)). unfold inControl.
  cbn [proper armedOf waitingOf awaitedOf timerOf continues].
  unfold mbind, M_bind, setTimeout, log, mret, M_ret.
  cbn [snd gazeListeners extendedGazeListeners awaited timeouts nextTimeout].
  split; [reflexivity |]. split; [exact Hg |]. split; [exact He |]. split; [exact Ha |].
  split.
  - intros id d f H. apply lookup_insert_Some in H as [[<- H] | [Hne H]].
    + injection H as <- <-. right. reflexivity.
    + left. apply lookup_insert_Some in H as [[<- H] | [Hne' H]].
      * injection H as <- <-. reflexivity.
      * destruct (Ht id d f H) as [-> | H']; [reflexivity | discriminate].
  - intros id f H. injection H as <- <-. eexists. apply lookup_insert_eq.
Qed.

Lemma settles_action (b : buttonRef) (ty : buttonType) (cb : callback) :
  settles (action cfg b ty cb).
Proof.
  unfold action. apply settles_bind; [calm |]. intros ?.
  destruct ty.
  - apply settles_bind; [calm |]. intros [i mo].
    destruct (children mo) as [ch |]; [| apply settles_quietly; calm].
    apply settles_bind; [calm |]. intros ?. apply settles_scan.
  - apply settles_startAction.
  - apply settles_request.
  - apply settles_bind; [calm |]. intros ?. apply settles_call.
  - apply settles_bind; [calm |]. intros ?. apply settles_call.
  - apply settles_bind; [calm |]. intros ?. apply settles_call.
  - apply settles_bind; [calm |]. intros ?. apply settles_call.
  - apply settles_await.
  - apply settles_bind; [calm |]. intros returnMenu.
    apply settles_bind; [calm |]. intros majorMenu.
    apply settles_bind; [calm |]. intros [major mo].
    apply settles_bind; [calm |]. intros ?. apply settles_scan.
  - apply settles_bind; [calm |]. intros ?. apply settles_call.
  - apply settles_await.
  - apply settles_bind; [calm |]. intros ?. apply settles_await.
Qed.

Lemma settles_actionOf (b : buttonRef) (cb : callback) : settles (actionOf cfg b cb).
Proof.
  unfold actionOf. apply settles_bind; [calm |]. intros [i mo].
  apply settles_bind; [calm |]. intros ty. apply settles_action.
Qed.

Lemma settles_runTimer (f : timerFn) : continues f = true -> settles (runTimer cfg f).
Proof.
  intros Hf. destruct f; try discriminate; cbn [runTimer].
  - apply settles_bind; [calm |]. intros ?.
    apply settles_bind; [calm |]. intros ms.
    apply settles_bind_r; [apply settles_setTimeout; reflexivity | intros ?; calm].
  - apply settles_bind; [calm |]. intros ?. apply settles_actionOf.
  - apply settles_bind; [calm |]. intros ?. apply settles_await.
  - apply settles_call.
Qed.

Lemma settles_runAwaited (f : awaitedFn) : settles (runAwaited cfg f).
Proof.
  destruct f; cbn [runAwaited].
  - apply settles_bind; [calm |]. intros ms.
    apply settles_bind_r; [apply settles_setTimeout; reflexivity | intros ?; calm].
  - apply settles_bind_r; [apply settles_setTimeout; reflexivity | intros ?; calm].
  - apply settles_bind; [calm |]. intros ?. apply settles_await.
  - apply settles_call.
Qed.

Lemma single_task (c : M unit) (s : state) : single (c s).2 -> single (task c s).
Proof.
  intros H. unfold task. destruct (c s) as [[[] | msg] s1]; cbn [snd] in *; [exact H |].
  eapply single_same; [| exact H]. repeat split.
Qed.

(** A gaze on the one armed button hands the control to [afterPress]. *)
Lemma hear_Scanning (e : scanEnv) (s : state) :
  inControl (Scanning e) s ->
  inControl (Continuing (nextTimeout s) (afterPress e)) (hear e s).2.
Proof.
  intros (_ & Hg & He & Ha & Ht & Hex). rewrite hear_run. unfold inControl.
  cbn [snd proper armedOf waitingOf awaitedOf timerOf continues gazeListeners
       extendedGazeListeners awaited timeouts] in *.
  rewrite Hg, filter_out_only.
  split; [reflexivity |]. split; [reflexivity |]. split; [exact He |]. split; [exact Ha |].
  split.
  - intros id d f H. apply lookup_insert_Some in H as [[<- H] | [Hne H]].
    + injection H as <- <-. right. reflexivity.
    + left. apply lookup_delete_Some in H as [Hne' H].
      destruct (Ht id d f H) as [-> | H']; [reflexivity |].
      injection H' as <- <-. contradiction.
  - intros id f H. injection H as <- <-. eexists. apply lookup_insert_eq.
Qed.

(** The function in control is no oscillator stop. *)
Lemma timerOf_not_noise (c : control) (id : timerId) :
  proper c -> timerOf c <> Some (id, stopOscillator).
Proof. destruct c; cbn; intros Hp H; try discriminate. injection H as <- ->. discriminate. Qed.

(** An oscillator stop takes the control from nobody. *)
Lemma expire_noise (c : control) (id : timerId) (d : nat) (s : state) :
  inControl c s -> timeouts s !! id = Some (d, stopOscillator) ->
  inControl c (task (clearTimeout id;; log (Fired stopOscillator);; runTimer cfg stopOscillator)
                    s).
Proof.
  intros (Hp & Hg & He & Ha & Ht & Hex) Hid.
  rewrite (task_Ok _ _ (mkState (gazeListeners s) (extendedGazeListeners s)
                          (delete id (timeouts s)) (nextTimeout s) (awaited s) (sliderMs s)
                          (journal s ++ [Fired stopOscillator]))) by reflexivity.
  unfold inControl. cbn [gazeListeners extendedGazeListeners awaited timeouts].
  split; [exact Hp |]. split; [exact Hg |]. split; [exact He |]. split; [exact Ha |].
  split.
  - intros id' d' f H. apply lookup_delete_Some in H as [_ H]. exact (Ht id' d' f H).
  - intros id' f H. destruct (Hex id' f H) as [d' Hd'].
    exists d'. apply lookup_delete_Some. split; [| exact Hd'].
    intros <-. rewrite Hid in Hd'. injection Hd' as _ <-.
    exact (timerOf_not_noise c id Hp H).
Qed.

(** With the timer in control cleared, nobody holds the control. *)
Lemma cleared_Halted (c : control) (id : timerId) (f : timerFn) (s : state) (j : list effect) :
  inControl c s -> timerOf c = Some (id, f) ->
  inControl Halted
    (mkState [] (extendedGazeListeners s) (delete id (timeouts s)) (nextTimeout s)
             (awaited s) (sliderMs s) j).
Proof.
  intros (Hp & Hg & He & Ha & Ht & Hex) Hc. unfold inControl.
  cbn [proper armedOf waitingOf awaitedOf timerOf gazeListeners extendedGazeListeners
       awaited timeouts].
  assert (He' : extendedGazeListeners s = [])
    by (rewrite He; destruct c; try discriminate; reflexivity).
  assert (Ha' : awaited s = []) by (rewrite Ha; destruct c; try discriminate; reflexivity).
  split; [exact I |]. split; [reflexivity |]. split; [exact He' |]. split; [exact Ha' |].
  split; [| intros id' f' H; discriminate].
  intros id' d' f' H. apply lookup_delete_Some in H as [Hne H]. left.
  destruct (Ht id' d' f' H) as [-> | H']; [reflexivity |].
  rewrite Hc in H'. injection H' as <- <-. contradiction.
Qed.

Lemma gaze_single (s : state) : single s -> single (step cfg Gaze s).
Proof.
  intros [c Hc]. cbn [step]. rewrite task_emitGaze.
  pose proof Hc as (_ & Hg & _). rewrite Hg.
  destruct c; try (exists c; exact Hc); try (eexists; exact Hc).
  cbn [armedOf]. rewrite forEach_hear_one. eexists. apply hear_Scanning, Hc.
Qed.

Lemma extended_single (s : state) : single s -> single (step cfg ExtendedGaze s).
Proof.
  intros [c Hc]. cbn [step].
  change (task (emitExtendedGaze cfg) s)
    with (task (forEach (fun b => log (Started b);; start cfg b) (extendedGazeListeners s)) s).
  pose proof Hc as (_ & Hg & He & Ha & Ht & _). rewrite He.
  destruct c; try (eexists; exact Hc).
  cbn [waitingOf forEach armedOf awaitedOf timerOf] in *.
  apply single_task.
  set (s1 := mkState [] [] (timeouts s) (nextTimeout s) [] (sliderMs s)
                     (journal s ++ [Started b])).
  assert (H1 : inControl Halted s1).
  { unfold inControl, s1. cbn. repeat split; try discriminate.
    intros id d f H. left. destruct (Ht id d f H) as [-> | H']; [reflexivity | discriminate]. }
  assert (Hrun : ((log (Started b);; start cfg b);; mret tt) s
                 = ((log (SetValue b "Stop");; scan cfg (Some b.1);; toggle b);; mret tt) s1).
  { unfold start, mbind at 1 2 3, M_bind at 1 2 3.
    unfold log at 1, removeExtendedGazeListener.
    cbn [gazeListeners extendedGazeListeners timeouts nextTimeout awaited sliderMs journal].
    rewrite Hg, He, Ha. cbn [armedOf waitingOf awaitedOf].
    rewrite filter_cons, decide_False by (intros H; apply H; reflexivity).
    rewrite filter_nil. reflexivity. }
  rewrite Hrun.
  apply settles_bind_r; [| intros ?; calm | exact H1].
  apply settles_bind; [calm |]. intros ?.
  apply settles_bind_r; [apply settles_scan | intros ?; calm].
Qed.

Lemma expire_single (id : timerId) (s : state) : single s -> single (step cfg (Expire id) s).
Proof.
  intros [c Hc]. cbn [step].
  destruct (timeouts s !! id) as [[d f] |] eqn:E; [| exists c; exact Hc].
  pose proof Hc as (Hp & Hg & He & Ha & Ht & Hex).
  destruct (Ht id d f E) as [-> | Hf].
  - exists c. apply expire_noise with d; assumption.
  - erewrite task_bind_Ok by reflexivity.
    erewrite task_bind_Ok by reflexivity.
    cbn [clearTimeout log snd gazeListeners extendedGazeListeners timeouts nextTimeout
         awaited sliderMs journal].
    apply single_task.
    destruct c; try discriminate; cbn [timerOf] in Hf; injection Hf as <- <-.
    + (* the deadline of the armed button *)
      cbn [runTimer armedOf] in *. rewrite Hg.
      assert (Hrun : forall st j,
                 (toggle (that e);; removeGazeListener e;; call cfg (cbpassed e))
                   (mkState [e] (extendedGazeListeners s) st (nextTimeout s) (awaited s)
                            (sliderMs s) j)
                 = call cfg (cbpassed e)
                     (mkState [] (extendedGazeListeners s) st (nextTimeout s) (awaited s)
                              (sliderMs s) (j ++ [Toggle (that e)]))).
      { intros st j. unfold mbind at 1 2, M_bind at 1 2, toggle, log, removeGazeListener.
        cbn [gazeListeners extendedGazeListeners timeouts nextTimeout awaited sliderMs
             journal].
        rewrite filter_out_only. reflexivity. }
      rewrite Hrun. apply settles_call.
      eapply cleared_Halted; [exact Hc | reflexivity].
    + (* a timer that carries a confirmed button onward *)
      apply settles_runTimer; [exact Hp |].
      cbn [armedOf] in Hg. rewrite Hg.
      eapply cleared_Halted; [exact Hc | reflexivity].
Qed.

Lemma complete_single (k : nat) (s : state) : single s -> single (step cfg (Complete k) s).
Proof.
  intros [c Hc]. cbn [step].
  destruct (awaited s !! k) as [f |] eqn:E; [| exists c; exact Hc].
  pose proof Hc as (Hp & Hg & He & Ha & Ht & Hex).
  rewrite Ha in E. destruct c; try discriminate.
  cbn [awaitedOf armedOf waitingOf timerOf] in *.
  destruct k as [| k]; [| discriminate]. injection E as <-.
  erewrite task_bind_Ok by reflexivity.
  erewrite task_bind_Ok by reflexivity.
  apply single_task, settles_runAwaited.
  unfold inControl.
  cbn [takeAwaited log snd proper armedOf waitingOf awaitedOf timerOf gazeListeners
       extendedGazeListeners awaited timeouts].
  rewrite Ha. cbn [take drop app].
  split; [exact I |]. split; [exact Hg |]. split; [exact He |]. split; [reflexivity |].
  split; [exact Ht | intros id f' H; discriminate].
Qed.

Lemma step_single (ev : event) (s : state) : single s -> single (step cfg ev s).
Proof.
  destruct ev as [| | id | k | ms].
  - apply gaze_single.
  - apply extended_single.
  - apply expire_single.
  - apply complete_single.
  - intros H. cbn [step]. eapply single_same; [| exact H]. repeat split.
Qed.

Lemma steps_single (evs : list event) : forall s, single s -> single (steps cfg evs s).
Proof.
  induction evs as [| ev evs IH]; intros s H; [exact H |].
  rewrite steps_cons. apply IH, step_single, H.
Qed.

End ControlProgram.

Section ControlTheorems.
Variable cfg : config.

(** X16: from a state in which at most one party holds the control, no
    events lead to two: at most one button is armed; while one is armed
    no start button waits, nothing is awaited and the only pending timers
    are its deadline and oscillator stops; and while a confirmed button is
    carried onward by a timer or a collaborator no button is armed. *)
Theorem one_control_at_a_time (s0 : state) (evs : list event) :
  single s0 ->
  let s := steps cfg evs s0 in
  length (gazeListeners s) <= 1 /\
  (forall e, e ∈ gazeListeners s ->
     extendedGazeListeners s = [] /\ awaited s = [] /\
     forall id d f, timeouts s !! id = Some (d, f) ->
                    f = stopOscillator \/ (id = timeout e /\ f = onTimeout e)) /\
  (forall id d f, timeouts s !! id = Some (d, f) -> continues f = true ->
     gazeListeners s = [] /\ extendedGazeListeners s = [] /\ awaited s = []) /\
  (awaited s <> [] -> gazeListeners s = [] /\ extendedGazeListeners s = []) /\
  single s.
Proof.
  intros H0 s. pose proof (steps_single cfg evs s0 H0) as [c Hc]. fold s in Hc.
  pose proof Hc as (Hp & Hg & He & Ha & Ht & Hex).
  split; [rewrite Hg; destruct c; cbn; lia |].
  split.
  - intros e Hin. rewrite Hg in Hin. destruct c; try (inversion Hin; fail).
    apply list_elem_of_singleton in Hin. subst e0.
    cbn [waitingOf awaitedOf timerOf] in *.
    split; [exact He |]. split; [exact Ha |].
    intros id d f H. destruct (Ht id d f H) as [-> | H']; [left; reflexivity | right].
    injection H' as <- <-. split; reflexivity.
  - split; [| split; [| exists c; exact Hc]].
    + intros id d f H Hf. destruct (Ht id d f H) as [-> | H']; [discriminate |].
      destruct c; try discriminate; cbn [timerOf] in H'; injection H' as <- <-;
        [discriminate |].
      split; [exact Hg |]. split; [exact He | exact Ha].
    + intros Hne. rewrite Ha in Hne. destruct c; try (exfalso; apply Hne; reflexivity).
      split; [exact Hg | exact He].
Qed.

Lemma step_Halted (ev : event) (s : state) :
  inControl Halted s -> inControl Halted (step cfg ev s).
Proof.
  intros Hc. pose proof Hc as (Hp & Hg & He & Ha & Ht & Hex).
  cbn [armedOf waitingOf awaitedOf timerOf] in *.
  destruct ev as [| | id | k | ms]; cbn [step].
  - rewrite task_emitGaze, Hg. exact Hc.
  - change (task (emitExtendedGaze cfg) s)
      with (task (forEach (fun b => log (Started b);; start cfg b)
                          (extendedGazeListeners s)) s).
    rewrite He. exact Hc.
  - destruct (timeouts s !! id) as [[d f] |] eqn:E; [| exact Hc].
    destruct (Ht id d f E) as [-> | H']; [| discriminate].
    apply expire_noise with d; assumption.
  - rewrite Ha. exact Hc.
  - eapply inControl_same; [| exact Hc]. repeat split.
Qed.

Lemma steps_Halted (evs : list event) :
  forall s, inControl Halted s ->
            inControl Halted (steps cfg evs s) /\
            actions (journal (steps cfg evs s)) = actions (journal s).
Proof.
  induction evs as [| ev evs IH]; intros s Hc; [split; [exact Hc | reflexivity] |].
  rewrite steps_cons.
  destruct (IH _ (step_Halted ev s Hc)) as [H1 H2].
  split; [exact H1 |]. rewrite H2.
  destruct (step_actions cfg ev s) as [H | (id & d & e & _ & E & _)]; [exact H |].
  destruct Hc as (_ & _ & _ & _ & Ht & _).
  destruct (Ht id d _ E) as [H' | H']; discriminate.
Qed.

(** X17: once nothing is armed, waiting or awaited and only oscillator
    stops are pending, it stays so: no gaze, timeout or completion arms a
    button or calls an action again. *)
Theorem halted_forever (s : state) (evs : list event) :
  gazeListeners s = [] -> extendedGazeListeners s = [] -> awaited s = [] ->
  (forall id d f, timeouts s !! id = Some (d, f) -> f = stopOscillator) ->
  let s' := steps cfg evs s in
  gazeListeners s' = [] /\ extendedGazeListeners s' = [] /\ awaited s' = [] /\
  (forall id d f, timeouts s' !! id = Some (d, f) -> f = stopOscillator) /\
  actions (journal s') = actions (journal s).
Proof.
  intros Hg He Ha Ht s'.
  assert (Hc : inControl Halted s).
  { unfold inControl. cbn. repeat split; try assumption; try discriminate.
    intros id d f H. left. exact (Ht id d f H). }
  destruct (steps_Halted evs s Hc) as [(_ & Hg' & He' & Ha' & Ht' & _) Hact].
  split; [exact Hg' |]. split; [exact He' |]. split; [exact Ha' |].
  split; [| exact Hact].
  intros id d f H. destruct (Ht' id d f H) as [-> | H']; [reflexivity | discriminate].
Qed.

End ControlTheorems.

Lemma waiting_single : single waiting.
Proof.
  exists (Waiting (0, 0)). unfold inControl, waiting. cbn.
  repeat split; discriminate.
Qed.

Lemma one_control_at_a_time_witness :
  length (gazeListeners (steps controlPage [ExtendedGaze; Gaze; Expire 2] waiting)) <= 1.
Proof.
  pose proof (one_control_at_a_time controlPage waiting [ExtendedGaze; Gaze; Expire 2]
                waiting_single) as H.
  cbv zeta in H. exact (proj1 H).
Defined.

Lemma quiet_no_timer :
  forall id d f, timeouts quiet !! id = Some (d, f) -> f = stopOscillator.
Proof. intros id d f H. cbn in H. rewrite lookup_empty in H. discriminate. Qed.

Lemma halted_forever_witness :
  gazeListeners (steps controlPage [Gaze; Expire 1; Complete 0; ExtendedGaze] quiet) = [].
Proof.
  pose proof (halted_forever controlPage quiet [Gaze; Expire 1; Complete 0; ExtendedGaze]
                eq_refl eq_refl eq_refl quiet_no_timer) as H.
  cbv zeta in H. exact (proj1 H).
Defined.

(** * Properties of the email menu *)

Section EmailRecipients.
Import EmailMenu.






End EmailRecipients.


